(** * Blocke: a shallow embedding of [script.js] and its verified properties

    The game keeps one global session ([game]) and three DOM text nodes.
    Every function of the script that touches them is embedded below as a
    function on an explicit [World]; a JavaScript [TypeError] (reading a
    property of [undefined] or [null]) is an explicit outcome.  Numbers that
    the script keeps integral are in [Z]; the seed, the generator's state
    and [tile.reveal] are IEEE doubles.  The canvas is not part of
    the world: of [drawBoard] only the colour it fills a tile with is
    embedded, with its helpers [tint], [hexToRgb] and [archetypeColor].

    The file has three parts: the script, the vocabulary of the properties,
    and the properties with their proofs. *)

From Stdlib Require Import ZArith Lia Bool List.
From Corelib Require Import PrimFloat SpecFloat.
From Corelib Require FloatOps.
From stdpp Require Import base tactics option numbers list strings pretty.

Local Open Scope string_scope.
Local Open Scope list_scope.
Local Open Scope Z_scope.

(** ** Outcomes: a value, or a thrown exception *)

Inductive Error := TypeError | OutOfFuel.

Inductive Res (A : Type) : Type :=
| Done (a : A)
| Throw (e : Error).
Arguments Done {A} a.
Arguments Throw {A} e.

#[global] Instance Res_ret : MRet Res := fun A a => Done a.
#[global] Instance Res_bind : MBind Res := fun A B f m =>
  match m with
  | Done a => f a
  | Throw e => Throw e
  end.

(** [o ?? TypeError]: dereferencing a value that may be [undefined]. *)
Definition deref {A} (o : option A) : Res A :=
  match o with
  | Some a => Done a
  | None => Throw TypeError
  end.

(** ** Constants of the script *)

Definition gridSize : Z := 18.

Record Direction := { dir_x : Z; dir_y : Z; dir_name : string }.

Definition directions : list Direction :=
  [ {| dir_x := 0; dir_y := -1; dir_name := "north" |};
    {| dir_x := 1; dir_y := 0; dir_name := "east" |};
    {| dir_x := 0; dir_y := 1; dir_name := "south" |};
    {| dir_x := -1; dir_y := 0; dir_name := "west" |} ].

(** The five archetype names and the four tile states are string constants
    in the script; they are closed sets, so they are enumerations here. *)
Inductive ArchetypeName := ThirdExit | NorthEntry | Sequence | Frequency | Backtrack.
Inductive TileState := Neutral | Safe | Wall | Exit.

#[global] Instance ArchetypeName_eq_dec : EqDecision ArchetypeName.
Proof. solve_decision. Defined.
#[global] Instance TileState_eq_dec : EqDecision TileState.
Proof. solve_decision. Defined.

(** ** Data model *)

Record Pos := { pos_x : Z; pos_y : Z }.

Record Tile := {
  tile_x : Z;
  tile_y : Z;
  archetype : ArchetypeName;
  state : TileState;
  leaveCount : Z;
  visits : Z;
  lastEntry : option string;   (* [None] is JavaScript's null *)
  tile_reveal : float
}.

Record Thresholds := {
  thirdExit : Z;
  frequencyWindow : Z;
  frequencyCount : Z;
  backtrackWindow : Z
}.

(** An entry of the [archetypes] table.  Its [trigger] closure takes the
    session itself, so it is kept apart from the record (see [trigger]). *)
Record Archetype := { arch_name : ArchetypeName; arch_description : string }.

Abbreviation Grid := (list (list Tile)).

Record Game := {
  rng : float;                   (* the variable [a] captured by mulberry32 *)
  grid : Grid;
  player : Pos;
  exit : Pos;
  moveCount : Z;
  crystallized : Z;
  recentDirections : list string;
  recentArchetypes : list ArchetypeName;
  recentPositions : list Pos;
  thresholds : Thresholds;
  archetypePool : list Archetype;
  message : string;
  revealTimer : Z
}.

(** The global [game] variable and the text of the three DOM nodes.  The
    two counters are shown as the numbers they print. *)
Record World := {
  game : option Game;
  movesEl : Z;
  crystallizedEl : Z;
  statusEl : string
}.

(** *** Field updates (the script assigns to one field at a time) *)

Definition set_state (s : TileState) (t : Tile) : Tile :=
  {| tile_x := tile_x t; tile_y := tile_y t; archetype := archetype t; state := s;
     leaveCount := leaveCount t; visits := visits t; lastEntry := lastEntry t;
     tile_reveal := tile_reveal t |}.
Definition set_leaveCount (n : Z) (t : Tile) : Tile :=
  {| tile_x := tile_x t; tile_y := tile_y t; archetype := archetype t; state := state t;
     leaveCount := n; visits := visits t; lastEntry := lastEntry t;
     tile_reveal := tile_reveal t |}.
Definition set_visits (n : Z) (t : Tile) : Tile :=
  {| tile_x := tile_x t; tile_y := tile_y t; archetype := archetype t; state := state t;
     leaveCount := leaveCount t; visits := n; lastEntry := lastEntry t;
     tile_reveal := tile_reveal t |}.
Definition set_lastEntry (e : option string) (t : Tile) : Tile :=
  {| tile_x := tile_x t; tile_y := tile_y t; archetype := archetype t; state := state t;
     leaveCount := leaveCount t; visits := visits t; lastEntry := e;
     tile_reveal := tile_reveal t |}.
Definition set_reveal (r : float) (t : Tile) : Tile :=
  {| tile_x := tile_x t; tile_y := tile_y t; archetype := archetype t; state := state t;
     leaveCount := leaveCount t; visits := visits t; lastEntry := lastEntry t;
     tile_reveal := r |}.

Definition set_grid (gr : Grid) (g : Game) : Game :=
  {| rng := rng g; grid := gr; player := player g; exit := exit g;
     moveCount := moveCount g; crystallized := crystallized g;
     recentDirections := recentDirections g; recentArchetypes := recentArchetypes g;
     recentPositions := recentPositions g; thresholds := thresholds g;
     archetypePool := archetypePool g; message := message g;
     revealTimer := revealTimer g |}.
Definition set_player (p : Pos) (g : Game) : Game :=
  {| rng := rng g; grid := grid g; player := p; exit := exit g;
     moveCount := moveCount g; crystallized := crystallized g;
     recentDirections := recentDirections g; recentArchetypes := recentArchetypes g;
     recentPositions := recentPositions g; thresholds := thresholds g;
     archetypePool := archetypePool g; message := message g;
     revealTimer := revealTimer g |}.
Definition set_moveCount (n : Z) (g : Game) : Game :=
  {| rng := rng g; grid := grid g; player := player g; exit := exit g;
     moveCount := n; crystallized := crystallized g;
     recentDirections := recentDirections g; recentArchetypes := recentArchetypes g;
     recentPositions := recentPositions g; thresholds := thresholds g;
     archetypePool := archetypePool g; message := message g;
     revealTimer := revealTimer g |}.
Definition set_crystallized (n : Z) (g : Game) : Game :=
  {| rng := rng g; grid := grid g; player := player g; exit := exit g;
     moveCount := moveCount g; crystallized := n;
     recentDirections := recentDirections g; recentArchetypes := recentArchetypes g;
     recentPositions := recentPositions g; thresholds := thresholds g;
     archetypePool := archetypePool g; message := message g;
     revealTimer := revealTimer g |}.
Definition set_recentDirections (l : list string) (g : Game) : Game :=
  {| rng := rng g; grid := grid g; player := player g; exit := exit g;
     moveCount := moveCount g; crystallized := crystallized g;
     recentDirections := l; recentArchetypes := recentArchetypes g;
     recentPositions := recentPositions g; thresholds := thresholds g;
     archetypePool := archetypePool g; message := message g;
     revealTimer := revealTimer g |}.
Definition set_recentArchetypes (l : list ArchetypeName) (g : Game) : Game :=
  {| rng := rng g; grid := grid g; player := player g; exit := exit g;
     moveCount := moveCount g; crystallized := crystallized g;
     recentDirections := recentDirections g; recentArchetypes := l;
     recentPositions := recentPositions g; thresholds := thresholds g;
     archetypePool := archetypePool g; message := message g;
     revealTimer := revealTimer g |}.
Definition set_recentPositions (l : list Pos) (g : Game) : Game :=
  {| rng := rng g; grid := grid g; player := player g; exit := exit g;
     moveCount := moveCount g; crystallized := crystallized g;
     recentDirections := recentDirections g; recentArchetypes := recentArchetypes g;
     recentPositions := l; thresholds := thresholds g;
     archetypePool := archetypePool g; message := message g;
     revealTimer := revealTimer g |}.
Definition set_message (m : string) (g : Game) : Game :=
  {| rng := rng g; grid := grid g; player := player g; exit := exit g;
     moveCount := moveCount g; crystallized := crystallized g;
     recentDirections := recentDirections g; recentArchetypes := recentArchetypes g;
     recentPositions := recentPositions g; thresholds := thresholds g;
     archetypePool := archetypePool g; message := m;
     revealTimer := revealTimer g |}.
Definition set_revealTimer (n : Z) (g : Game) : Game :=
  {| rng := rng g; grid := grid g; player := player g; exit := exit g;
     moveCount := moveCount g; crystallized := crystallized g;
     recentDirections := recentDirections g; recentArchetypes := recentArchetypes g;
     recentPositions := recentPositions g; thresholds := thresholds g;
     archetypePool := archetypePool g; message := message g;
     revealTimer := n |}.

Definition set_game (g : Game) (w : World) : World :=
  {| game := Some g; movesEl := movesEl w; crystallizedEl := crystallizedEl w;
     statusEl := statusEl w |}.

(** [game.f] where [game] may be null. *)
Definition theGame (w : World) : Res Game := deref (game w).

(** *** Two-dimensional indexing: [grid[y][x]] *)

Definition getTile {A} (gr : list (list A)) (x y : Z) : option A :=
  if (0 <=? x) && (0 <=? y)
  then row ← gr !! Z.to_nat y; row !! Z.to_nat x
  else None.

(** [grid[y]]: [undefined] outside the rows. *)
Definition getRow {A} (gr : list (list A)) (y : Z) : option (list A) :=
  if 0 <=? y then gr !! Z.to_nat y else None.

(** A write through a reference obtained from [grid[y][x]]. *)
Definition updTile {A} (f : A -> A) (x y : Z) (gr : list (list A)) : list (list A) :=
  if (0 <=? x) && (0 <=? y)
  then alter (alter f (Z.to_nat x)) (Z.to_nat y) gr
  else gr.

(** ** Doubles as integers

    [seed] and the generator's state are doubles; the script only ever
    reads them through [Math.floor] and the 32-bit operators. *)

(** The integer part of a double, toward zero; 0 for NaN and the infinities
    (the first step of JavaScript's ToInt32 and ToUint32). *)
Definition toInteger (f : float) : Z :=
  match FloatOps.Prim2SF f with
  | S754_finite s m e => let v := Z.shiftl (Zpos m) e in if s then - v else v
  | _ => 0
  end.

(** ToUint32.  The bit operators and [Math.imul] use ToInt32, which has the
    same 32 bits. *)
Definition toUint32 (f : float) : Z := toInteger f mod 2 ^ 32.

(** The double of an integer below 2^53 in size. *)
Definition ofInteger (z : Z) : float :=
  match z with
  | Z0 => 0%float
  | Zpos p => FloatOps.SF2Prim (S754_finite false p 0)
  | Zneg p => FloatOps.SF2Prim (S754_finite true p 0)
  end.

(** [Math.floor].  A double with a non-negative exponent is an integer
    already; NaN, the zeros and the infinities are returned as they are. *)
Definition math_floor (f : float) : float :=
  match FloatOps.Prim2SF f with
  | S754_finite s m e =>
      if 0 <=? e then f
      else
        let q := Z.shiftl (Zpos m) e in
        let exact := Z.shiftl q (- e) =? Zpos m in
        ofInteger (if s then (if exact then - q else - q - 1) else q)
  | _ => f
  end.

(** ** The deterministic generator [mulberry32]

    The closure's variable [a] is a double that only grows; the bit
    operators and [Math.imul] read its low 32 bits.  All 32-bit values are
    kept unsigned, which have the same bits as the signed ones the script
    computes with.  The returned numerator [r] stands for the double
    [r / 4294967296]. *)

Definition u32 (t : Z) : Z := t mod 2 ^ 32.
Definition imul (a b : Z) : Z := (a * b) mod 2 ^ 32.

Definition mulberry32 (a : float) : Z * float :=
  let a := PrimFloat.add a 0x6d2b79f5%float in
  let t := toUint32 a in
  let t := imul (Z.lxor t (Z.shiftr t 15)) (Z.lor t 1) in
  let t := Z.lxor t (u32 (t + imul (Z.lxor t (Z.shiftr t 7)) (Z.lor t 61))) in
  (u32 (Z.lxor t (Z.shiftr t 14)), a).

(** [Math.floor(rng() * n)] for the numerator [r] of [rng()], which is
    below [2^32].  The script multiplies the doubles [r / 2^32] and [n];
    while [r * n < 2^53], that is for every [n <= 2^21], the product is a
    double and nothing is rounded, so that its floor is the quotient below.
    The script calls it with [n <= 5] only; beyond [2^21] the double
    product is rounded and this definition does not apply. *)
Definition floorMul (r n : Z) : Z := (r * n) / 2 ^ 32.

(** ** Array helpers *)

(** [l.slice(start)], for any integer [start]. *)
Definition slice_from {A} (start : Z) (l : list A) : list A :=
  let len := Z.of_nat (length l) in
  let k := if start <? 0 then Z.max (len + start) 0 else Z.min start len in
  drop (Z.to_nat k) l.

(** [l.push(v); if (l.length > cap) l.shift();] *)
Definition push_capped {A} (cap : Z) (l : list A) (v : A) : list A :=
  let l' := l ++ [v] in
  if cap <? Z.of_nat (length l') then tail l' else l'.

(** [[array[i], array[j]] = [array[j], array[i]]] for indices inside the
    array (the only ones [shuffle] produces; outside, nothing is swapped). *)
Definition swap {A} (i j : nat) (array : list A) : list A :=
  match array !! i, array !! j with
  | Some ai, Some aj => <[j := ai]> (<[i := aj]> array)
  | _, _ => array
  end.

(** The body of [shuffle] runs for [i = length - 1] down to [1]. *)
Fixpoint shuffle_loop {A} (i : nat) (array : list A) (a : float) : list A * float :=
  match i with
  | O => (array, a)
  | S i' =>
      let '(r, a) := mulberry32 a in
      let j := Z.to_nat (floorMul r (Z.of_nat i + 1)) in
      shuffle_loop i' (swap i j array) a
  end.

Definition shuffle {A} (l : list A) (a : float) : list A * float :=
  shuffle_loop (length l - 1) l a.

(** ** The archetype table and its triggers *)

Definition archetypes : list Archetype :=
  [ {| arch_name := ThirdExit;
       arch_description := "Hardens after leaving it three times." |};
    {| arch_name := NorthEntry;
       arch_description := "Hardens if entered from the north." |};
    {| arch_name := Sequence;
       arch_description := "Hardens if you repeat a direction twice." |};
    {| arch_name := Frequency;
       arch_description := "Hardens if you visited similar tiles too often recently." |};
    {| arch_name := Backtrack;
       arch_description := "Hardens if you return too soon." |} ].

(** [archetype.trigger(tile, state)], by the name of the table entry. *)
Definition trigger (n : ArchetypeName) (tile : Tile) (st : Game) : bool :=
  match n with
  | ThirdExit => thirdExit (thresholds st) <=? leaveCount tile
  | NorthEntry => bool_decide (lastEntry tile = Some "north")
  | Sequence =>
      let arr := slice_from (-2) (recentDirections st) in
      forallb (fun d => bool_decide (Some d = arr !! 0%nat)) arr
  | Frequency =>
      let recent := slice_from (- frequencyWindow (thresholds st)) (recentArchetypes st) in
      let count := length (filter (fun entry => entry = archetype tile) recent) in
      frequencyCount (thresholds st) <=? Z.of_nat count
  | Backtrack =>
      let recent := slice_from (- backtrackWindow (thresholds st)) (recentPositions st) in
      existsb (fun pos => (pos_x pos =? tile_x tile) && (pos_y pos =? tile_y tile)) recent
  end.

(** ** createGame *)

Definition newTile (x y : Z) (n : ArchetypeName) : Tile :=
  {| tile_x := x; tile_y := y; archetype := n; state := Neutral;
     leaveCount := 0; visits := 0; lastEntry := None; tile_reveal := 0%float |}.

(** The inner loop, with [n] columns left to fill from column [x]. *)
Fixpoint build_row (n : nat) (x y : Z) (pool : list Archetype) (a : float)
  : Res (list Tile * float) :=
  match n with
  | O => Done ([], a)
  | S n' =>
      let '(r, a) := mulberry32 a in
      archetype ← deref (pool !! Z.to_nat (floorMul r (Z.of_nat (length pool))));
      '(row, a) ← build_row n' (x + 1) y pool a;
      Done (newTile x y (arch_name archetype) :: row, a)
  end.

(** The outer loop, with [n] rows left to fill from row [y]. *)
Fixpoint build_rows (n : nat) (y : Z) (pool : list Archetype) (a : float)
  : Res (Grid * float) :=
  match n with
  | O => Done ([], a)
  | S n' =>
      '(row, a) ← build_row (Z.to_nat gridSize) 0 y pool a;
      '(rows, a) ← build_rows n' (y + 1) pool a;
      Done (row :: rows, a)
  end.

(** [grid[y][x].f = v]: the tile must exist. *)
Definition writeTile (f : Tile -> Tile) (x y : Z) (gr : Grid) : Res Grid :=
  _ ← deref (getTile gr x y); Done (updTile f x y gr).

(** [createGame(seed)], for any double [seed]. *)
Definition createGame (seed : float) : Res Game :=
  let a := math_floor (PrimFloat.mul seed 1e9%float) in
  let '(shuffled, a) := shuffle archetypes a in
  let pool := take 4 shuffled in
  let '(r, a) := mulberry32 a in
  let thirdExit_ := 3 + floorMul r 2 in
  let '(r, a) := mulberry32 a in
  let frequencyWindow_ := 6 + floorMul r 4 in
  let '(r, a) := mulberry32 a in
  let frequencyCount_ := 3 + floorMul r 2 in
  let '(r, a) := mulberry32 a in
  let backtrackWindow_ := 4 + floorMul r 3 in
  '(gr, a) ← build_rows (Z.to_nat gridSize) 0 pool a;
  let player_ := {| pos_x := 1; pos_y := 1 |} in
  let exit_ := {| pos_x := gridSize - 2; pos_y := gridSize - 2 |} in
  gr ← writeTile (set_state Safe) (pos_x player_) (pos_y player_) gr;
  gr ← writeTile (set_state Exit) (pos_x exit_) (pos_y exit_) gr;
  Done {| rng := a; grid := gr; player := player_; exit := exit_;
          moveCount := 0; crystallized := 0;
          recentDirections := []; recentArchetypes := []; recentPositions := [];
          thresholds := {| thirdExit := thirdExit_;
                           frequencyWindow := frequencyWindow_;
                           frequencyCount := frequencyCount_;
                           backtrackWindow := backtrackWindow_ |};
          archetypePool := pool; message := "Learning..."; revealTimer := 0 |}.

(** ** Messages and drawing *)

(** [flashMessage(message)] *)
Definition flashMessage (m : string) (w : World) : Res World :=
  g ← theGame w;
  Done {| game := Some (set_message m g); movesEl := movesEl w;
          crystallizedEl := crystallizedEl w; statusEl := m |}.

(** [Math.max(0, r - 0.02)], for the non-NaN values [tile.reveal] takes;
    the literal is the double nearest to 0.02. *)
Definition decay (r : float) : float :=
  let r' := PrimFloat.sub r 0x1.47ae147ae147bp-6%float in
  if PrimFloat.ltb 0%float r' then r' else 0%float.

Definition decayTile (t : Tile) : Tile :=
  if PrimFloat.ltb 0%float (tile_reveal t) then set_reveal (decay (tile_reveal t)) t else t.

(** [draw()].  [drawBoard] only reads the session and paints the canvas,
    which is not part of the world modelled here. *)
Definition draw (w : World) : Res World :=
  g ← theGame w;
  let g := if 0 <? revealTimer g then set_revealTimer (revealTimer g - 1) g else g in
  let g := set_grid (fmap (M := list) decayTile <$> grid g) g in
  Done {| game := Some g; movesEl := moveCount g;
          crystallizedEl := crystallized g; statusEl := message g |}.

(** [reveal()] *)
Definition reveal (w : World) : Res World :=
  match game w with
  | None => Done w
  | Some g => Done (set_game (set_revealTimer 60 g) w)
  end.

(** [reset()], for the seed that [Math.random()] draws. *)
Definition reset (seed : float) (w : World) : Res World :=
  g ← createGame seed;
  draw (set_game g w).

(** ** The rule engine *)

Definition crystallize (t : Tile) : Tile := set_reveal 1%float (set_state Wall t).

(** [applyTileRule(tile)], for the tile object stored at [grid[y][x]]. *)
Definition applyTileRule (x y : Z) (w : World) : Res World :=
  g ← theGame w;
  tile ← deref (getTile (grid g) x y);
  if bool_decide (state tile = Wall) || bool_decide (state tile = Exit) then Done w
  else
    match find (fun rule => bool_decide (arch_name rule = archetype tile)) archetypes with
    | None => Done w
    | Some archetype =>
        let shouldCrystallize := trigger (arch_name archetype) tile g in
        if shouldCrystallize then
          let g := set_grid (updTile crystallize x y (grid g)) g in
          let g := set_crystallized (crystallized g + 1) g in
          flashMessage "A path crystallizes behind you." (set_game g w)
        else Done w
    end.

(** ** The liveness checker *)

Definition outOfGrid (nx ny : Z) : bool :=
  (nx <? 0) || (ny <? 0) || (gridSize <=? nx) || (gridSize <=? ny).

(** [directions.every(...)] of [isTrapped], left to right with early exit. *)
Fixpoint isTrapped_every (dirs : list Direction) (p : Pos) (gr : Grid) : Res bool :=
  match dirs with
  | [] => Done true
  | dir :: dirs' =>
      let nx := pos_x p + dir_x dir in
      let ny := pos_y p + dir_y dir in
      blocked ← (if outOfGrid nx ny then Done true
                 else t ← deref (getTile gr nx ny); Done (bool_decide (state t = Wall)));
      if blocked : bool then isTrapped_every dirs' p gr else Done false
  end.

Definition isTrapped (p : Pos) (gr : Grid) : Res bool :=
  isTrapped_every directions p gr.

(** One turn of the [for (const dir of directions)] loop of [pathExists]. *)
Definition visitNeighbour (gr : Grid) (current : Pos)
  (st : list (list bool) * list Pos) (dir : Direction)
  : Res (list (list bool) * list Pos) :=
  let '(visited, queue) := st in
  let nx := pos_x current + dir_x dir in
  let ny := pos_y current + dir_y dir in
  if outOfGrid nx ny then Done st
  else
    seen ← deref (getTile visited nx ny);
    if seen : bool then Done st
    else
      t ← deref (getTile gr nx ny);
      if bool_decide (state t = Wall) then Done st
      else Done (updTile (fun _ => true) nx ny visited,
                 queue ++ [{| pos_x := nx; pos_y := ny |}]).

Fixpoint visitNeighbours (gr : Grid) (current : Pos) (dirs : list Direction)
  (st : list (list bool) * list Pos) : Res (list (list bool) * list Pos) :=
  match dirs with
  | [] => Done st
  | dir :: dirs' =>
      st ← visitNeighbour gr current st dir;
      visitNeighbours gr current dirs' st
  end.

(** The [while (queue.length > 0)] loop; [fuel] bounds its iterations. *)
Fixpoint pathExists_loop (fuel : nat) (gr : Grid) (goal : Pos)
  (visited : list (list bool)) (queue : list Pos) : Res bool :=
  match fuel with
  | O => Throw OutOfFuel
  | S fuel' =>
      match queue with
      | [] => Done false
      | current :: queue' =>
          if (pos_x current =? pos_x goal) && (pos_y current =? pos_y goal) then Done true
          else
            '(visited', queue'') ← visitNeighbours gr current directions (visited, queue');
            pathExists_loop fuel' gr goal visited' queue''
      end
  end.

(** [pathExists(start, goal, grid)].  Every cell enters the queue at most
    once, so [gridSize * gridSize + 1] iterations are never used up (see
    [pathExists_loop_fuel]).  The write [visited[start.y][start.x] = true]
    throws if [visited] has no row [start.y]; with a column outside the row
    it only adds a property that the search never reads. *)
Definition pathExists (start goal : Pos) (gr : Grid) : Res bool :=
  let visited := replicate (Z.to_nat gridSize) (replicate (Z.to_nat gridSize) false) in
  _ ← deref (getRow visited (pos_y start));
  let visited := updTile (fun _ => true) (pos_x start) (pos_y start) visited in
  pathExists_loop (Z.to_nat (gridSize * gridSize + 1)) gr goal visited [start].

(** [checkFailure()] *)
Definition checkFailure (w : World) : Res World :=
  match game w with
  | None => Done w
  | Some g =>
      reachable ← pathExists (player g) (exit g) (grid g);
      if negb reachable then flashMessage "The maze has sealed. No route remains." w
      else
        trapped ← isTrapped (player g) (grid g);
        if trapped : bool then flashMessage "You are sealed inside your own pattern." w
        else Done w
  end.

(** ** The move processor *)

Definition enter (name : option string) (t : Tile) : Tile :=
  set_visits (visits t + 1) (set_lastEntry name t).

(** [attemptMove(dx, dy)].  [currentTile] and [destination] are references
    into the grid; each read below goes back to the grid, so that the two
    may be the same object (when [dx = dy = 0]). *)
Definition attemptMove (dx dy : Z) (w : World) : Res World :=
  match game w with
  | None => Done w
  | Some g =>
      let nx := pos_x (player g) + dx in
      let ny := pos_y (player g) + dy in
      if outOfGrid nx ny then Done w
      else
        destination ← deref (getTile (grid g) nx ny);
        if bool_decide (state destination = Wall) then
          flashMessage "Crystallized path blocks the way." w
        else
          let direction :=
            find (fun dir => (dir_x dir =? dx) && (dir_y dir =? dy)) directions in
          let cx := pos_x (player g) in
          let cy := pos_y (player g) in
          currentTile ← deref (getTile (grid g) cx cy);
          let g := set_grid
                     (updTile (fun t => set_leaveCount (leaveCount t + 1) t) cx cy (grid g)) g in
          w ← applyTileRule cx cy (set_game g w);
          g ← theGame w;
          let g := set_grid (updTile (enter (dir_name <$> direction)) nx ny (grid g)) g in
          let g := set_player {| pos_x := nx; pos_y := ny |} g in
          let g := set_recentDirections
                     (push_capped 12 (recentDirections g)
                        (default "none" (dir_name <$> direction))) g in
          let g := set_recentArchetypes
                     (push_capped 20 (recentArchetypes g) (archetype destination)) g in
          let g := set_recentPositions
                     (push_capped 14 (recentPositions g) {| pos_x := nx; pos_y := ny |}) g in
          let g := set_moveCount (moveCount g + 1) g in
          let g := set_message "Learning..." g in
          destination ← deref (getTile (grid g) nx ny);
          if bool_decide (state destination = Exit) then
            w ← flashMessage "Exit reached. The maze remembers your path." (set_game g w);
            draw w
          else
            let g := if bool_decide (state destination = Neutral)
                     then set_grid (updTile (set_state Safe) nx ny (grid g)) g
                     else g in
            w ← checkFailure (set_game g w);
            draw w
  end.

(** [handleKey(event)], for the lower-cased key. *)
Definition handleKey (key : string) (w : World) : Res World :=
  w ← (if bool_decide (key = "arrowup") || bool_decide (key = "w")
       then attemptMove 0 (-1) w else Done w);
  w ← (if bool_decide (key = "arrowdown") || bool_decide (key = "s")
       then attemptMove 0 1 w else Done w);
  w ← (if bool_decide (key = "arrowleft") || bool_decide (key = "a")
       then attemptMove (-1) 0 w else Done w);
  if bool_decide (key = "arrowright") || bool_decide (key = "d")
  then attemptMove 1 0 w else Done w.

(** ** The page: listeners and start-up *)

(** The listener of the reveal button: [() => { reveal(); draw(); }]. *)
Definition onRevealClick (w : World) : Res World :=
  w ← reveal w; draw w.

(** What the page reacts to once it is loaded: a key press (with its
    lower-cased [event.key]), a click on the new-game button (with the seed
    that [Math.random()] draws), a click on the reveal button, and the
    interval timer. *)
Inductive Event :=
| KeyDown (key : string)
| NewGameClick (seed : float)
| RevealClick
| TimerTick.

(** The listener registered for each event. *)
Definition dispatch (e : Event) (w : World) : Res World :=
  match e with
  | KeyDown key => handleKey key w
  | NewGameClick seed => reset seed w
  | RevealClick => onRevealClick w
  | TimerTick => draw w
  end.

(** The events in the order they arrive; an exception ends the run. *)
Fixpoint dispatchAll (events : list Event) (w : World) : Res World :=
  match events with
  | [] => Done w
  | e :: events' => w' ← dispatch e w; dispatchAll events' w'
  end.

(** The script from load on: [reset()] on the page as it was loaded, with
    the seed [Math.random()] draws, then the events. *)
Definition page (seed : float) (events : list Event) (w0 : World) : Res World :=
  w ← reset seed w0; dispatchAll events w.

(** ** Colours

    The helpers of [drawBoard], and the colour [drawBoard] fills a tile
    with.  A string stands for the JavaScript string with the same code
    units, all of them below 256. *)

Record Rgb := { rgb_r : Z; rgb_g : Z; rgb_b : Z }.

(** The code unit of a character. *)
Definition codeUnit (c : Ascii.ascii) : Z := Z.of_N (Ascii.N_of_ascii c).

(** Whether the character is the one of the one-character string [s]. *)
Definition isChar (s : string) (c : Ascii.ascii) : bool :=
  bool_decide (String c EmptyString = s).

(** [hex.replace("#", "")]: the first ["#"], if there is one, is removed. *)
Fixpoint removeHash (s : string) : string :=
  match s with
  | EmptyString => EmptyString
  | String c s' => if isChar "#" c then s' else String c (removeHash s')
  end.

(** White space and line terminators among the code units below 256: tab,
    line feed, vertical tab, form feed, carriage return, space and
    no-break space. *)
Definition isWhiteSpace (c : Ascii.ascii) : bool :=
  let n := codeUnit c in
  (n =? 9) || (n =? 10) || (n =? 11) || (n =? 12) || (n =? 13) || (n =? 32) || (n =? 160).

Fixpoint trimStart (s : string) : string :=
  match s with
  | EmptyString => EmptyString
  | String c s' => if isWhiteSpace c then trimStart s' else s
  end.

(** The value of a digit of radix 16. *)
Definition hexDigit (c : Ascii.ascii) : option Z :=
  let n := codeUnit c in
  if (48 <=? n) && (n <=? 57) then Some (n - 48)
  else if (97 <=? n) && (n <=? 102) then Some (n - 87)
  else if (65 <=? n) && (n <=? 70) then Some (n - 55)
  else None.

(** The value of the longest prefix of digits, from the value [acc] of the
    digits already read ([None] if none has been read). *)
Fixpoint hexDigits (s : string) (acc : option Z) : option Z :=
  match s with
  | EmptyString => acc
  | String c s' =>
      match hexDigit c with
      | Some d => hexDigits s' (Some (16 * default 0 acc + d))
      | None => acc
      end
  end.

(** [parseInt(s, 16)] as a mathematical integer; [None] is NaN. *)
Definition parseInt16 (s : string) : option Z :=
  let s := trimStart s in
  let '(sign, s) :=
    match s with
    | String c s' =>
        if isChar "-" c then (-1, s')
        else if isChar "+" c then (1, s')
        else (1, s)
    | EmptyString => (1, s)
    end in
  let s :=
    match s with
    | String c0 (String c1 s') =>
        if isChar "0" c0 && (isChar "x" c1 || isChar "X" c1) then s' else s
    | _ => s
    end in
  z ← hexDigits s None; Some (sign * z).

(** The double nearest to an integer, ties to even, as the integer it is;
    [None] is an infinity. *)
Definition nearestDouble (n : Z) : option Z :=
  let a := Z.abs n in
  if a <? 2 ^ 53 then Some n
  else
    let k := Z.log2 a - 52 in
    let q := Z.shiftr a k in
    let r := a - Z.shiftl q k in
    let half := Z.shiftl 1 (k - 1) in
    let q := if (half <? r) || ((r =? half) && Z.odd q) then q + 1 else q in
    let v := Z.shiftl q k in
    if 2 ^ 1024 <=? v then None else Some (Z.sgn n * v).

(** ToInt32 of a number given as an integer; NaN and the infinities
    ([None]) give 0. *)
Definition toInt32 (v : option Z) : Z :=
  match v with
  | Some v => (v + 2 ^ 31) mod 2 ^ 32 - 2 ^ 31
  | None => 0
  end.

(** [hexToRgb(hex)] *)
Definition hexToRgb (hex : string) : Rgb :=
  let normalized := removeHash hex in
  let bigint := toInt32 (parseInt16 normalized ≫= nearestDouble) in
  {| rgb_r := Z.land (Z.shiftr bigint 16) 255;
     rgb_g := Z.land (Z.shiftr bigint 8) 255;
     rgb_b := Z.land bigint 255 |}.

(** [archetypeColor(type)] *)
Definition archetypeColor (type : string) : string :=
  if bool_decide (type = "third-exit") then "#365b9d"
  else if bool_decide (type = "north-entry") then "#5f3a88"
  else if bool_decide (type = "sequence") then "#5a7d3b"
  else if bool_decide (type = "frequency") then "#7c4a2a"
  else if bool_decide (type = "backtrack") then "#4e7b7a"
  else "#2b3446".

(** [Math.round]: the nearest integer, ties toward +infinity.  A double
    with a non-negative exponent is an integer already.  (A result -0 is
    given as 0; both print as ["0"].) *)
Definition math_round (f : float) : float :=
  match FloatOps.Prim2SF f with
  | S754_finite s m e =>
      if 0 <=? e then f
      else
        let n := if s then Zneg m else Zpos m in
        ofInteger (Z.shiftr (2 * n + Z.shiftl 1 (- e)) (- e + 1))
  | _ => f
  end.

(** The string of a number in a template literal, for the values
    [Math.round] returns that are below 10^21 in size. *)
Definition numberToString (f : float) : string :=
  match FloatOps.Prim2SF f with
  | S754_nan => "NaN"
  | S754_infinity s => if s then "-Infinity" else "Infinity"
  | S754_zero _ => "0"
  | S754_finite _ _ _ => pretty (toInteger f)
  end.

(** [mix(channel)] of [tint], for the channel values [b] of the base colour
    and [o] of the overlay. *)
Definition mix (alpha : float) (b o : Z) : float :=
  math_round
    (PrimFloat.add (PrimFloat.mul (ofInteger b) (PrimFloat.sub 1 alpha))
                   (PrimFloat.mul (ofInteger o) alpha)).

(** [tint(baseColor, overlay, alpha)] *)
Definition tint (baseColor overlay : string) (alpha : float) : string :=
  let base := hexToRgb baseColor in
  let over := hexToRgb overlay in
  "rgb(" +:+ numberToString (mix alpha (rgb_r base) (rgb_r over)) +:+ ", "
  +:+ numberToString (mix alpha (rgb_g base) (rgb_g over)) +:+ ", "
  +:+ numberToString (mix alpha (rgb_b base) (rgb_b over)) +:+ ")".

(** The strings of the archetype names and of the tile states. *)
Definition archetypeString (n : ArchetypeName) : string :=
  match n with
  | ThirdExit => "third-exit"
  | NorthEntry => "north-entry"
  | Sequence => "sequence"
  | Frequency => "frequency"
  | Backtrack => "backtrack"
  end.

(** The [fill] that [drawBoard(state)] paints the tile [state.grid[y][x]]
    with.  The literals are the doubles nearest to 0.8 and 0.4. *)
Definition tileFill (st : Game) (x y : Z) (tile : Tile) : string :=
  let isEdge := (x =? 0) || (y =? 0) || (x =? gridSize - 1) || (y =? gridSize - 1) in
  let base := if isEdge then "#1c2234" else "#121827" in
  let fill :=
    if bool_decide (state tile = Wall) then "#283146"
    else if bool_decide (state tile = Safe) then "#151e2f"
    else base in
  if PrimFloat.ltb 0 (tile_reveal tile) || (0 <? revealTimer st) then
    let intensity := if PrimFloat.ltb 0 (tile_reveal tile)
                     then 0x1.999999999999ap-1%float else 0x1.999999999999ap-2%float in
    tint fill (archetypeColor (archetypeString (archetype tile))) intensity
  else fill.

(* ================================================================== *)
(** * The vocabulary of the properties

    Observers, invariants and drivers that the statements below are
    written with.  None of them is part of the script. *)

(** 1 for [true], 0 for [false]. *)
Definition b2n (b : bool) : nat := if b then 1%nat else 0%nat.

(** How many elements of a row, and of a grid, satisfy [p]. *)
Definition countRow {A} (p : A -> bool) (row : list A) : nat :=
  length (filter (fun a => p a) row).

(** The same count over all rows of a two-dimensional array. *)
Definition count2 {A} (p : A -> bool) (gr : list (list A)) : nat :=
  sum_list (countRow p <$> gr).

(** [tile.state === "wall"]. *)
Definition isWall (t : Tile) : bool := bool_decide (state t = Wall).

(** The number of tiles of the grid whose state is [Wall]. *)
Definition wallCount (gr : Grid) : Z := Z.of_nat (count2 isWall gr).

(** The position lies inside the grid. *)
Definition inGrid (p : Pos) : bool := negb (outOfGrid (pos_x p) (pos_y p)).

(** The tiles of [row] carry the coordinates [(x, y)], [(x + 1, y)], ... *)
Fixpoint row_ok (x y : Z) (row : list Tile) : bool :=
  match row with
  | [] => true
  | t :: row' => (tile_x t =? x) && (tile_y t =? y) && row_ok (x + 1) y row'
  end.

(** Every row has [gridSize] tiles with the right coordinates, from row [y] on. *)
Fixpoint rows_ok (y : Z) (gr : Grid) : bool :=
  match gr with
  | [] => true
  | row :: gr' =>
      (Z.of_nat (length row) =? gridSize) && row_ok 0 y row && rows_ok (y + 1) gr'
  end.

(** The grid has [gridSize] rows of [gridSize] tiles and the tile stored at
    [grid[y][x]] carries the coordinates [(x, y)]. *)
Definition grid_ok (gr : Grid) : bool :=
  (Z.of_nat (length gr) =? gridSize) && rows_ok 0 gr.

(** What every function of the script takes for granted about a session. *)
Definition session_ok (g : Game) : bool :=
  grid_ok (grid g) && inGrid (player g).

(** The tile at the exit coordinate is the exit. *)
Definition exit_ok (g : Game) : bool :=
  match getTile (grid g) (pos_x (exit g)) (pos_y (exit g)) with
  | Some t => bool_decide (state t = Exit)
  | None => false
  end.

(** The counter shown to the player agrees with the grid. *)
Definition counter_ok (g : Game) : bool := crystallized g =? wallCount (grid g).

(** The same facts, in the form the proofs use. *)
Definition GridOk (gr : Grid) : Prop :=
  forall x y, 0 <= x < gridSize -> 0 <= y < gridSize ->
    exists t, getTile gr x y = Some t /\ tile_x t = x /\ tile_y t = y.

(** [inGrid], as a proposition. *)
Definition InGrid (p : Pos) : Prop :=
  0 <= pos_x p < gridSize /\ 0 <= pos_y p < gridSize.

(** Every tile is neutral, as in the grid the loops of [createGame] build. *)
Definition AllNeutral (gr : Grid) : Prop :=
  Forall (Forall (fun t => state t = Neutral)) gr.

(** The state a tile has in a freshly generated grid. *)
Definition initialState (x y : Z) : TileState :=
  if decide ((1, 1) = (x, y)) then Safe
  else if decide ((gridSize - 2, gridSize - 2) = (x, y)) then Exit
  else Neutral.

(** Runs the binds of [Res] whose first computation is already a result. *)
Ltac res_step := unfold mbind, Res_bind, deref; cbn beta iota.

(** Whether [applyTileRule] hardens tile [t] in session [g]. *)
Definition ruleFires (t : Tile) (g : Game) : bool :=
  negb (bool_decide (state t = Wall) || bool_decide (state t = Exit))
  && trigger (archetype t) t g.

(** The session after [applyTileRule] has hardened the tile at [(x, y)]
    (the message apart). *)
Definition crystallizeAt (x y : Z) (g : Game) : Game :=
  set_crystallized (crystallized g + 1)
    (set_grid (updTile crystallize x y (grid g)) g).

(** The world after [flashMessage(m)] in a world whose session is [g]. *)
Definition flashed (m : string) (g : Game) (w : World) : World :=
  {| game := Some (set_message m g); movesEl := movesEl w;
     crystallizedEl := crystallizedEl w; statusEl := m |}.

(** The [visited] array of [pathExists] has an entry for every cell. *)
Definition VisitedOk (visited : list (list bool)) : Prop :=
  forall x y, 0 <= x < gridSize -> 0 <= y < gridSize -> is_Some (getTile visited x y).

(** Cells not yet seen plus cells waiting in the queue. *)
Definition bfsMeasure (visited : list (list bool)) (queue : list Pos) : nat :=
  (count2 negb visited + length queue)%nat.

(** The message [checkFailure] leaves, if it leaves one. *)
Definition failureMessage (reachable trapped : bool) : option string :=
  if negb reachable then Some "The maze has sealed. No route remains."
  else if trapped then Some "You are sealed inside your own pattern."
  else None.

(** The session after [draw()]: the reveal timer and the reveal values
    decay, nothing else changes. *)
Definition tick (g : Game) : Game :=
  let g := if 0 <? revealTimer g then set_revealTimer (revealTimer g - 1) g else g in
  set_grid (fmap (M := list) decayTile <$> grid g) g.

(** The world after [draw()] in a world whose session is [g]. *)
Definition drawn (g : Game) : World :=
  {| game := Some (tick g); movesEl := moveCount (tick g);
     crystallizedEl := crystallized (tick g); statusEl := message (tick g) |}.

(** [direction?.name], for the entry of [directions] with offsets [(dx, dy)]. *)
Definition dirNameOf (dx dy : Z) : option string :=
  dir_name <$> find (fun dir => (dir_x dir =? dx) && (dir_y dir =? dy)) directions.

(** [tile.leaveCount += 1]. *)
Definition bump (t : Tile) : Tile := set_leaveCount (leaveCount t + 1) t.

(** The session once the tile under the player has been left: its
    [leaveCount] is raised and its rule has been applied. *)
Definition leaveTile (g : Game) : Game :=
  let cx := pos_x (player g) in
  let cy := pos_y (player g) in
  let g1 := set_grid (updTile bump cx cy (grid g)) g in
  match getTile (grid g1) cx cy with
  | Some t => if ruleFires t g1 then crystallizeAt cx cy g1 else g1
  | None => g1
  end.

(** The session once the player stands on the destination, whose archetype
    is [darch]: entry recorded, histories pushed, counter raised. *)
Definition arrive (dx dy : Z) (darch : ArchetypeName) (g : Game) : Game :=
  let nx := pos_x (player g) + dx in
  let ny := pos_y (player g) + dy in
  set_message "Learning..."
    (set_moveCount (moveCount g + 1)
       (set_recentPositions
          (push_capped 14 (recentPositions g) {| pos_x := nx; pos_y := ny |})
          (set_recentArchetypes (push_capped 20 (recentArchetypes g) darch)
             (set_recentDirections
                (push_capped 12 (recentDirections g) (default "none" (dirNameOf dx dy)))
                (set_player {| pos_x := nx; pos_y := ny |}
                   (set_grid (updTile (enter (dirNameOf dx dy)) nx ny (grid g)) g)))))).

(** A neutral tile under the player becomes safe. *)
Definition promote (g : Game) : Game :=
  match getTile (grid g) (pos_x (player g)) (pos_y (player g)) with
  | Some d =>
      if bool_decide (state d = Neutral)
      then set_grid (updTile (set_state Safe) (pos_x (player g)) (pos_y (player g)) (grid g)) g
      else g
  | None => g
  end.

(** The session once the player has left its tile and stands on the
    destination. *)
Definition moved (dx dy : Z) (darch : ArchetypeName) (g : Game) : Game :=
  arrive dx dy darch (leaveTile g).

(** The session with the message [checkFailure] leaves, if any. *)
Definition withMessage (m : option string) (g : Game) : Game :=
  match m with
  | Some m => set_message m g
  | None => g
  end.

(** How an accepted move ends, for the session [g1] in which the player
    already stands on the destination [d']: a win, or a liveness check. *)
Definition finishes (g1 : Game) (d' : Tile) (r : Res World) : Prop :=
  if bool_decide (state d' = Exit)
  then r = Done (drawn (set_message "Exit reached. The maze remembers your path." g1))
  else exists reachable trapped,
    pathExists (player g1) (exit g1) (grid (promote g1)) = Done reachable
    /\ isTrapped (player g1) (grid (promote g1)) = Done trapped
    /\ r = Done (drawn (withMessage (failureMessage reachable trapped) (promote g1))).

(** The state of the tile at [(x, y)], if there is one. *)
Definition stateAt (g : Game) (x y : Z) : option TileState :=
  state <$> getTile (grid g) x y.

(** States that no rule leaves. *)
Definition frozen (s : TileState) : Prop := s = Wall \/ s = Exit.

(** Whether [attemptMove(dx, dy)] gets past its guards in session [g]. *)
Definition moveAccepted (dx dy : Z) (g : Game) : bool :=
  let nx := pos_x (player g) + dx in
  let ny := pos_y (player g) + dy in
  negb (outOfGrid nx ny)
  && match getTile (grid g) nx ny with
     | Some d => negb (isWall d)
     | None => false
     end.

(** The session after an accepted move onto a tile of archetype [darch]
    that ends with message [m]. *)
Definition stepGame (dx dy : Z) (darch : ArchetypeName) (m : string) (g : Game) : Game :=
  tick (set_message m (promote (moved dx dy darch g))).

(** The world right after [draw()] shows session [g]. *)
Definition shown (g : Game) : World :=
  {| game := Some g; movesEl := moveCount g;
     crystallizedEl := crystallized g; statusEl := message g |}.

(** A series of calls [attemptMove(dx, dy)], in order. *)
Fixpoint attemptMoves (ms : list (Z * Z)) (w : World) : Res World :=
  match ms with
  | [] => Done w
  | (dx, dy) :: ms' => w' ← attemptMove dx dy w; attemptMoves ms' w'
  end.

(** Closes a goal about concrete sessions by running the definitions. *)
Ltac by_compute := vm_compute; first [reflexivity | discriminate | exact I].

(** Concrete sessions: the one [reset] creates from a seed, played on. *)
Definition emptyWorld : World :=
  {| game := None; movesEl := 0; crystallizedEl := 0; statusEl := "" |}.

(** [reset()] with the given seed on a fresh page, then the moves. *)
Definition play (seed : float) (ms : list (Z * Z)) : Res World :=
  w ← reset seed emptyWorld; attemptMoves ms w.

(** The world a computation returns ([emptyWorld] if it throws). *)
Definition theWorld (r : Res World) : World :=
  match r with
  | Done w => w
  | Throw _ => emptyWorld
  end.

(** A placeholder for [theSession] and [fresh]; no theorem is about it. *)
Definition noSession : Game :=
  {| rng := 0%float; grid := []; player := {| pos_x := 0; pos_y := 0 |};
     exit := {| pos_x := 0; pos_y := 0 |}; moveCount := 0; crystallized := 0;
     recentDirections := []; recentArchetypes := []; recentPositions := [];
     thresholds := {| thirdExit := 0; frequencyWindow := 0; frequencyCount := 0;
                      backtrackWindow := 0 |};
     archetypePool := []; message := ""; revealTimer := 0 |}.

(** The session of a world that has one. *)
Definition theSession (w : World) : Game :=
  match game w with
  | Some g => g
  | None => noSession
  end.

(** The session [createGame] returns for a seed. *)
Definition fresh (seed : float) : Game :=
  match createGame seed with
  | Done g => g
  | Throw _ => noSession
  end.

(** The four moves [handleKey] makes: one row up, *)
Definition north : Z * Z := (0, -1).

(** one column to the right, *)
Definition east : Z * Z := (1, 0).

(** one row down, *)
Definition south : Z * Z := (0, 1).

(** one column to the left. *)
Definition west : Z * Z := (-1, 0).

(** From the start along row 1 and down column 16 onto the exit. *)
Definition walkToExit : list (Z * Z) :=
  replicate 15 east ++ replicate 15 south.

(** Positions are compared field by field. *)
#[global] Instance Pos_eq_dec : EqDecision Pos.
Proof. solve_decision. Defined.

(** The player's position is the newest entry of [recentPositions]. *)
Definition Newest (g : Game) : Prop :=
  exists l, recentPositions g = l ++ [player g].

(** What the page can do to the world: create a session (the assignment in
    [reset]), [reset] as a whole, a move, the reveal button, a redraw. *)
Inductive Op :=
| OpCreate (seed : float)
| OpReset (seed : float)
| OpMove (dx dy : Z)
| OpReveal
| OpDraw.

(** One operation. *)
Definition runOp (op : Op) (w : World) : Res World :=
  match op with
  | OpCreate seed => g ← createGame seed; Done (set_game g w)
  | OpReset seed => reset seed w
  | OpMove dx dy => attemptMove dx dy w
  | OpReveal => reveal w
  | OpDraw => draw w
  end.

(** A series of operations, in order. *)
Fixpoint runOps (ops : list Op) (w : World) : Res World :=
  match ops with
  | [] => Done w
  | op :: ops' => w' ← runOp op w; runOps ops' w'
  end.

(** What holds of every session the page can reach: it is well formed,
    its exit tile is the exit, and its counter agrees with its grid. *)
Definition Sound (g : Game) : Prop :=
  session_ok g = true /\ exit_ok g = true /\ counter_ok g = true.

(** Whether an operation is a move. *)
Definition isMove (op : Op) : bool :=
  match op with
  | OpMove _ _ => true
  | _ => false
  end.

(** A session on which no move has been made yet: the player is on the
    start tile, the tiles have their initial states, nothing is recorded. *)
Definition Untouched (g : Game) : Prop :=
  grid_ok (grid g) = true
  /\ player g = {| pos_x := 1; pos_y := 1 |}
  /\ (forall x y t, getTile (grid g) x y = Some t -> state t = initialState x y)
  /\ moveCount g = 0
  /\ recentDirections g = [].

(** The move a key stands for, if any, read off the four tests of
    [handleKey] in their order. *)
Definition keyMove (key : string) : option (Z * Z) :=
  if bool_decide (key = "arrowup") || bool_decide (key = "w") then Some north
  else if bool_decide (key = "arrowdown") || bool_decide (key = "s") then Some south
  else if bool_decide (key = "arrowleft") || bool_decide (key = "a") then Some west
  else if bool_decide (key = "arrowright") || bool_decide (key = "d") then Some east
  else None.

(** The four moves the keyboard can make. *)
Definition unitMove (dx dy : Z) : Prop := (dx, dy) ∈ [north; east; south; west].

(** The cell next to [p] in direction [dir]. *)
Definition neighbour (p : Pos) (dir : Direction) : Pos :=
  {| pos_x := pos_x p + dir_x dir; pos_y := pos_y p + dir_y dir |}.

(** A cell of the grid whose tile is not a wall. *)
Definition Passable (gr : Grid) (p : Pos) : Prop :=
  InGrid p /\ exists t, getTile gr (pos_x p) (pos_y p) = Some t /\ state t <> Wall.

(** A walk from cell to neighbouring cell over passable cells.  The cell
    it starts from may be anything; every cell it steps onto is passable. *)
Inductive Route (gr : Grid) : Pos -> Pos -> Prop :=
| Route_here p : Route gr p p
| Route_step p dir r :
    dir ∈ directions -> Passable gr (neighbour p dir) ->
    Route gr (neighbour p dir) r -> Route gr p r.

(** The cell is marked in the [visited] array of [pathExists]. *)
Definition Seen (visited : list (list bool)) (p : Pos) : Prop :=
  getTile visited (pos_x p) (pos_y p) = Some true.

(** What the loop of [pathExists] keeps true of [visited] and [queue]:
    queued cells are marked; marked cells can be reached from [start]; and
    a marked cell that is no longer queued is not the goal and has all its
    passable neighbours marked. *)
Definition BfsInv (gr : Grid) (start goal : Pos)
  (visited : list (list bool)) (queue : list Pos) : Prop :=
  VisitedOk visited
  /\ Seen visited start
  /\ (forall p, p ∈ queue -> Seen visited p)
  /\ (forall p, Seen visited p -> Route gr start p)
  /\ (forall p, Seen visited p ->
        p ∈ queue
        \/ (p <> goal
            /\ forall dir, dir ∈ directions -> Passable gr (neighbour p dir) ->
                 Seen visited (neighbour p dir))).

(** A tile as the loops of [createGame] push it, with an archetype drawn
    from [pool]. *)
Definition FreshTile (pool : list Archetype) (t : Tile) : Prop :=
  exists a, a ∈ pool /\ t = newTile (tile_x t) (tile_y t) (arch_name a).

(** The state of the generator after [n] calls of [rng()]. *)
Definition draws (n : nat) (a : float) : float :=
  Nat.iter n (fun a => (mulberry32 a).2) a.

(** What leaving does to the tile that is left: its [leaveCount] goes up,
    and it hardens if its rule fires. *)
Definition leaveT (fires : bool) (t : Tile) : Tile :=
  if fires then crystallize (bump t) else bump t.

(** What arriving does to the destination: the entry is recorded, and a
    neutral tile becomes safe. *)
Definition promoteT (t : Tile) : Tile :=
  if bool_decide (state t = Neutral) then set_state Safe t else t.

(** Whether the rule of the tile under the player fires when the player
    leaves it. *)
Definition firesOn (g : Game) : bool :=
  match getTile (grid g) (pos_x (player g)) (pos_y (player g)) with
  | Some c =>
      ruleFires (bump c)
        (set_grid (updTile bump (pos_x (player g)) (pos_y (player g)) (grid g)) g)
  | None => false
  end.

(** What an accepted move [(dx, dy)] does to the tile stored at [(x, y)]. *)
Definition moveTile (dx dy : Z) (g : Game) (x y : Z) (t : Tile) : Tile :=
  let t := if decide ((pos_x (player g), pos_y (player g)) = (x, y))
           then leaveT (firesOn g) t else t in
  if decide ((pos_x (player g) + dx, pos_y (player g) + dy) = (x, y))
  then promoteT (enter (dirNameOf dx dy) t) else t.

(** The sum of a list of integers. *)
Definition sumZ (l : list Z) : Z := foldr Z.add 0 l.

(** The sum of [f] over all tiles of the grid. *)
Definition total (f : Tile -> Z) (gr : Grid) : Z :=
  sumZ ((fun row => sumZ (f <$> row)) <$> gr).

(** The counters of the tiles add up to the counter of the session, and
    no more tiles have hardened than moves were made. *)
Definition Accounts (g : Game) : Prop :=
  total visits (grid g) = moveCount g
  /\ total leaveCount (grid g) = moveCount g
  /\ crystallized g <= moveCount g.

(** Each history buffer holds the last entries, up to its cap. *)
Definition Buffers (g : Game) : Prop :=
  0 <= moveCount g
  /\ Z.of_nat (length (recentDirections g)) = Z.min (moveCount g) 12
  /\ Z.of_nat (length (recentArchetypes g)) = Z.min (moveCount g) 20
  /\ Z.of_nat (length (recentPositions g)) = Z.min (moveCount g) 14.

(** What the state of a tile tells about its past: a neutral tile is as
    [createGame] made it, a wall has been left, a tile that is safe or a
    wall has been entered unless it is the start, and only the tile at the
    exit place is an exit. *)
Definition TileTells (x y : Z) (t : Tile) : Prop :=
  0 <= leaveCount t /\ 0 <= visits t
  /\ (state t = Neutral -> t = newTile x y (archetype t))
  /\ (state t = Wall -> 1 <= leaveCount t)
  /\ (state t = Safe \/ state t = Wall -> (x, y) = (1, 1) \/ 1 <= visits t)
  /\ (state t = Exit -> (x, y) = (gridSize - 2, gridSize - 2)).

(** The same, for every tile of the session. *)
Definition TilesTell (g : Game) : Prop :=
  forall x y t, getTile (grid g) x y = Some t -> TileTells x y t.

(** The player stands on a safe tile or on the exit. *)
Definition Standing (g : Game) : Prop :=
  exists t, getTile (grid g) (pos_x (player g)) (pos_y (player g)) = Some t
            /\ (state t = Safe \/ state t = Exit).

(** The thresholds are in the ranges [createGame] draws them from, and a
    third-exit tile that can still harden has been left fewer than
    [thirdExit] times. *)
Definition Tuned (g : Game) : Prop :=
  (3 <= thirdExit (thresholds g) <= 4
   /\ 6 <= frequencyWindow (thresholds g) <= 9
   /\ 3 <= frequencyCount (thresholds g) <= 4
   /\ 4 <= backtrackWindow (thresholds g) <= 6)
  /\ forall x y t, getTile (grid g) x y = Some t ->
       archetype t = ThirdExit -> state t <> Wall -> state t <> Exit ->
       leaveCount t < thirdExit (thresholds g).

(** Once a move has been made, the newest recent position is the player's. *)
Definition Tracked (g : Game) : Prop := moveCount g = 0 \/ Newest g.

(** The pool is the archetype table without one entry, and every tile has
    an archetype of the pool. *)
Definition Pooled (g : Game) : Prop :=
  (exists out, archetypePool g ++ [out] ≡ₚ archetypes)
  /\ forall x y t, getTile (grid g) x y = Some t ->
       exists a, a ∈ archetypePool g /\ archetype t = arch_name a.

(** The reveal countdown after a redraw. *)
Definition Timed (g : Game) : Prop := 0 <= revealTimer g <= 59.

(** The tile under the player remembers the direction of the last move,
    which is the newest recent direction; before the first move it has
    never been entered. *)
Definition Entered (g : Game) : Prop :=
  exists t, getTile (grid g) (pos_x (player g)) (pos_y (player g)) = Some t
    /\ lastEntry t = last (recentDirections g)
    /\ (moveCount g = 0 -> recentDirections g = []).

(** What holds of the session after every event of the page. *)
Definition Steady (g : Game) : Prop :=
  Accounts g /\ Buffers g /\ TilesTell g /\ Standing g /\ Tuned g /\ Tracked g
  /\ Pooled g /\ Entered g.

(** The session after [n] redraws. *)
Definition ticks (n : nat) (g : Game) : Game := Nat.iter n tick g.

(** The six-character string of six digits. *)
Definition six (c1 c2 c3 c4 c5 c6 : Ascii.ascii) : string :=
  String c1 (String c2 (String c3 (String c4 (String c5 (String c6 EmptyString))))).

(** Whether [mix] gives a finite number whose integer part lies between
    the two channel values. *)
Definition mixBetween (alpha : float) (b o : Z) : bool :=
  let m := toInteger (mix alpha b o) in
  (Z.min b o <=? m) && (m <=? Z.max b o)
  && match FloatOps.Prim2SF (mix alpha b o) with
     | S754_finite _ _ _ | S754_zero _ => true
     | _ => false
     end.

(** The two intensities [drawBoard] tints with: 0.8 and 0.4. *)
Definition strong : float := 0x1.999999999999ap-1.

(** 0.4, for tiles shown by the reveal button only. *)
Definition faint : float := 0x1.999999999999ap-2.

(** [isEdge] of [drawBoard]. *)
Definition onEdge (x y : Z) : bool :=
  (x =? 0) || (y =? 0) || (x =? gridSize - 1) || (y =? gridSize - 1).

(** Whether [drawBoard] tints the tile. *)
Definition tinted (st : Game) (tile : Tile) : bool :=
  PrimFloat.ltb 0 (tile_reveal tile) || (0 <? revealTimer st).


(* ================================================================== *)
(** * Properties *)

(** ** Two-dimensional arrays *)

Section Grid2D.

Context {A : Type}.

Implicit Types (gr : list (list A)) (row : list A) (f : A -> A) (p : A -> bool) (x y : Z).

Lemma getTile_getRow gr x y t :
  getTile gr x y = Some t -> exists row, getRow gr y = Some row.
Proof.
  unfold getTile, getRow. destruct (0 <=? x), (0 <=? y); simpl; try discriminate.
  destruct (gr !! Z.to_nat y) as [row|]; [by eauto|discriminate].
Qed.

Lemma getTile_Some_nonneg gr x y t :
  getTile gr x y = Some t -> 0 <= x /\ 0 <= y.
Proof.
  unfold getTile. destruct (0 <=? x) eqn:Hx, (0 <=? y) eqn:Hy; simpl; try discriminate.
  intros _. lia.
Qed.

Lemma getTile_updTile_eq gr f x y :
  getTile (updTile f x y gr) x y = f <$> getTile gr x y.
Proof.
  unfold getTile, updTile.
  destruct ((0 <=? x) && (0 <=? y)); [|done].
  rewrite list_lookup_alter_eq.
  destruct (gr !! Z.to_nat y) as [row|]; simpl; [|done].
  apply list_lookup_alter_eq.
Qed.

Lemma getTile_updTile_ne gr f x y x' y' :
  (x, y) <> (x', y') ->
  getTile (updTile f x y gr) x' y' = getTile gr x' y'.
Proof.
  intros Hne. unfold getTile, updTile.
  destruct (0 <=? x') eqn:Hx', (0 <=? y') eqn:Hy'; simpl; try done.
  destruct (0 <=? x) eqn:Hx, (0 <=? y) eqn:Hy; simpl; try done.
  destruct (decide (y = y')) as [->|Hy2].
  - rewrite list_lookup_alter_eq.
    destruct (gr !! Z.to_nat y') as [row|]; simpl; [|done].
    apply list_lookup_alter_ne. intros Heq. apply Hne. f_equal. lia.
  - rewrite list_lookup_alter_ne; [done|lia].
Qed.

Lemma getTile_updTile gr f x y x' y' :
  getTile (updTile f x y gr) x' y'
  = (if decide ((x, y) = (x', y')) then f else id) <$> getTile gr x' y'.
Proof.
  destruct (decide _) as [[= <- <-]|Hne].
  - apply getTile_updTile_eq.
  - rewrite getTile_updTile_ne by done. by destruct (getTile gr x' y').
Qed.

Lemma getTile_fmap {B} (h : A -> B) gr x y :
  getTile (fmap (M := list) h <$> gr) x y = h <$> getTile gr x y.
Proof.
  unfold getTile. destruct ((0 <=? x) && (0 <=? y)); [|done].
  rewrite list_lookup_fmap. destruct (gr !! Z.to_nat y) as [row|]; simpl; [|done].
  apply list_lookup_fmap.
Qed.

Lemma getTile_replicate (n m : nat) (a : A) x y :
  0 <= x < Z.of_nat m -> 0 <= y < Z.of_nat n ->
  getTile (replicate n (replicate m a)) x y = Some a.
Proof.
  intros Hx Hy. unfold getTile.
  replace ((0 <=? x) && (0 <=? y)) with true by (symmetry; apply andb_true_iff; lia).
  rewrite lookup_replicate_2 by lia. simpl. apply lookup_replicate_2. lia.
Qed.

Lemma countRow_cons p a row :
  countRow p (a :: row) = (b2n (p a) + countRow p row)%nat.
Proof.
  unfold countRow. rewrite filter_cons. by destruct (p a).
Qed.

Lemma countRow_alter p f row i a :
  row !! i = Some a ->
  (countRow p (alter f i row) + b2n (p a) = countRow p row + b2n (p (f a)))%nat.
Proof.
  revert i. unfold alter.
  induction row as [|a0 row IH]; intros [|i] Hi; simpl in *; try discriminate.
  - injection Hi as ->. rewrite !countRow_cons. lia.
  - rewrite !countRow_cons. specialize (IH i Hi). lia.
Qed.

Lemma countRow_alter_same p f i row :
  (forall a, p (f a) = p a) ->
  countRow p (alter f i row) = countRow p row.
Proof.
  intros Hf. revert i. unfold alter.
  induction row as [|a row IH]; intros [|i]; simpl; try done.
  - rewrite !countRow_cons. by rewrite Hf.
  - rewrite !countRow_cons. by rewrite IH.
Qed.

Lemma count2_alter p (h : list A -> list A) gr j row :
  gr !! j = Some row ->
  (count2 p (alter h j gr) + countRow p row = count2 p gr + countRow p (h row))%nat.
Proof.
  revert j. unfold count2, alter, fmap.
  induction gr as [|r0 gr IH]; intros [|j] Hj; simpl in *; try discriminate.
  - injection Hj as ->. lia.
  - specialize (IH j Hj). lia.
Qed.

Lemma count2_updTile p f x y gr a :
  getTile gr x y = Some a ->
  (count2 p (updTile f x y gr) + b2n (p a) = count2 p gr + b2n (p (f a)))%nat.
Proof.
  unfold getTile, updTile.
  destruct ((0 <=? x) && (0 <=? y)); [|discriminate].
  destruct (gr !! Z.to_nat y) as [row|] eqn:Hrow; simpl; [|discriminate].
  intros Ha.
  pose proof (count2_alter p (alter f (Z.to_nat x)) gr _ _ Hrow).
  pose proof (countRow_alter p f row _ _ Ha). lia.
Qed.

Lemma count2_updTile_same p f x y gr :
  (forall a, p (f a) = p a) ->
  count2 p (updTile f x y gr) = count2 p gr.
Proof.
  intros Hf. unfold updTile.
  destruct ((0 <=? x) && (0 <=? y)); [|done].
  generalize (Z.to_nat y) as j. unfold count2, alter at 1, fmap.
  induction gr as [|row gr IH]; intros [|j]; simpl; try done.
  - by rewrite countRow_alter_same.
  - by rewrite IH.
Qed.

Lemma count2_fmap p (h : A -> A) gr :
  (forall a, p (h a) = p a) ->
  count2 p (fmap (M := list) h <$> gr) = count2 p gr.
Proof.
  intros Hh. unfold count2. rewrite <- list_fmap_compose.
  induction gr as [|row gr IH]; [done|].
  rewrite !fmap_cons. simpl. rewrite IH. f_equal.
  unfold fmap. clear IH. induction row as [|a row IHr]; simpl; [done|].
  rewrite !countRow_cons. by rewrite Hh, IHr.
Qed.

End Grid2D.

Lemma wallCount_updTile f x y (gr : Grid) t :
  getTile gr x y = Some t ->
  wallCount (updTile f x y gr)
  = wallCount gr - Z.of_nat (b2n (isWall t)) + Z.of_nat (b2n (isWall (f t))).
Proof.
  intros Ht. unfold wallCount.
  pose proof (count2_updTile isWall f x y gr t Ht). lia.
Qed.

Lemma wallCount_updTile_same f x y (gr : Grid) :
  (forall t, state (f t) = state t) ->
  wallCount (updTile f x y gr) = wallCount gr.
Proof.
  intros Hf. unfold wallCount. rewrite count2_updTile_same; [done|].
  intros t. unfold isWall. by rewrite Hf.
Qed.

Lemma wallCount_fmap (h : Tile -> Tile) (gr : Grid) :
  (forall t, state (h t) = state t) ->
  wallCount (fmap (M := list) h <$> gr) = wallCount gr.
Proof.
  intros Hh. unfold wallCount. rewrite count2_fmap; [done|].
  intros t. unfold isWall. by rewrite Hh.
Qed.

(** ** Well-formed sessions *)

Lemma outOfGrid_false x y :
  outOfGrid x y = false <-> 0 <= x < gridSize /\ 0 <= y < gridSize.
Proof. unfold outOfGrid. rewrite !orb_false_iff. lia. Qed.

Lemma inGrid_spec p : inGrid p = true <-> InGrid p.
Proof. unfold inGrid, InGrid. rewrite negb_true_iff. apply outOfGrid_false. Qed.

Lemma row_ok_lookup row x0 y i :
  row_ok x0 y row = true -> (i < length row)%nat ->
  exists t, row !! i = Some t /\ tile_x t = x0 + Z.of_nat i /\ tile_y t = y.
Proof.
  revert x0 i. induction row as [|t row IH]; intros x0 [|i] Hok Hi; simpl in *; try lia.
  - exists t. split; [done|]. lia.
  - apply andb_true_iff in Hok as [_ Hok].
    destruct (IH (x0 + 1) i Hok) as (t' & ? & ? & ?); [lia|].
    exists t'. split; [done|]. lia.
Qed.

Lemma rows_ok_lookup gr y0 j :
  rows_ok y0 gr = true -> (j < length gr)%nat ->
  exists row, gr !! j = Some row /\ Z.of_nat (length row) = gridSize
              /\ row_ok 0 (y0 + Z.of_nat j) row = true.
Proof.
  revert y0 j. induction gr as [|r gr IH]; intros y0 [|j] Hok Hj; simpl in *; try lia.
  - apply andb_true_iff in Hok as [Hok _]. apply andb_true_iff in Hok as [Hl Hr].
    exists r. rewrite Z.add_0_r. split; [done|]. split; [lia|done].
  - apply andb_true_iff in Hok as [_ Hok].
    destruct (IH (y0 + 1) j Hok) as (row & ? & ? & Hr); [lia|].
    exists row. split; [done|]. split; [done|].
    by replace (y0 + Z.of_nat (S j)) with (y0 + 1 + Z.of_nat j) by lia.
Qed.

Lemma grid_ok_sound gr : grid_ok gr = true -> GridOk gr.
Proof.
  unfold grid_ok. intros [Hlen Hrows]%andb_true_iff x y Hx Hy.
  destruct (rows_ok_lookup gr 0 (Z.to_nat y) Hrows) as (row & Hrow & Hl & Hr); [lia|].
  destruct (row_ok_lookup row 0 (0 + Z.of_nat (Z.to_nat y)) (Z.to_nat x) Hr)
    as (t & Ht & Htx & Hty); [lia|].
  exists t. unfold getTile.
  replace ((0 <=? x) && (0 <=? y)) with true by (symmetry; apply andb_true_iff; lia).
  rewrite Hrow. simpl. split; [done|]. lia.
Qed.

Lemma GridOk_updTile f x y gr :
  (forall t, tile_x (f t) = tile_x t /\ tile_y (f t) = tile_y t) ->
  GridOk gr -> GridOk (updTile f x y gr).
Proof.
  intros Hf Hok x' y' Hx' Hy'. destruct (Hok x' y' Hx' Hy') as (t & Ht & Htx & Hty).
  rewrite getTile_updTile, Ht. simpl.
  destruct (decide _); eexists; (split; [done|]); simpl; [|done].
  destruct (Hf t). lia.
Qed.

Lemma GridOk_fmap (h : Tile -> Tile) gr :
  (forall t, tile_x (h t) = tile_x t /\ tile_y (h t) = tile_y t) ->
  GridOk gr -> GridOk (fmap (M := list) h <$> gr).
Proof.
  intros Hh Hok x y Hx Hy. destruct (Hok x y Hx Hy) as (t & Ht & Htx & Hty).
  rewrite getTile_fmap, Ht. simpl. eexists. split; [done|].
  destruct (Hh t). lia.
Qed.

Lemma row_ok_alter f i x0 y row :
  (forall t, tile_x (f t) = tile_x t /\ tile_y (f t) = tile_y t) ->
  row_ok x0 y (alter f i row) = row_ok x0 y row.
Proof.
  intros Hf. revert i x0. unfold alter.
  induction row as [|t row IH]; intros [|i] x0; simpl; try done.
  - destruct (Hf t) as [-> ->]. done.
  - by rewrite IH.
Qed.

Lemma grid_ok_updTile f x y gr :
  (forall t, tile_x (f t) = tile_x t /\ tile_y (f t) = tile_y t) ->
  grid_ok (updTile f x y gr) = grid_ok gr.
Proof.
  intros Hf. unfold grid_ok, updTile.
  destruct ((0 <=? x) && (0 <=? y)); [|done].
  rewrite length_alter. f_equal.
  generalize (Z.to_nat y) as j. generalize 0 as y0. unfold alter at 1.
  induction gr as [|row gr IH]; intros y0 [|j]; simpl; try done.
  - by rewrite length_alter, row_ok_alter.
  - by rewrite IH.
Qed.

Lemma grid_ok_fmap (h : Tile -> Tile) gr :
  (forall t, tile_x (h t) = tile_x t /\ tile_y (h t) = tile_y t) ->
  grid_ok (fmap (M := list) h <$> gr) = grid_ok gr.
Proof.
  intros Hh. unfold grid_ok. rewrite length_fmap. f_equal.
  generalize 0 as y0.
  induction gr as [|row gr IH]; intros y0; [done|].
  rewrite fmap_cons. simpl. rewrite IH, length_fmap. do 2 f_equal.
  generalize 0 as x0. clear IH.
  induction row as [|t row IH]; intros x0; [done|].
  rewrite fmap_cons. simpl. destruct (Hh t) as [-> ->]. by rewrite IH.
Qed.

(** ** The generator and the maze generator *)

Lemma mulberry32_range a : 0 <= (mulberry32 a).1 < 2 ^ 32.
Proof. unfold mulberry32, u32. simpl. apply Z.mod_pos_bound. lia. Qed.

Lemma floorMul_range r n :
  0 <= r < 2 ^ 32 -> 0 < n -> 0 <= floorMul r n < n.
Proof.
  intros Hr Hn. unfold floorMul. split.
  - apply Z.div_pos; nia.
  - apply Z.div_lt_upper_bound; nia.
Qed.

Lemma length_swap {A} i j (l : list A) : length (swap i j l) = length l.
Proof.
  unfold swap. destruct (l !! i), (l !! j); try done.
  by rewrite !length_insert.
Qed.

Lemma length_shuffle_loop {A} i (l : list A) a :
  length (shuffle_loop i l a).1 = length l.
Proof.
  revert l a. induction i as [|i IH]; intros l a; [done|].
  cbn [shuffle_loop]. destruct (mulberry32 a) as [r a'].
  by rewrite IH, length_swap.
Qed.

Lemma length_shuffle {A} (l : list A) a : length (shuffle l a).1 = length l.
Proof. apply length_shuffle_loop. Qed.

Lemma build_row_spec n x y pool a :
  pool <> [] ->
  exists row a', build_row n x y pool a = Done (row, a')
    /\ length row = n /\ row_ok x y row = true
    /\ Forall (fun t => state t = Neutral) row.
Proof.
  intros Hpool. revert x a. induction n as [|n IH]; intros x a.
  - exists [], a. by repeat split.
  - cbn [build_row]. pose proof (mulberry32_range a) as Hr.
    destruct (mulberry32 a) as [r a1]. simpl in Hr.
    assert (Hlen : 0 < Z.of_nat (length pool)) by (destruct pool; [done|simpl; lia]).
    pose proof (floorMul_range r _ Hr Hlen) as Hj.
    destruct (lookup_lt_is_Some_2 pool (Z.to_nat (floorMul r (Z.of_nat (length pool)))))
      as [arch Harch]; [lia|].
    rewrite Harch. simpl.
    destruct (IH (x + 1) a1) as (row & a' & -> & Hl & Hok & Hall). simpl.
    exists (newTile x y (arch_name arch) :: row), a'. split; [done|].
    split; [simpl; lia|]. split.
    + simpl. rewrite !Z.eqb_refl. done.
    + by constructor.
Qed.

Lemma build_rows_spec n y pool a :
  pool <> [] ->
  exists gr a', build_rows n y pool a = Done (gr, a')
    /\ length gr = n /\ rows_ok y gr = true /\ AllNeutral gr.
Proof.
  intros Hpool. revert y a. induction n as [|n IH]; intros y a.
  - exists [], a. repeat split; try done. constructor.
  - cbn [build_rows].
    destruct (build_row_spec (Z.to_nat gridSize) 0 y pool a Hpool)
      as (row & a1 & -> & Hl & Hok & Hall). simpl.
    destruct (IH (y + 1) a1) as (gr & a' & -> & Hlg & Hokg & Hallg). simpl.
    exists (row :: gr), a'. split; [done|]. split; [simpl; lia|]. split.
    + simpl. rewrite Hl, Hok, Hokg. done.
    + by constructor.
Qed.

Lemma AllNeutral_getTile gr x y t :
  AllNeutral gr -> getTile gr x y = Some t -> state t = Neutral.
Proof.
  unfold getTile. intros Hall. destruct ((0 <=? x) && (0 <=? y)); [|done].
  destruct (gr !! Z.to_nat y) as [row|] eqn:Hrow; simpl; [|done]. intros Ht.
  eapply Forall_lookup_1 in Hrow; [|exact Hall].
  eapply Forall_lookup_1 in Ht; [|exact Hrow]. done.
Qed.

Lemma AllNeutral_wallCount gr : AllNeutral gr -> wallCount gr = 0.
Proof.
  intros Hall. unfold wallCount.
  assert (count2 isWall gr = 0%nat) as ->; [|done].
  unfold count2.
  induction Hall as [|row gr Hrow _ IH]; [done|].
  rewrite fmap_cons. simpl. rewrite IH.
  assert (countRow isWall row = 0%nat) as ->; [|done].
  induction Hrow as [|t row Ht _ IHr]; [done|].
  rewrite countRow_cons, IHr. unfold isWall. rewrite Ht. done.
Qed.

(** [createGame] returns a session for every seed, and the session is
    well formed: start tile safe, exit tile exit, everything else neutral,
    counters at zero and histories empty. *)
Lemma createGame_spec seed :
  exists g, createGame seed = Done g
    /\ grid_ok (grid g) = true
    /\ player g = {| pos_x := 1; pos_y := 1 |}
    /\ exit g = {| pos_x := gridSize - 2; pos_y := gridSize - 2 |}
    /\ (forall x y t, getTile (grid g) x y = Some t -> state t = initialState x y)
    /\ wallCount (grid g) = 0
    /\ moveCount g = 0 /\ crystallized g = 0
    /\ recentDirections g = [] /\ recentArchetypes g = [] /\ recentPositions g = []
    /\ length (archetypePool g) = 4%nat.
Proof.
  unfold createGame.
  generalize (math_floor (PrimFloat.mul seed 1e9%float)). intros a.
  pose proof (length_shuffle archetypes a) as Hsh.
  destruct (shuffle archetypes a) as [shuffled a0]. simpl in Hsh.
  destruct (mulberry32 a0) as [r1 a1]. destruct (mulberry32 a1) as [r2 a2].
  destruct (mulberry32 a2) as [r3 a3]. destruct (mulberry32 a3) as [r4 a4].
  assert (Hpl : length (take 4 shuffled) = 4%nat) by (rewrite length_take; lia).
  assert (Hpool : take 4 shuffled <> []) by (intros E; rewrite E in Hpl; done).
  destruct (build_rows_spec (Z.to_nat gridSize) 0 _ a4 Hpool)
    as (gr & a' & -> & Hlen & Hrows & Hall). simpl.
  assert (Hok : grid_ok gr = true).
  { unfold grid_ok. rewrite Hlen, Hrows. done. }
  pose proof (grid_ok_sound gr Hok) as HG.
  destruct (HG 1 1) as (t1 & Ht1 & _); [unfold gridSize; lia..|].
  unfold writeTile. rewrite Ht1. simpl.
  set (gr1 := updTile (set_state Safe) 1 1 gr).
  assert (Ht2 : getTile gr1 (gridSize - 2) (gridSize - 2)
                = getTile gr (gridSize - 2) (gridSize - 2)).
  { unfold gr1. by rewrite getTile_updTile_ne. }
  destruct (HG (gridSize - 2) (gridSize - 2)) as (t2 & Ht2' & _); [unfold gridSize; lia..|].
  fold gr1. rewrite Ht2, Ht2'. simpl.
  eexists. split; [reflexivity|]. simpl.
  split. { unfold gr1. by rewrite !grid_ok_updTile. }
  do 2 (split; [done|]).
  split.
  { intros x y t. unfold gr1. rewrite !getTile_updTile. unfold initialState.
    destruct (getTile gr x y) as [t0|] eqn:Ht0; simpl; [|done].
    intros [= <-]. pose proof (AllNeutral_getTile _ _ _ _ Hall Ht0).
    destruct (decide ((1, 1) = (x, y))) as [E|E];
      destruct (decide ((gridSize - 2, gridSize - 2) = (x, y))) as [E'|E']; simpl; try done.
    exfalso. rewrite <- E in E'. done. }
  split.
  { erewrite wallCount_updTile; [|by rewrite Ht2, Ht2'].
    unfold gr1. erewrite wallCount_updTile; [|exact Ht1].
    rewrite (AllNeutral_wallCount _ Hall). unfold isWall. simpl.
    rewrite (AllNeutral_getTile _ _ _ _ Hall Ht1), (AllNeutral_getTile _ _ _ _ Hall Ht2').
    done. }
  repeat split; done.
Qed.

(** ** The rule engine *)

Lemma flashMessage_spec m w g :
  game w = Some g -> flashMessage m w = Done (flashed m g w).
Proof. intros Hg. unfold flashMessage, theGame. by rewrite Hg. Qed.

(** Every archetype name has its entry in the table. *)
Lemma find_archetype n :
  exists rule,
    find (fun rule => bool_decide (arch_name rule = n)) archetypes = Some rule
    /\ arch_name rule = n.
Proof. destruct n; eexists; split; reflexivity. Qed.

Lemma applyTileRule_spec x y w g t :
  game w = Some g -> getTile (grid g) x y = Some t ->
  applyTileRule x y w
  = Done (if ruleFires t g
          then flashed "A path crystallizes behind you." (crystallizeAt x y g) w
          else w).
Proof.
  intros Hg Ht. unfold applyTileRule, theGame, ruleFires. rewrite Hg. res_step.
  rewrite Ht. res_step.
  destruct (bool_decide (state t = Wall) || bool_decide (state t = Exit)); [done|].
  destruct (find_archetype (archetype t)) as (rule & -> & ->). cbn [negb andb].
  destruct (trigger (archetype t) t g); [|done].
  erewrite flashMessage_spec by reflexivity. reflexivity.
Qed.

(** ** The liveness checker always answers *)

Lemma VisitedOk_updTile f x y visited :
  VisitedOk visited -> VisitedOk (updTile f x y visited).
Proof.
  intros Hok x' y' Hx' Hy'. rewrite getTile_updTile.
  destruct (Hok x' y' Hx' Hy') as [b ->]. by eexists.
Qed.

Lemma visitNeighbour_spec gr current visited queue dir :
  GridOk gr -> VisitedOk visited ->
  exists visited' queue',
    visitNeighbour gr current (visited, queue) dir = Done (visited', queue')
    /\ VisitedOk visited'
    /\ bfsMeasure visited' queue' = bfsMeasure visited queue.
Proof.
  intros HG HV. unfold visitNeighbour.
  set (nx := pos_x current + dir_x dir). set (ny := pos_y current + dir_y dir).
  destruct (outOfGrid nx ny) eqn:Hout; [by eauto|].
  apply outOfGrid_false in Hout as [Hx Hy].
  destruct (HV nx ny Hx Hy) as [seen Hseen]. rewrite Hseen. simpl.
  destruct seen; [by eauto|].
  destruct (HG nx ny Hx Hy) as (t & Ht & _). rewrite Ht. simpl.
  destruct (bool_decide (state t = Wall)); [by eauto|].
  do 2 eexists. split; [done|]. split; [by apply VisitedOk_updTile|].
  unfold bfsMeasure. rewrite length_app. simpl.
  pose proof (count2_updTile negb (fun _ => true) nx ny visited false Hseen) as Hc.
  simpl in Hc. lia.
Qed.

Lemma visitNeighbours_spec gr current dirs visited queue :
  GridOk gr -> VisitedOk visited ->
  exists visited' queue',
    visitNeighbours gr current dirs (visited, queue) = Done (visited', queue')
    /\ VisitedOk visited'
    /\ bfsMeasure visited' queue' = bfsMeasure visited queue.
Proof.
  intros HG. revert visited queue.
  induction dirs as [|dir dirs IH]; intros visited queue HV; [by eauto|].
  cbn [visitNeighbours].
  destruct (visitNeighbour_spec gr current visited queue dir HG HV)
    as (v1 & q1 & -> & HV1 & Hm1). simpl.
  destruct (IH v1 q1 HV1) as (v2 & q2 & -> & HV2 & Hm2).
  do 2 eexists. split; [done|]. split; [done|]. congruence.
Qed.

(** The loop ends before its fuel does. *)
Lemma pathExists_loop_fuel fuel gr goal visited queue :
  GridOk gr -> VisitedOk visited ->
  (bfsMeasure visited queue < fuel)%nat ->
  exists b, pathExists_loop fuel gr goal visited queue = Done b.
Proof.
  intros HG. revert visited queue.
  induction fuel as [|fuel IH]; intros visited queue HV Hm; [lia|].
  cbn [pathExists_loop]. destruct queue as [|current queue]; [by eauto|].
  destruct ((pos_x current =? pos_x goal) && (pos_y current =? pos_y goal)); [by eauto|].
  destruct (visitNeighbours_spec gr current directions visited queue HG HV)
    as (v1 & q1 & -> & HV1 & Hm1). simpl.
  apply IH; [done|]. unfold bfsMeasure in *. simpl in Hm. lia.
Qed.

Lemma pathExists_total start goal gr :
  GridOk gr -> InGrid start -> exists b, pathExists start goal gr = Done b.
Proof.
  intros HG [Hx Hy]. unfold pathExists.
  set (visited := replicate (Z.to_nat gridSize) (replicate (Z.to_nat gridSize) false)).
  assert (Hs : getTile visited (pos_x start) (pos_y start) = Some false).
  { apply getTile_replicate; unfold gridSize in *; lia. }
  destruct (getTile_getRow _ _ _ _ Hs) as [row ->]. res_step.
  apply pathExists_loop_fuel; [done| |].
  - apply VisitedOk_updTile. intros x y Hx' Hy'. exists false.
    apply getTile_replicate; unfold gridSize in *; lia.
  - unfold bfsMeasure.
    pose proof (count2_updTile negb (fun _ => true) _ _ visited false Hs) as Hc.
    assert (count2 negb visited = 324%nat) as Hv by (by vm_compute).
    rewrite Hv in Hc. cbn [b2n negb] in Hc. cbn [length].
    change (Z.to_nat (gridSize * gridSize + 1)) with 325%nat. lia.
Qed.

Lemma isTrapped_every_total dirs p gr :
  GridOk gr -> exists b, isTrapped_every dirs p gr = Done b.
Proof.
  intros HG. induction dirs as [|dir dirs IH]; [by eauto|].
  cbn [isTrapped_every].
  destruct (outOfGrid _ _) eqn:Hout; simpl; [done|].
  apply outOfGrid_false in Hout as [Hx Hy].
  destruct (HG _ _ Hx Hy) as (t & -> & _). simpl.
  destruct (bool_decide (state t = Wall)); [done|by eauto].
Qed.

Lemma checkFailure_spec w g :
  game w = Some g -> GridOk (grid g) -> InGrid (player g) ->
  exists reachable trapped,
    pathExists (player g) (exit g) (grid g) = Done reachable
    /\ isTrapped (player g) (grid g) = Done trapped
    /\ checkFailure w
       = Done (match failureMessage reachable trapped with
               | Some m => flashed m g w
               | None => w
               end).
Proof.
  intros Hg HG HP. unfold checkFailure. rewrite Hg.
  destruct (pathExists_total (player g) (exit g) (grid g) HG HP) as [reachable Hr].
  destruct (isTrapped_every_total directions (player g) (grid g) HG) as [trapped Ht].
  exists reachable, trapped. unfold isTrapped. rewrite Hr, Ht. simpl.
  split; [done|]. split; [done|]. unfold failureMessage.
  destruct reachable; simpl.
  - destruct trapped; [by apply flashMessage_spec|done].
  - by apply flashMessage_spec.
Qed.

(** ** What an accepted move does to the session *)

Lemma draw_spec w g : game w = Some g -> draw w = Done (drawn g).
Proof. intros Hg. unfold draw, theGame. rewrite Hg. reflexivity. Qed.

Lemma bump_coords t : tile_x (bump t) = tile_x t /\ tile_y (bump t) = tile_y t.
Proof. done. Qed.

Lemma crystallize_coords t :
  tile_x (crystallize t) = tile_x t /\ tile_y (crystallize t) = tile_y t.
Proof. done. Qed.

Lemma enter_coords n t : tile_x (enter n t) = tile_x t /\ tile_y (enter n t) = tile_y t.
Proof. done. Qed.

Lemma set_state_coords s t :
  tile_x (set_state s t) = tile_x t /\ tile_y (set_state s t) = tile_y t.
Proof. done. Qed.

Lemma decayTile_coords t :
  tile_x (decayTile t) = tile_x t /\ tile_y (decayTile t) = tile_y t.
Proof. unfold decayTile. by destruct (PrimFloat.ltb _ _). Qed.

Lemma decayTile_state t : state (decayTile t) = state t.
Proof. unfold decayTile. by destruct (PrimFloat.ltb _ _). Qed.

Lemma decayTile_archetype t : archetype (decayTile t) = archetype t.
Proof. unfold decayTile. by destruct (PrimFloat.ltb _ _). Qed.

Lemma leaveTile_eq g c :
  getTile (grid g) (pos_x (player g)) (pos_y (player g)) = Some c ->
  leaveTile g
  = let g1 := set_grid (updTile bump (pos_x (player g)) (pos_y (player g)) (grid g)) g in
    if ruleFires (bump c) g1
    then crystallizeAt (pos_x (player g)) (pos_y (player g)) g1
    else g1.
Proof.
  intros Hc. unfold leaveTile. cbn [grid set_grid player].
  rewrite getTile_updTile_eq, Hc. reflexivity.
Qed.

Lemma player_leaveTile g : player (leaveTile g) = player g.
Proof.
  unfold leaveTile. cbn zeta. destruct (getTile _ _ _) as [t|]; [|done].
  by destruct (ruleFires _ _).
Qed.

Lemma GridOk_leaveTile g : GridOk (grid g) -> GridOk (grid (leaveTile g)).
Proof.
  intros HG. unfold leaveTile. cbn zeta.
  pose proof (GridOk_updTile bump (pos_x (player g)) (pos_y (player g)) _ bump_coords HG).
  destruct (getTile _ _ _) as [t|]; [|done].
  destruct (ruleFires _ _); [|done].
  by apply GridOk_updTile.
Qed.

Lemma GridOk_moved dx dy darch g : GridOk (grid g) -> GridOk (grid (moved dx dy darch g)).
Proof.
  intros HG. unfold moved, arrive. cbn [grid set_grid set_message set_moveCount
    set_recentPositions set_recentArchetypes set_recentDirections set_player].
  apply GridOk_updTile; [apply enter_coords|]. by apply GridOk_leaveTile.
Qed.

Lemma player_moved dx dy darch g :
  player (moved dx dy darch g)
  = {| pos_x := pos_x (player g) + dx; pos_y := pos_y (player g) + dy |}.
Proof. unfold moved, arrive. cbn. by rewrite player_leaveTile. Qed.

Lemma GridOk_promote g : GridOk (grid g) -> GridOk (grid (promote g)).
Proof.
  intros HG. unfold promote. destruct (getTile _ _ _) as [d|]; [|done].
  destruct (bool_decide _); [|done]. by apply GridOk_updTile.
Qed.

Lemma player_promote g : player (promote g) = player g.
Proof.
  unfold promote. destruct (getTile _ _ _) as [d|]; [|done].
  by destruct (bool_decide _).
Qed.

Lemma exit_promote g : exit (promote g) = exit g.
Proof.
  unfold promote. destruct (getTile _ _ _) as [d|]; [|done].
  by destruct (bool_decide _).
Qed.

Lemma finishMove_spec g1 d' w1 :
  GridOk (grid g1) -> InGrid (player g1) ->
  getTile (grid g1) (pos_x (player g1)) (pos_y (player g1)) = Some d' ->
  finishes g1 d'
    (if bool_decide (state d' = Exit)
     then w ← flashMessage "Exit reached. The maze remembers your path." (set_game g1 w1);
          draw w
     else
       let g := if bool_decide (state d' = Neutral)
                then set_grid (updTile (set_state Safe) (pos_x (player g1))
                                 (pos_y (player g1)) (grid g1)) g1
                else g1 in
       w ← checkFailure (set_game g w1); draw w).
Proof.
  intros HG1 HP1 Hd'. unfold finishes.
  destruct (bool_decide (state d' = Exit)) eqn:Hexit.
  - erewrite flashMessage_spec by reflexivity. res_step.
    erewrite draw_spec by reflexivity. reflexivity.
  - assert (Hpr : promote g1
                  = if bool_decide (state d' = Neutral)
                    then set_grid (updTile (set_state Safe) (pos_x (player g1))
                                     (pos_y (player g1)) (grid g1)) g1
                    else g1).
    { unfold promote. by rewrite Hd'. }
    cbn zeta. rewrite <- Hpr.
    destruct (checkFailure_spec (set_game (promote g1) w1) (promote g1))
      as (reachable & trapped & Hr & Ht & ->);
      [reflexivity|by apply GridOk_promote|by rewrite player_promote|].
    exists reachable, trapped.
    rewrite player_promote in Hr, Ht.
    rewrite exit_promote in Hr. split; [done|]. split; [done|]. res_step.
    destruct (failureMessage reachable trapped) as [m|]; cbn [withMessage];
      erewrite draw_spec by reflexivity; reflexivity.
Qed.

(** The accepted path of [attemptMove], step by step. *)
Lemma attemptMove_accepted dx dy w g d :
  game w = Some g -> GridOk (grid g) -> InGrid (player g) ->
  outOfGrid (pos_x (player g) + dx) (pos_y (player g) + dy) = false ->
  getTile (grid g) (pos_x (player g) + dx) (pos_y (player g) + dy) = Some d ->
  state d <> Wall ->
  let g1 := moved dx dy (archetype d) g in
  exists d',
    getTile (grid g1) (pos_x (player g1)) (pos_y (player g1)) = Some d'
    /\ finishes g1 d' (attemptMove dx dy w).
Proof.
  intros Hg HG HP Hout Hd Hwall g1.
  pose proof (GridOk_moved dx dy (archetype d) g HG) as HG1. fold g1 in HG1.
  pose proof (player_moved dx dy (archetype d) g) as Hp1. fold g1 in Hp1.
  pose proof Hout as Hin. apply outOfGrid_false in Hin as [Hx Hy].
  assert (HP1 : InGrid (player g1)) by (by rewrite Hp1).
  destruct (HG1 _ _ (proj1 HP1) (proj2 HP1)) as (d' & Hd' & _).
  exists d'. split; [done|].
  destruct HP as [Hpx Hpy]. destruct (HG _ _ Hpx Hpy) as (c & Hc & _).
  unfold attemptMove. rewrite Hg, Hout, Hd. res_step.
  rewrite (bool_decide_false _ Hwall). rewrite Hc. res_step.
  erewrite applyTileRule_spec;
    [|reflexivity|cbn [grid set_grid]; by rewrite getTile_updTile_eq, Hc].
  change (fun t : Tile => set_leaveCount (leaveCount t + 1) t) with bump.
  change (set_leaveCount (leaveCount c + 1) c) with (bump c).
  revert HG1 HP1 Hd'. subst g1. unfold moved. rewrite (leaveTile_eq g c Hc). cbn zeta.
  destruct (ruleFires (bump c) _) eqn:Hf; intros HG1 HP1 Hd'.
  - pose proof (finishMove_spec _ d'
      (flashed "A path crystallizes behind you."
         (crystallizeAt (pos_x (player g)) (pos_y (player g))
            (set_grid (updTile bump (pos_x (player g)) (pos_y (player g)) (grid g)) g))
         (set_game (set_grid (updTile bump (pos_x (player g)) (pos_y (player g)) (grid g)) g) w))
      HG1 HP1 Hd') as Hfin.
    cbn [player arrive set_message set_moveCount set_recentPositions set_recentArchetypes
         set_recentDirections set_player pos_x pos_y] in Hd'.
    unfold theGame. cbn [game flashed deref]. res_step.
    unfold arrive, dirNameOf in Hd'.
    cbn [grid set_grid set_message set_moveCount set_recentPositions set_recentArchetypes
         set_recentDirections set_player crystallizeAt set_crystallized player] in Hd' |- *.
    rewrite Hd'. res_step. exact Hfin.
  - pose proof (finishMove_spec _ d'
      (set_game (set_grid (updTile bump (pos_x (player g)) (pos_y (player g)) (grid g)) g) w)
      HG1 HP1 Hd') as Hfin.
    cbn [player arrive set_message set_moveCount set_recentPositions set_recentArchetypes
         set_recentDirections set_player pos_x pos_y] in Hd'.
    unfold theGame. cbn [game set_game deref]. res_step.
    unfold arrive, dirNameOf in Hd'.
    cbn [grid set_grid set_message set_moveCount set_recentPositions set_recentArchetypes
         set_recentDirections set_player player] in Hd' |- *.
    rewrite Hd'. res_step. exact Hfin.
Qed.

(** ** Tile states along a move *)

Lemma state_updTile_same f x0 y0 (gr : Grid) x y :
  (forall t, state (f t) = state t) ->
  state <$> getTile (updTile f x0 y0 gr) x y = state <$> getTile gr x y.
Proof.
  intros Hf. rewrite getTile_updTile. destruct (getTile gr x y) as [t|]; [|done].
  simpl. destruct (decide _); simpl; by rewrite ?Hf.
Qed.

Lemma ruleFires_not_frozen t g : ruleFires t g = true -> ~ frozen (state t).
Proof.
  unfold ruleFires. intros [Hn _]%andb_true_iff [E|E]; rewrite E in Hn; done.
Qed.

Lemma stateAt_leaveTile_frozen g x y s :
  stateAt g x y = Some s -> frozen s -> stateAt (leaveTile g) x y = Some s.
Proof.
  unfold stateAt, leaveTile. cbn zeta. cbn [grid set_grid].
  intros Hs Hfr.
  assert (Hb : state <$> getTile (updTile bump (pos_x (player g)) (pos_y (player g)) (grid g)) x y
               = Some s) by (by rewrite state_updTile_same).
  destruct (getTile (updTile bump _ _ _) (pos_x (player g)) (pos_y (player g)))
    as [t|] eqn:Ht; [|done].
  destruct (ruleFires t _) eqn:Hf; [|done].
  cbn [crystallizeAt grid set_grid set_crystallized].
  rewrite getTile_updTile. destruct (decide _) as [[= <- <-]|_].
  - rewrite Ht in Hb. injection Hb as <-. by apply ruleFires_not_frozen in Hf.
  - by rewrite option_fmap_id.
Qed.

Lemma stateAt_arrive dx dy darch g x y :
  stateAt (arrive dx dy darch g) x y = stateAt g x y.
Proof. unfold stateAt, arrive. cbn [grid set_grid set_message set_moveCount
  set_recentPositions set_recentArchetypes set_recentDirections set_player].
  by apply state_updTile_same.
Qed.

Lemma stateAt_promote_frozen g x y s :
  stateAt g x y = Some s -> frozen s -> stateAt (promote g) x y = Some s.
Proof.
  unfold stateAt, promote. intros Hs Hfr.
  destruct (getTile (grid g) (pos_x (player g)) (pos_y (player g))) as [d|] eqn:Hd; [|done].
  destruct (bool_decide (state d = Neutral)) eqn:Hn; [|done].
  apply bool_decide_eq_true in Hn. cbn [grid set_grid].
  rewrite getTile_updTile. destruct (decide _) as [[= <- <-]|_].
  - rewrite Hd in Hs. simpl in Hs. injection Hs as <-.
    destruct Hfr as [E|E]; rewrite E in Hn; done.
  - by rewrite option_fmap_id.
Qed.

Lemma grid_tick g : grid (tick g) = fmap (M := list) decayTile <$> grid g.
Proof. unfold tick. by destruct (0 <? revealTimer g). Qed.

Lemma stateAt_tick g x y : stateAt (tick g) x y = stateAt g x y.
Proof.
  unfold stateAt. rewrite grid_tick, getTile_fmap.
  destruct (getTile (grid g) x y) as [t|]; [|done]. simpl. by rewrite decayTile_state.
Qed.

Lemma stateAt_set_message m g x y : stateAt (set_message m g) x y = stateAt g x y.
Proof. done. Qed.

Lemma stateAt_stepGame_frozen dx dy darch m g x y s :
  stateAt g x y = Some s -> frozen s -> stateAt (stepGame dx dy darch m g) x y = Some s.
Proof.
  intros Hs Hfr. unfold stepGame, moved.
  rewrite stateAt_tick, stateAt_set_message.
  apply stateAt_promote_frozen; [|done]. rewrite stateAt_arrive.
  by apply stateAt_leaveTile_frozen.
Qed.

(** *** Fields a move leaves alone or counts up *)

Lemma leaveTile_fields g :
  player (leaveTile g) = player g /\ exit (leaveTile g) = exit g
  /\ moveCount (leaveTile g) = moveCount g
  /\ recentDirections (leaveTile g) = recentDirections g
  /\ recentArchetypes (leaveTile g) = recentArchetypes g
  /\ recentPositions (leaveTile g) = recentPositions g
  /\ thresholds (leaveTile g) = thresholds g.
Proof.
  unfold leaveTile. cbn zeta. destruct (getTile _ _ _) as [t|]; [|done].
  by destruct (ruleFires _ _).
Qed.

Lemma promote_fields g :
  player (promote g) = player g /\ exit (promote g) = exit g
  /\ moveCount (promote g) = moveCount g /\ crystallized (promote g) = crystallized g
  /\ recentDirections (promote g) = recentDirections g
  /\ recentArchetypes (promote g) = recentArchetypes g
  /\ recentPositions (promote g) = recentPositions g
  /\ thresholds (promote g) = thresholds g /\ message (promote g) = message g.
Proof.
  unfold promote. destruct (getTile _ _ _) as [t|]; [|done].
  by destruct (bool_decide _).
Qed.

Lemma tick_fields g :
  player (tick g) = player g /\ exit (tick g) = exit g
  /\ moveCount (tick g) = moveCount g /\ crystallized (tick g) = crystallized g
  /\ recentDirections (tick g) = recentDirections g
  /\ recentArchetypes (tick g) = recentArchetypes g
  /\ recentPositions (tick g) = recentPositions g
  /\ thresholds (tick g) = thresholds g /\ message (tick g) = message g.
Proof. unfold tick. by destruct (0 <? revealTimer g). Qed.

Lemma set_message_fields m g :
  player (set_message m g) = player g /\ exit (set_message m g) = exit g
  /\ moveCount (set_message m g) = moveCount g
  /\ crystallized (set_message m g) = crystallized g
  /\ recentDirections (set_message m g) = recentDirections g
  /\ recentArchetypes (set_message m g) = recentArchetypes g
  /\ recentPositions (set_message m g) = recentPositions g
  /\ thresholds (set_message m g) = thresholds g /\ message (set_message m g) = m.
Proof. done. Qed.

Lemma arrive_fields dx dy darch g :
  player (arrive dx dy darch g)
    = {| pos_x := pos_x (player g) + dx; pos_y := pos_y (player g) + dy |}
  /\ exit (arrive dx dy darch g) = exit g
  /\ moveCount (arrive dx dy darch g) = moveCount g + 1
  /\ crystallized (arrive dx dy darch g) = crystallized g
  /\ recentDirections (arrive dx dy darch g)
     = push_capped 12 (recentDirections g) (default "none" (dirNameOf dx dy))
  /\ recentArchetypes (arrive dx dy darch g)
     = push_capped 20 (recentArchetypes g) darch
  /\ recentPositions (arrive dx dy darch g)
     = push_capped 14 (recentPositions g)
         {| pos_x := pos_x (player g) + dx; pos_y := pos_y (player g) + dy |}
  /\ thresholds (arrive dx dy darch g) = thresholds g.
Proof. done. Qed.

Lemma stepGame_fields dx dy darch m g :
  player (stepGame dx dy darch m g)
    = {| pos_x := pos_x (player g) + dx; pos_y := pos_y (player g) + dy |}
  /\ exit (stepGame dx dy darch m g) = exit g
  /\ moveCount (stepGame dx dy darch m g) = moveCount g + 1
  /\ recentDirections (stepGame dx dy darch m g)
     = push_capped 12 (recentDirections g) (default "none" (dirNameOf dx dy))
  /\ recentArchetypes (stepGame dx dy darch m g)
     = push_capped 20 (recentArchetypes g) darch
  /\ recentPositions (stepGame dx dy darch m g)
     = push_capped 14 (recentPositions g)
         {| pos_x := pos_x (player g) + dx; pos_y := pos_y (player g) + dy |}
  /\ thresholds (stepGame dx dy darch m g) = thresholds g
  /\ message (stepGame dx dy darch m g) = m.
Proof.
  unfold stepGame, moved.
  pose proof (tick_fields (set_message m (promote (arrive dx dy darch (leaveTile g))))) as Ht.
  pose proof (set_message_fields m (promote (arrive dx dy darch (leaveTile g)))) as Hm.
  pose proof (promote_fields (arrive dx dy darch (leaveTile g))) as Hp.
  pose proof (arrive_fields dx dy darch (leaveTile g)) as Ha.
  pose proof (leaveTile_fields g) as Hl.
  generalize dependent (tick (set_message m (promote (arrive dx dy darch (leaveTile g))))).
  generalize dependent (set_message m (promote (arrive dx dy darch (leaveTile g)))).
  generalize dependent (promote (arrive dx dy darch (leaveTile g))).
  generalize dependent (arrive dx dy darch (leaveTile g)).
  generalize dependent (leaveTile g).
  intros g1 Hl g2 Ha g3 Hp g4 Hm g5 Ht.
  destruct Ht as (Ht1 & Ht2 & Ht3 & _ & Ht4 & Ht5 & Ht6 & Ht7 & Ht8).
  destruct Hm as (Hm1 & Hm2 & Hm3 & _ & Hm4 & Hm5 & Hm6 & Hm7 & Hm8).
  destruct Hp as (Hp1 & Hp2 & Hp3 & _ & Hp4 & Hp5 & Hp6 & Hp7 & _).
  destruct Ha as (Ha1 & Ha2 & Ha3 & _ & Ha4 & Ha5 & Ha6 & Ha7).
  destruct Hl as (Hl1 & Hl2 & Hl3 & Hl4 & Hl5 & Hl6 & Hl7).
  repeat split; congruence.
Qed.

(** *** The counter and the grid along a move *)

Lemma counter_leaveTile g :
  crystallized (leaveTile g) - wallCount (grid (leaveTile g))
  = crystallized g - wallCount (grid g).
Proof.
  unfold leaveTile. cbn zeta. cbn [grid set_grid].
  pose proof (wallCount_updTile_same bump (pos_x (player g)) (pos_y (player g)) (grid g)
                (fun t => eq_refl)) as Hb.
  destruct (getTile (updTile bump _ _ _) _ _) as [t|] eqn:Ht;
    [|cbn [crystallized grid set_grid]; lia].
  destruct (ruleFires t _) eqn:Hf; [|cbn [crystallized grid set_grid]; lia].
  cbn [crystallizeAt crystallized grid set_grid set_crystallized].
  rewrite (wallCount_updTile crystallize _ _ _ t Ht), Hb.
  assert (isWall t = false) as ->.
  { unfold isWall. apply bool_decide_eq_false. intros E.
    apply ruleFires_not_frozen in Hf. apply Hf. by left. }
  change (isWall (crystallize t)) with true. simpl. lia.
Qed.

Lemma counter_arrive dx dy darch g :
  crystallized (arrive dx dy darch g) - wallCount (grid (arrive dx dy darch g))
  = crystallized g - wallCount (grid g).
Proof.
  unfold arrive. cbn [crystallized grid set_grid set_message set_moveCount
    set_recentPositions set_recentArchetypes set_recentDirections set_player].
  by rewrite wallCount_updTile_same.
Qed.

Lemma counter_promote g :
  crystallized (promote g) - wallCount (grid (promote g))
  = crystallized g - wallCount (grid g).
Proof.
  unfold promote. destruct (getTile _ _ _) as [d|] eqn:Hd; [|done].
  destruct (bool_decide (state d = Neutral)) eqn:Hn; [|done].
  apply bool_decide_eq_true in Hn. cbn [crystallized grid set_grid].
  rewrite (wallCount_updTile _ _ _ _ d Hd). unfold isWall. cbn [state set_state].
  rewrite Hn. simpl. lia.
Qed.

Lemma counter_tick g :
  crystallized (tick g) - wallCount (grid (tick g)) = crystallized g - wallCount (grid g).
Proof.
  rewrite grid_tick, (wallCount_fmap _ _ decayTile_state).
  by destruct (tick_fields g) as (_ & _ & _ & -> & _).
Qed.

Lemma grid_set_message m g : grid (set_message m g) = grid g.
Proof. done. Qed.

Lemma counter_stepGame dx dy darch m g :
  crystallized (stepGame dx dy darch m g) - wallCount (grid (stepGame dx dy darch m g))
  = crystallized g - wallCount (grid g).
Proof.
  unfold stepGame, moved. rewrite counter_tick, grid_set_message.
  destruct (set_message_fields m (promote (arrive dx dy darch (leaveTile g))))
    as (_ & _ & _ & -> & _).
  by rewrite counter_promote, counter_arrive, counter_leaveTile.
Qed.

Lemma grid_ok_leaveTile g : grid_ok (grid (leaveTile g)) = grid_ok (grid g).
Proof.
  unfold leaveTile. cbn zeta. cbn [grid set_grid].
  destruct (getTile _ _ _) as [t|]; cbn [grid set_grid];
    [|by rewrite grid_ok_updTile].
  destruct (ruleFires _ _); cbn [crystallizeAt grid set_grid set_crystallized];
    by rewrite ?grid_ok_updTile.
Qed.

Lemma grid_ok_stepGame dx dy darch m g :
  grid_ok (grid (stepGame dx dy darch m g)) = grid_ok (grid g).
Proof.
  unfold stepGame, moved.
  rewrite grid_tick, (grid_ok_fmap _ _ decayTile_coords), grid_set_message.
  transitivity (grid_ok (grid (arrive dx dy darch (leaveTile g)))).
  - unfold promote. destruct (getTile _ _ _) as [d|]; [|done].
    destruct (bool_decide _); [|done]. cbn [grid set_grid].
    by rewrite grid_ok_updTile.
  - unfold arrive. cbn [grid set_grid set_message set_moveCount
      set_recentPositions set_recentArchetypes set_recentDirections set_player].
    rewrite grid_ok_updTile by apply enter_coords. apply grid_ok_leaveTile.
Qed.

(** ** The three ways [attemptMove] ends *)

Lemma set_message_id g : set_message (message g) g = g.
Proof. by destruct g. Qed.

Lemma session_ok_spec g :
  session_ok g = true <-> grid_ok (grid g) = true /\ InGrid (player g).
Proof. unfold session_ok. by rewrite andb_true_iff, inGrid_spec. Qed.

Lemma moveAccepted_spec dx dy g :
  moveAccepted dx dy g = true
  <-> outOfGrid (pos_x (player g) + dx) (pos_y (player g) + dy) = false
      /\ exists d, getTile (grid g) (pos_x (player g) + dx) (pos_y (player g) + dy) = Some d
                   /\ state d <> Wall.
Proof.
  unfold moveAccepted. cbn zeta. rewrite andb_true_iff, negb_true_iff.
  split; intros [Hout H]; (split; [done|]).
  - destruct (getTile _ _ _) as [d|]; [|done]. exists d. split; [done|].
    unfold isWall in H. apply negb_true_iff in H. by apply bool_decide_eq_false in H.
  - destruct H as (d & -> & Hd). unfold isWall. apply negb_true_iff.
    by apply bool_decide_eq_false.
Qed.

Lemma attemptMove_no_session dx dy w : game w = None -> attemptMove dx dy w = Done w.
Proof. intros Hg. unfold attemptMove. by rewrite Hg. Qed.

Lemma attemptMove_outside dx dy w g :
  game w = Some g ->
  outOfGrid (pos_x (player g) + dx) (pos_y (player g) + dy) = true ->
  attemptMove dx dy w = Done w.
Proof. intros Hg Hout. unfold attemptMove. by rewrite Hg, Hout. Qed.

Lemma attemptMove_blocked dx dy w g d :
  game w = Some g ->
  outOfGrid (pos_x (player g) + dx) (pos_y (player g) + dy) = false ->
  getTile (grid g) (pos_x (player g) + dx) (pos_y (player g) + dy) = Some d ->
  state d = Wall ->
  attemptMove dx dy w = Done (flashed "Crystallized path blocks the way." g w).
Proof.
  intros Hg Hout Hd Hw. unfold attemptMove. rewrite Hg, Hout, Hd. res_step.
  rewrite bool_decide_true by done. by apply flashMessage_spec.
Qed.

Lemma attemptMove_accepted_shown dx dy w g :
  game w = Some g -> session_ok g = true -> moveAccepted dx dy g = true ->
  exists d m,
    getTile (grid g) (pos_x (player g) + dx) (pos_y (player g) + dy) = Some d
    /\ state d <> Wall
    /\ attemptMove dx dy w = Done (shown (stepGame dx dy (archetype d) m g)).
Proof.
  intros Hg [Hgr HP]%session_ok_spec (Hout & d & Hd & Hw)%moveAccepted_spec.
  apply grid_ok_sound in Hgr.
  destruct (attemptMove_accepted dx dy w g d Hg Hgr HP Hout Hd Hw) as (d' & Hd' & Hfin).
  cbn zeta in Hd', Hfin. unfold finishes in Hfin. unfold stepGame.
  destruct (bool_decide (state d' = Exit)) eqn:Hexit.
  - apply bool_decide_eq_true in Hexit.
    exists d, "Exit reached. The maze remembers your path.". do 2 (split; [done|]).
    rewrite Hfin. unfold promote. rewrite Hd'.
    rewrite bool_decide_false by (by rewrite Hexit). done.
  - destruct Hfin as (reachable & trapped & _ & _ & ->).
    destruct (failureMessage reachable trapped) as [m|]; cbn [withMessage].
    + by exists d, m.
    + exists d, (message (promote (moved dx dy (archetype d) g))).
      do 2 (split; [done|]). by rewrite set_message_id.
Qed.

(** ** Sequences of moves *)

(** What a single call does to a well-formed session, whichever way it
    ends: the session stays well formed, frozen tiles keep their state, the
    exit stays where it is, and counter and grid move together. *)
Lemma attemptMove_preserves dx dy w g :
  game w = Some g -> session_ok g = true ->
  exists w' g',
    attemptMove dx dy w = Done w' /\ game w' = Some g'
    /\ session_ok g' = true
    /\ exit g' = exit g
    /\ (forall x y s, stateAt g x y = Some s -> frozen s -> stateAt g' x y = Some s)
    /\ crystallized g' - wallCount (grid g') = crystallized g - wallCount (grid g)
    /\ moveCount g' = (if moveAccepted dx dy g then moveCount g + 1 else moveCount g).
Proof.
  intros Hg Hok.
  destruct (moveAccepted dx dy g) eqn:Hacc.
  - destruct (attemptMove_accepted_shown dx dy w g Hg Hok Hacc) as (d & m & Hd & Hw & ->).
    apply moveAccepted_spec in Hacc as (Hout & _).
    apply session_ok_spec in Hok as [Hgr HP].
    destruct (stepGame_fields dx dy (archetype d) m g)
      as (Hpl & Hex & Hmc & _).
    eexists _, _. split; [done|]. split; [done|].
    split.
    { apply session_ok_spec. rewrite grid_ok_stepGame. split; [done|].
      rewrite Hpl. by apply outOfGrid_false. }
    split; [done|]. split; [by intros; apply stateAt_stepGame_frozen|].
    split; [apply counter_stepGame|done].
  - destruct (outOfGrid (pos_x (player g) + dx) (pos_y (player g) + dy)) eqn:Hout.
    + rewrite (attemptMove_outside dx dy w g Hg Hout). by eexists _, _.
    + pose proof Hok as [Hgr HP]%session_ok_spec. apply grid_ok_sound in Hgr.
      pose proof Hout as [Hx Hy]%outOfGrid_false.
      destruct (Hgr _ _ Hx Hy) as (d & Hd & _).
      assert (state d = Wall) as Hw.
      { unfold moveAccepted in Hacc. cbn zeta in Hacc. rewrite Hout, Hd in Hacc.
        unfold isWall in Hacc. simpl in Hacc. apply negb_false_iff in Hacc.
        by apply bool_decide_eq_true in Hacc. }
      rewrite (attemptMove_blocked dx dy w g d Hg Hout Hd Hw).
      by eexists _, _.
Qed.

Lemma attemptMoves_preserves ms w g :
  game w = Some g -> session_ok g = true ->
  exists w' g',
    attemptMoves ms w = Done w' /\ game w' = Some g'
    /\ session_ok g' = true
    /\ exit g' = exit g
    /\ (forall x y s, stateAt g x y = Some s -> frozen s -> stateAt g' x y = Some s)
    /\ crystallized g' - wallCount (grid g') = crystallized g - wallCount (grid g).
Proof.
  revert w g. induction ms as [|[dx dy] ms IH]; intros w g Hg Hok.
  - exists w, g. by repeat split.
  - cbn [attemptMoves].
    destruct (attemptMove_preserves dx dy w g Hg Hok)
      as (w1 & g1 & -> & Hg1 & Hok1 & Hex1 & Hfr1 & Hc1 & _). res_step.
    destruct (IH w1 g1 Hg1 Hok1) as (w2 & g2 & -> & Hg2 & Hok2 & Hex2 & Hfr2 & Hc2).
    exists w2, g2. split; [done|]. split; [done|]. split; [done|].
    split; [congruence|]. split; [by eauto|]. congruence.
Qed.

(** ** Rejected and accepted moves *)

(** C2. A move whose destination tile is a wall changes nothing but the
    message: player, move counter, grid and the three history buffers are
    as before, and both the session and the status line carry the blocked
    message. *)
Theorem C2_wall_destination_rejected dx dy w g d :
  game w = Some g ->
  outOfGrid (pos_x (player g) + dx) (pos_y (player g) + dy) = false ->
  getTile (grid g) (pos_x (player g) + dx) (pos_y (player g) + dy) = Some d ->
  state d = Wall ->
  exists w' g',
    attemptMove dx dy w = Done w' /\ game w' = Some g'
    /\ player g' = player g /\ moveCount g' = moveCount g /\ grid g' = grid g
    /\ recentDirections g' = recentDirections g
    /\ recentArchetypes g' = recentArchetypes g
    /\ recentPositions g' = recentPositions g
    /\ message g' = "Crystallized path blocks the way."
    /\ statusEl w' = "Crystallized path blocks the way.".
Proof.
  intros Hg Hout Hd Hw.
  rewrite (attemptMove_blocked dx dy w g d Hg Hout Hd Hw).
  eexists _, _. split; [reflexivity|]. split; [reflexivity|]. by repeat split.
Qed.

(** Seed 0, after east, east, south, west: the player stands at (2, 2)
    below the hardened tile (2, 1), and moves north. *)
Lemma C2_witness :
  let w := theWorld (play 0 [east; east; south; west]) in
  let g := theSession w in
  stateAt g 2 1 = Some Wall /\
  exists w' g',
    attemptMove 0 (-1) w = Done w' /\ game w' = Some g'
    /\ player g' = player g /\ moveCount g' = moveCount g /\ grid g' = grid g
    /\ recentDirections g' = recentDirections g
    /\ recentArchetypes g' = recentArchetypes g
    /\ recentPositions g' = recentPositions g
    /\ message g' = "Crystallized path blocks the way."
    /\ statusEl w' = "Crystallized path blocks the way.".
Proof.
  intros w g. split; [by_compute|].
  assert (Hd : exists d, getTile (grid g) (pos_x (player g) + 0) (pos_y (player g) + -1) = Some d
                         /\ state d = Wall).
  { vm_compute. eexists. split; reflexivity. }
  destruct Hd as (d & Hd & Hw).
  apply (C2_wall_destination_rejected 0 (-1) w g d); [by_compute|by_compute|done|done].
Defined.

(** C6. [attemptMove] adds exactly one to [moveCount] when the move is
    accepted (a session is active, the destination is inside the grid and
    is not a wall) and leaves it alone in every other case: without a
    session nothing happens at all, and with one the counter stays when the
    destination is off the grid or a wall. *)
Theorem C6_moveCount_counts_accepted_moves dx dy w :
  (game w = None -> attemptMove dx dy w = Done w)
  /\ (forall g, game w = Some g -> session_ok g = true ->
        exists w' g',
          attemptMove dx dy w = Done w' /\ game w' = Some g'
          /\ (outOfGrid (pos_x (player g) + dx) (pos_y (player g) + dy) = true ->
              moveCount g' = moveCount g)
          /\ (stateAt g (pos_x (player g) + dx) (pos_y (player g) + dy) = Some Wall ->
              moveCount g' = moveCount g)
          /\ (outOfGrid (pos_x (player g) + dx) (pos_y (player g) + dy) = false ->
              stateAt g (pos_x (player g) + dx) (pos_y (player g) + dy) <> Some Wall ->
              moveCount g' = moveCount g + 1)).
Proof.
  split; [apply attemptMove_no_session|].
  intros g Hg Hok.
  destruct (attemptMove_preserves dx dy w g Hg Hok) as (w' & g' & H1 & H2 & _ & _ & _ & _ & H3).
  exists w', g'. split; [done|]. split; [done|].
  unfold moveAccepted, stateAt in *. cbn zeta in H3.
  destruct (outOfGrid _ _) eqn:Hout0; cbn [negb andb] in H3.
  - split; [done|]. split; [|done]. intros _. exact H3.
  - split; [done|].
    destruct (getTile _ _ _) as [d|] eqn:Hd0; cbn [fmap option_fmap option_map].
    + unfold isWall in H3. destruct (decide (state d = Wall)) as [E|E].
      * rewrite (bool_decide_true _ E) in H3. cbn [negb] in H3.
        split; [by intros _|]. intros _ Hn. by rewrite E in Hn.
      * rewrite (bool_decide_false _ E) in H3. cbn [negb] in H3.
        split; [intros [= ?]; done|]. by intros _ _.
    + split; [done|]. intros _ _. exfalso.
      apply session_ok_spec in Hok as [Hgr _]. apply grid_ok_sound in Hgr.
      apply outOfGrid_false in Hout0 as [Hx Hy].
      destruct (Hgr _ _ Hx Hy) as (d & Hd & _). rewrite Hd0 in Hd. done.
Qed.

(** Seed 0, after east, east, south, west (four accepted moves): north is
    blocked by a wall and leaves the counter at 4, south is accepted and
    raises it to 5. *)
Lemma C6_witness :
  let w := theWorld (play 0 [east; east; south; west]) in
  let g := theSession w in
  (stateAt g (pos_x (player g) + 0) (pos_y (player g) + -1) = Some Wall
   /\ exists w' g', attemptMove 0 (-1) w = Done w' /\ game w' = Some g' /\ moveCount g' = 4)
  /\ (stateAt g (pos_x (player g) + 0) (pos_y (player g) + 1) = Some Neutral
      /\ exists w' g', attemptMove 0 1 w = Done w' /\ game w' = Some g' /\ moveCount g' = 5).
Proof.
  intros w g.
  assert (Hg : game w = Some g) by by_compute.
  assert (Hok : session_ok g = true) by by_compute.
  assert (Hmc : moveCount g = 4) by by_compute.
  split.
  - assert (Hwall : stateAt g (pos_x (player g) + 0) (pos_y (player g) + -1) = Some Wall)
      by by_compute.
    split; [exact Hwall|].
    destruct (proj2 (C6_moveCount_counts_accepted_moves 0 (-1) w) g Hg Hok)
      as (w' & g' & H1 & H2 & _ & H3 & _).
    exists w', g'. split; [exact H1|]. split; [exact H2|].
    rewrite (H3 Hwall). exact Hmc.
  - assert (Hfree : stateAt g (pos_x (player g) + 0) (pos_y (player g) + 1) = Some Neutral)
      by by_compute.
    split; [exact Hfree|].
    destruct (proj2 (C6_moveCount_counts_accepted_moves 0 1 w) g Hg Hok)
      as (w' & g' & H1 & H2 & _ & _ & H3).
    exists w', g'. split; [exact H1|]. split; [exact H2|].
    rewrite H3; [by rewrite Hmc|by_compute|rewrite Hfree; discriminate].
Defined.

(** ** Walls and the exit are permanent *)

(** C3. Once a tile is a wall it stays a wall: after any series of calls
    to [attemptMove], accepted or not, its state is still [Wall]. *)
Theorem C3_wall_is_permanent ms w g x y :
  game w = Some g -> session_ok g = true ->
  stateAt g x y = Some Wall ->
  exists w' g',
    attemptMoves ms w = Done w' /\ game w' = Some g' /\ stateAt g' x y = Some Wall.
Proof.
  intros Hg Hok Hwall.
  destruct (attemptMoves_preserves ms w g Hg Hok) as (w' & g' & H1 & H2 & _ & _ & Hfr & _).
  exists w', g'. split; [done|]. split; [done|]. apply Hfr; [done|by left].
Qed.

(** Seed 0: the start tile (1, 1) hardens on the first move; a walk around
    it and back against it leaves it a wall. *)
Lemma C3_witness :
  let w := theWorld (play 0 [east]) in
  let g := theSession w in
  stateAt g 1 1 = Some Wall /\
  exists w' g',
    attemptMoves [south; west; north; east; west; east] w = Done w'
    /\ game w' = Some g' /\ stateAt g' 1 1 = Some Wall.
Proof.
  intros w g.
  assert (Hwall : stateAt g 1 1 = Some Wall) by by_compute.
  split; [exact Hwall|].
  apply (C3_wall_is_permanent _ w g 1 1); [by_compute|by_compute|exact Hwall].
Defined.

(** C4. The tile at the exit coordinate is always the exit: after any series
    of calls to [attemptMove] (entering it and leaving it included) the exit
    coordinate is the same and its tile still has state [Exit].  Its rule
    never fires: [applyTileRule] on that tile changes nothing, neither as
    the session stands nor at the point where [attemptMove] calls it, with
    the tile's [leaveCount] just raised. *)
Theorem C4_exit_never_hardens ms w g :
  game w = Some g -> session_ok g = true -> exit_ok g = true ->
  exists w' g',
    attemptMoves ms w = Done w' /\ game w' = Some g'
    /\ exit g' = exit g
    /\ stateAt g' (pos_x (exit g')) (pos_y (exit g')) = Some Exit
    /\ applyTileRule (pos_x (exit g')) (pos_y (exit g')) w' = Done w'
    /\ let left := set_game (set_grid (updTile bump (pos_x (exit g')) (pos_y (exit g'))
                                         (grid g')) g') w' in
       applyTileRule (pos_x (exit g')) (pos_y (exit g')) left = Done left.
Proof.
  intros Hg Hok Hex.
  destruct (attemptMoves_preserves ms w g Hg Hok) as (w' & g' & H1 & H2 & _ & He & Hfr & _).
  exists w', g'. split; [done|]. split; [done|]. split; [done|].
  assert (Hst : stateAt g' (pos_x (exit g')) (pos_y (exit g')) = Some Exit).
  { rewrite He. apply Hfr; [|by right]. unfold exit_ok in Hex. unfold stateAt.
    destruct (getTile _ _ _) as [t|]; [|done]. apply bool_decide_eq_true in Hex.
    simpl. by rewrite Hex. }
  split; [done|]. unfold stateAt in Hst.
  destruct (getTile (grid g') _ _) as [t|] eqn:Ht; [|done].
  injection Hst as Hst.
  assert (Hno : forall t' g0, state t' = Exit -> ruleFires t' g0 = false).
  { intros t' g0 E. unfold ruleFires. rewrite (bool_decide_true (state t' = Exit)) by done.
    by rewrite orb_true_r. }
  split.
  - by rewrite (applyTileRule_spec _ _ w' g' t H2 Ht), Hno.
  - cbn zeta. erewrite (applyTileRule_spec _ _ _ _ (bump t)); [|reflexivity|].
    + by rewrite Hno.
    + cbn [grid set_grid]. by rewrite getTile_updTile_eq, Ht.
Qed.

(** Seed 0: the walk reaches the exit, steps off it to the west, back onto
    it, and then north against the tile it came from, a wall by then. *)
Lemma C4_witness :
  let w := theWorld (play 0 []) in
  let g := theSession w in
  exists w' g',
    attemptMoves (walkToExit ++ [west; east; north]) w = Done w' /\ game w' = Some g'
    /\ exit g' = exit g
    /\ stateAt g' (pos_x (exit g')) (pos_y (exit g')) = Some Exit
    /\ applyTileRule (pos_x (exit g')) (pos_y (exit g')) w' = Done w'.
Proof.
  intros w g.
  destruct (C4_exit_never_hardens (walkToExit ++ [west; east; north]) w g)
    as (w' & g' & H1 & H2 & H3 & H4 & H5 & _); [by_compute..|].
  exists w', g'. exact (conj H1 (conj H2 (conj H3 (conj H4 H5)))).
Defined.

(** ** A trapped player has no route *)

Lemma trapped_visitNeighbours gr p dirs visited queue :
  VisitedOk visited ->
  isTrapped_every dirs p gr = Done true ->
  visitNeighbours gr p dirs (visited, queue) = Done (visited, queue).
Proof.
  intros HV. induction dirs as [|dir dirs IH]; [done|].
  cbn [isTrapped_every visitNeighbours]. unfold visitNeighbour.
  destruct (outOfGrid _ _) eqn:Hout.
  - res_step. exact IH.
  - apply outOfGrid_false in Hout as [Hx Hy].
    destruct (HV _ _ Hx Hy) as [seen ->]. res_step.
    destruct (getTile gr _ _) as [t|]; res_step; [|done].
    destruct (bool_decide (state t = Wall)); [|done].
    intros Htr. destruct seen; res_step; by apply IH.
Qed.

Lemma trapped_pathExists p goal gr :
  InGrid p ->
  isTrapped p gr = Done true ->
  (pos_x p, pos_y p) <> (pos_x goal, pos_y goal) ->
  pathExists p goal gr = Done false.
Proof.
  intros [Hx Hy] Htr Hne. unfold pathExists.
  set (visited := replicate (Z.to_nat gridSize) (replicate (Z.to_nat gridSize) false)).
  assert (HV : VisitedOk visited).
  { intros x y Hx' Hy'. exists false. apply getTile_replicate; unfold gridSize in *; lia. }
  destruct (HV _ _ Hx Hy) as [b Hb].
  destruct (getTile_getRow _ _ _ _ Hb) as [row ->]. res_step.
  change (Z.to_nat (gridSize * gridSize + 1)) with (S (S 323)).
  cbn [pathExists_loop].
  assert ((pos_x p =? pos_x goal) && (pos_y p =? pos_y goal) = false) as ->.
  { apply andb_false_iff.
    destruct (decide (pos_x p = pos_x goal)) as [E|E]; [right|left]; apply Z.eqb_neq; [|done].
    intros E'. apply Hne. by rewrite E, E'. }
  rewrite (trapped_visitNeighbours gr p directions); [done| |exact Htr].
  by apply VisitedOk_updTile.
Qed.

Lemma isTrapped_every_decay dirs p (gr : Grid) :
  isTrapped_every dirs p (fmap (M := list) decayTile <$> gr) = isTrapped_every dirs p gr.
Proof.
  induction dirs as [|dir dirs IH]; [done|]. cbn [isTrapped_every].
  rewrite IH, getTile_fmap.
  destruct (outOfGrid _ _); [done|].
  destruct (getTile gr _ _) as [t|]; [|done]. simpl. by rewrite decayTile_state.
Qed.

Lemma isTrapped_decay p (gr : Grid) :
  isTrapped p (fmap (M := list) decayTile <$> gr) = isTrapped p gr.
Proof. apply isTrapped_every_decay. Qed.

(** A tile that is the exit after the player has moved was the exit before. *)
Lemma stateAt_moved_exit dx dy darch g x y :
  stateAt (moved dx dy darch g) x y = Some Exit -> stateAt g x y = Some Exit.
Proof.
  unfold moved. rewrite stateAt_arrive. unfold stateAt, leaveTile. cbn zeta.
  cbn [grid set_grid].
  destruct (getTile (updTile bump _ _ _) (pos_x (player g)) (pos_y (player g))) as [t|];
    [|cbn [grid set_grid]; by rewrite state_updTile_same].
  destruct (ruleFires t _); [|cbn [grid set_grid]; by rewrite state_updTile_same].
  cbn [crystallizeAt grid set_grid set_crystallized].
  rewrite getTile_updTile. destruct (decide _) as [[= <- <-]|_].
  - destruct (getTile _ _ _); done.
  - rewrite option_fmap_id. by rewrite state_updTile_same.
Qed.

(** C1, as the script has it.  After an accepted move that does not reach
    the exit, a player whose four neighbours are all walls or off the grid is
    shown the reachability message, never the entrapment message:
    [checkFailure] tests [isTrapped] only when a route exists, and a trapped
    player off the exit has none. *)
Theorem C1_trapped_player_is_told_no_route dx dy w g :
  game w = Some g -> session_ok g = true -> exit_ok g = true ->
  moveAccepted dx dy g = true ->
  stateAt g (pos_x (player g) + dx) (pos_y (player g) + dy) <> Some Exit ->
  exists w' g',
    attemptMove dx dy w = Done w' /\ game w' = Some g'
    /\ (isTrapped (player g') (grid g') = Done true ->
        message g' = "The maze has sealed. No route remains."
        /\ statusEl w' = "The maze has sealed. No route remains."
        /\ statusEl w' <> "You are sealed inside your own pattern.").
Proof.
  intros Hg [Hgr HP]%session_ok_spec Hex (Hout & d & Hd & Hw)%moveAccepted_spec Hnot.
  apply grid_ok_sound in Hgr.
  destruct (attemptMove_accepted dx dy w g d Hg Hgr HP Hout Hd Hw) as (d' & Hd' & Hfin).
  cbn zeta in Hd', Hfin. set (g1 := moved dx dy (archetype d) g) in *.
  pose proof (player_moved dx dy (archetype d) g) as Hp1. fold g1 in Hp1.
  assert (Hne : state d' <> Exit).
  { intros E. apply Hnot. apply (stateAt_moved_exit dx dy (archetype d)). fold g1.
    unfold stateAt. rewrite Hp1 in Hd'. cbn [pos_x pos_y] in Hd'. rewrite Hd'.
    simpl. by rewrite E. }
  unfold finishes in Hfin. rewrite (bool_decide_false _ Hne) in Hfin.
  destruct Hfin as (reachable & trapped & Hr & Ht & ->).
  eexists _, _. split; [reflexivity|]. split; [reflexivity|].
  destruct (tick_fields (withMessage (failureMessage reachable trapped) (promote g1)))
    as (Hpl & _ & _ & _ & _ & _ & _ & _ & Hmsg).
  rewrite grid_tick, isTrapped_decay, Hpl.
  assert (Hwm : forall o, player (withMessage o (promote g1)) = player g1
                          /\ grid (withMessage o (promote g1)) = grid (promote g1)).
  { intros [m|]; cbn [withMessage]; rewrite ?grid_set_message;
    [destruct (set_message_fields m (promote g1)) as (-> & _)|]; by rewrite player_promote. }
  destruct (Hwm (failureMessage reachable trapped)) as [-> ->].
  rewrite Ht. intros [= ->].
  assert (reachable = false) as ->.
  { assert (He1 : exit g1 = exit g).
    { unfold g1, moved. destruct (arrive_fields dx dy (archetype d) (leaveTile g))
        as (_ & -> & _). by destruct (leaveTile_fields g) as (_ & -> & _). }
    assert (Hn : (pos_x (player g1), pos_y (player g1)) <> (pos_x (exit g1), pos_y (exit g1))).
    { rewrite He1. intros Exy. apply Hne.
      assert (Hst : stateAt g1 (pos_x (exit g)) (pos_y (exit g)) = Some Exit).
      { unfold g1, moved. rewrite stateAt_arrive.
        apply stateAt_leaveTile_frozen; [|by right].
        unfold exit_ok in Hex. unfold stateAt.
        destruct (getTile _ _ _) as [t|]; [|done]. apply bool_decide_eq_true in Hex.
        simpl. by rewrite Hex. }
      unfold stateAt in Hst.
      assert (Ex : pos_x (exit g) = pos_x (player g1)) by congruence.
      assert (Ey : pos_y (exit g) = pos_y (player g1)) by congruence.
      rewrite Ex, Ey, Hd' in Hst. by injection Hst. }
    pose proof (trapped_pathExists (player g1) (exit g1) (grid (promote g1))) as Hpe.
    rewrite Hr in Hpe. assert (Done reachable = Done false) as [= ->]; [|done].
    apply Hpe; [|done|done]. rewrite Hp1. by apply outOfGrid_false. }
  cbn [failureMessage negb withMessage] in Hmsg |- *.
  unfold drawn. cbn [statusEl]. rewrite Hmsg. cbn [message set_message].
  by repeat split.
Qed.

(** Seed 0.875, after north, west, south the player is at (0, 1); the move
    north takes it into the corner (0, 0), whose two neighbours (1, 0) and
    (0, 1) have both hardened behind it. *)
Lemma C1_witness :
  let w := theWorld (play 0.875 [north; west; south]) in
  exists w' g',
    attemptMove 0 (-1) w = Done w' /\ game w' = Some g'
    /\ player g' = {| pos_x := 0; pos_y := 0 |}
    /\ isTrapped (player g') (grid g') = Done true
    /\ message g' = "The maze has sealed. No route remains."
    /\ statusEl w' = "The maze has sealed. No route remains."
    /\ statusEl w' <> "You are sealed inside your own pattern.".
Proof.
  intros w. set (g := theSession w).
  assert (Hg : game w = Some g) by by_compute.
  assert (Hok : session_ok g = true) by by_compute.
  assert (Hex : exit_ok g = true) by by_compute.
  assert (Hacc : moveAccepted 0 (-1) g = true) by by_compute.
  assert (Hnot : stateAt g (pos_x (player g) + 0) (pos_y (player g) + -1) <> Some Exit)
    by by_compute.
  destruct (C1_trapped_player_is_told_no_route 0 (-1) w g Hg Hok Hex Hacc Hnot)
    as (w' & g' & Hw' & Hg' & Hmsg).
  assert (Hrun : attemptMove 0 (-1) w = Done (theWorld (attemptMove 0 (-1) w)))
    by by_compute.
  assert (Ew : w' = theWorld (attemptMove 0 (-1) w)) by congruence.
  assert (Eg : g' = theSession (theWorld (attemptMove 0 (-1) w))).
  { rewrite <- Ew. unfold theSession. by rewrite Hg'. }
  assert (Htr : isTrapped (player g') (grid g') = Done true).
  { rewrite Eg. by_compute. }
  exists w', g'. split; [exact Hw'|]. split; [exact Hg'|].
  split; [rewrite Eg; by_compute|]. split; [exact Htr|]. exact (Hmsg Htr).
Defined.

(** ** Hardening the tile that is left *)

Lemma stateAt_leaveTile_fires g c :
  getTile (grid g) (pos_x (player g)) (pos_y (player g)) = Some c ->
  ruleFires (bump c)
    (set_grid (updTile bump (pos_x (player g)) (pos_y (player g)) (grid g)) g) = true ->
  stateAt (leaveTile g) (pos_x (player g)) (pos_y (player g)) = Some Wall.
Proof.
  intros Hc Hf. rewrite (leaveTile_eq g c Hc). cbn zeta. rewrite Hf.
  unfold stateAt, crystallizeAt. cbn [grid set_grid set_crystallized].
  by rewrite !getTile_updTile_eq, Hc.
Qed.

Lemma stateAt_stepGame_fires dx dy darch m g c :
  getTile (grid g) (pos_x (player g)) (pos_y (player g)) = Some c ->
  ruleFires (bump c)
    (set_grid (updTile bump (pos_x (player g)) (pos_y (player g)) (grid g)) g) = true ->
  stateAt (stepGame dx dy darch m g) (pos_x (player g)) (pos_y (player g)) = Some Wall.
Proof.
  intros Hc Hf. unfold stepGame, moved.
  rewrite stateAt_tick, stateAt_set_message.
  apply stateAt_promote_frozen; [|by left]. rewrite stateAt_arrive.
  by apply stateAt_leaveTile_fires with c.
Qed.

(** An accepted move hardens the tile it leaves whenever that tile is
    neither wall nor exit and its trigger holds at that moment: after the
    tile's [leaveCount] went up and before the move enters the histories. *)
Lemma attemptMove_hardens_left_tile dx dy w g c :
  game w = Some g -> session_ok g = true -> moveAccepted dx dy g = true ->
  getTile (grid g) (pos_x (player g)) (pos_y (player g)) = Some c ->
  state c <> Wall -> state c <> Exit ->
  trigger (archetype c) (bump c)
    (set_grid (updTile bump (pos_x (player g)) (pos_y (player g)) (grid g)) g) = true ->
  exists w' g',
    attemptMove dx dy w = Done w' /\ game w' = Some g'
    /\ stateAt g' (pos_x (player g)) (pos_y (player g)) = Some Wall.
Proof.
  intros Hg Hok Hacc Hc Hw He Htr.
  destruct (attemptMove_accepted_shown dx dy w g Hg Hok Hacc) as (d & m & _ & _ & ->).
  eexists _, _. split; [reflexivity|]. split; [reflexivity|].
  apply stateAt_stepGame_fires with c; [done|].
  unfold ruleFires. cbn [state bump set_leaveCount archetype].
  rewrite (bool_decide_false _ Hw), (bool_decide_false _ He). exact Htr.
Qed.

(** *** The history buffers *)

Lemma push_capped_snoc {A} cap (l : list A) v :
  1 <= cap -> exists l', push_capped cap l v = l' ++ [v].
Proof.
  intros Hcap. unfold push_capped.
  destruct (cap <? Z.of_nat (length (l ++ [v]))) eqn:Hlt; [|by exists l].
  destruct l as [|a l]; [|by exists l].
  apply Z.ltb_lt in Hlt. simpl in Hlt. lia.
Qed.

Lemma push_capped_twice {A} cap (l : list A) v :
  2 <= cap -> exists l', push_capped cap (push_capped cap l v) v = l' ++ [v; v].
Proof.
  intros Hcap. destruct (push_capped_snoc cap l v) as [l1 ->]; [lia|].
  unfold push_capped.
  destruct (cap <? Z.of_nat (length ((l1 ++ [v]) ++ [v]))) eqn:Hlt.
  - destruct l1 as [|a l1].
    + apply Z.ltb_lt in Hlt. simpl in Hlt. lia.
    + exists l1. simpl. by rewrite <- app_assoc.
  - exists l1. by rewrite <- app_assoc.
Qed.

Lemma slice_from_last_two {A} (l : list A) a b :
  slice_from (-2) (l ++ [a; b]) = [a; b].
Proof.
  unfold slice_from. rewrite length_app. cbn [length].
  replace (-2 <? 0) with true by done.
  replace (Z.to_nat (Z.max (Z.of_nat (length l + 2) + -2) 0)) with (length l) by lia.
  by rewrite drop_app_length.
Qed.

Lemma slice_from_nil {A} k : slice_from k (@nil A) = [].
Proof. unfold slice_from. by rewrite drop_nil. Qed.

(** After two pushes of the same direction the repeat detector holds. *)
Lemma sequence_trigger_after_repeat (l : list string) v :
  let arr := slice_from (-2) (push_capped 12 (push_capped 12 l v) v) in
  forallb (fun d => bool_decide (Some d = arr !! 0%nat)) arr = true.
Proof.
  destruct (push_capped_twice 12 l v) as [l' ->]; [lia|].
  rewrite slice_from_last_two. cbn. by rewrite bool_decide_true.
Qed.


(** ** Entering a tile never hardens it *)

Lemma stateAt_leaveTile_other g x y :
  (pos_x (player g), pos_y (player g)) <> (x, y) ->
  stateAt (leaveTile g) x y = stateAt g x y.
Proof.
  intros Hne. unfold stateAt, leaveTile. cbn zeta. cbn [grid set_grid].
  destruct (getTile (updTile bump _ _ _) (pos_x (player g)) (pos_y (player g))) as [t|];
    [|cbn [grid set_grid]; by rewrite state_updTile_same].
  destruct (ruleFires t _); [|cbn [grid set_grid]; by rewrite state_updTile_same].
  cbn [crystallizeAt grid set_grid set_crystallized].
  rewrite getTile_updTile_ne by done. by rewrite state_updTile_same.
Qed.

Lemma stateAt_promote_not_wall g x y s :
  stateAt g x y = Some s -> s <> Wall ->
  exists s', stateAt (promote g) x y = Some s' /\ s' <> Wall.
Proof.
  unfold stateAt, promote. intros Hs Hw.
  destruct (getTile (grid g) (pos_x (player g)) (pos_y (player g))) as [d|]; [|by eauto].
  destruct (bool_decide (state d = Neutral)); [|by eauto].
  cbn [grid set_grid]. rewrite getTile_updTile.
  destruct (getTile (grid g) x y) as [t|]; [|done]. injection Hs as <-.
  destruct (decide _); simpl; eauto.
Qed.

(** The tile a move enters is not a wall when the move is over, unless the
    move goes nowhere ([dx = dy = 0]). *)
Lemma attemptMove_entered_tile_not_wall dx dy w g :
  game w = Some g -> session_ok g = true -> moveAccepted dx dy g = true ->
  (dx, dy) <> (0, 0) ->
  exists w' g' s,
    attemptMove dx dy w = Done w' /\ game w' = Some g'
    /\ stateAt g' (pos_x (player g) + dx) (pos_y (player g) + dy) = Some s
    /\ s <> Wall.
Proof.
  intros Hg Hok Hacc Hne.
  destruct (attemptMove_accepted_shown dx dy w g Hg Hok Hacc) as (d & m & Hd & Hw & ->).
  assert (Hs : stateAt (moved dx dy (archetype d) g)
                 (pos_x (player g) + dx) (pos_y (player g) + dy) = Some (state d)).
  { unfold moved. rewrite stateAt_arrive, stateAt_leaveTile_other.
    - unfold stateAt. by rewrite Hd.
    - intros [= Ex Ey]. apply Hne. f_equal; lia. }
  destruct (stateAt_promote_not_wall _ _ _ _ Hs Hw) as (s' & Hs' & Hw').
  eexists _, _, s'. split; [reflexivity|]. split; [reflexivity|].
  unfold stepGame. by rewrite stateAt_tick, stateAt_set_message.
Qed.

(** C8, as the script has it.  The repeat detector reads the directions of
    the moves already made, not the one under way.  After two consecutive
    accepted moves in the same direction, the next accepted move (in any
    direction) hardens the tile it leaves, if that tile has archetype
    sequence and is neither wall nor exit. *)
Theorem C8_sequence_hardens_after_two_repeats dx dy dx' dy' w g w1 g1 w2 g2 c :
  game w = Some g -> session_ok g = true ->
  moveAccepted dx dy g = true ->
  attemptMove dx dy w = Done w1 -> game w1 = Some g1 ->
  moveAccepted dx dy g1 = true ->
  attemptMove dx dy w1 = Done w2 -> game w2 = Some g2 ->
  getTile (grid g2) (pos_x (player g2)) (pos_y (player g2)) = Some c ->
  archetype c = Sequence -> state c <> Wall -> state c <> Exit ->
  moveAccepted dx' dy' g2 = true ->
  exists w3 g3,
    attemptMove dx' dy' w2 = Done w3 /\ game w3 = Some g3
    /\ stateAt g3 (pos_x (player g2)) (pos_y (player g2)) = Some Wall.
Proof.
  intros Hg Hok Hacc Hw1 Hg1 Hacc1 Hw2 Hg2 Hc Harch Hwall Hexit Hacc2.
  destruct (attemptMove_preserves dx dy w g Hg Hok) as (w1' & g1' & Hw1' & Hg1' & Hok1 & _).
  rewrite Hw1 in Hw1'. injection Hw1' as <-. rewrite Hg1 in Hg1'. injection Hg1' as <-.
  destruct (attemptMove_preserves dx dy w1 g1 Hg1 Hok1) as (w2' & g2' & Hw2' & Hg2' & Hok2 & _).
  rewrite Hw2 in Hw2'. injection Hw2' as <-. rewrite Hg2 in Hg2'. injection Hg2' as <-.
  assert (Hrd : recentDirections g2
                = push_capped 12 (push_capped 12 (recentDirections g)
                                    (default "none" (dirNameOf dx dy)))
                    (default "none" (dirNameOf dx dy))).
  { destruct (attemptMove_accepted_shown dx dy w g Hg Hok Hacc) as (d & m & _ & _ & Hs).
    rewrite Hw1 in Hs. injection Hs as ->. cbn [game shown] in Hg1. injection Hg1 as <-.
    destruct (attemptMove_accepted_shown dx dy (shown (stepGame dx dy (archetype d) m g)) _
                eq_refl Hok1 Hacc1) as (d1 & m1 & _ & _ & Hs1).
    rewrite Hw2 in Hs1. injection Hs1 as ->. cbn [game shown] in Hg2. injection Hg2 as <-.
    destruct (stepGame_fields dx dy (archetype d1) m1 (stepGame dx dy (archetype d) m g))
      as (_ & _ & _ & -> & _).
    by destruct (stepGame_fields dx dy (archetype d) m g) as (_ & _ & _ & -> & _). }
  apply (attemptMove_hardens_left_tile dx' dy' w2 g2 c); try done.
  rewrite Harch. cbn [trigger recentDirections set_grid]. rewrite Hrd.
  apply sequence_trigger_after_repeat.
Qed.

(** Seed 0.5 gives tile (3, 1) the sequence archetype: east, east from the
    start, and a third move east hardens (3, 1). *)
Lemma C8_witness :
  let w := theWorld (play 0.5 []) in
  let w1 := theWorld (attemptMove 1 0 w) in
  let w2 := theWorld (attemptMove 1 0 w1) in
  let g2 := theSession w2 in
  player g2 = {| pos_x := 3; pos_y := 1 |}
  /\ exists w3 g3,
       attemptMove 1 0 w2 = Done w3 /\ game w3 = Some g3
       /\ stateAt g3 (pos_x (player g2)) (pos_y (player g2)) = Some Wall.
Proof.
  intros w w1 w2 g2. split; [by_compute|].
  assert (Hc : exists c, getTile (grid g2) (pos_x (player g2)) (pos_y (player g2)) = Some c
                         /\ archetype c = Sequence /\ state c = Safe).
  { vm_compute. eexists. repeat split; reflexivity. }
  destruct Hc as (c & Hc & Harch & Hst).
  apply (C8_sequence_hardens_after_two_repeats 1 0 1 0 w (theSession w) w1 (theSession w1)
           w2 g2 c);
    [by_compute|by_compute|by_compute|by_compute|by_compute|by_compute|by_compute
    |by_compute|exact Hc|exact Harch|by rewrite Hst|by rewrite Hst|by_compute].
Defined.

(** C8 as stated fails.  Seed 0.5 gives tile (2, 2) the sequence archetype.
    After south, the player moves east twice: both moves are accepted and
    go the same way, the second one leaves (2, 2), which is safe, and (2, 2)
    is still safe afterwards, because the detector compared "south" with
    "east". *)
Lemma C8_second_repeat_does_not_harden :
  let w := theWorld (play 0.5 [south]) in
  let w1 := theWorld (attemptMove 1 0 w) in
  let g1 := theSession w1 in
  moveAccepted 1 0 (theSession w) = true
  /\ attemptMove 1 0 w = Done w1 /\ game w1 = Some g1
  /\ player g1 = {| pos_x := 2; pos_y := 2 |}
  /\ recentDirections g1 = ["south"; "east"]
  /\ archetype <$> getTile (grid g1) 2 2 = Some Sequence
  /\ stateAt g1 2 2 = Some Safe
  /\ moveAccepted 1 0 g1 = true
  /\ exists w2 g2,
       attemptMove 1 0 w1 = Done w2 /\ game w2 = Some g2
       /\ moveCount g2 = 3
       /\ stateAt g2 2 2 = Some Safe
       /\ stateAt g2 2 2 <> Some Wall.
Proof.
  intros w w1 g1. do 8 (split; [by_compute|]).
  exists (theWorld (attemptMove 1 0 w1)), (theSession (theWorld (attemptMove 1 0 w1))).
  do 4 (split; [by_compute|]). by_compute.
Qed.

(** ** The newest recent position *)

(** An accepted move leaves the player's new position as the newest entry. *)
Lemma attemptMove_Newest dx dy w g :
  game w = Some g -> session_ok g = true -> moveAccepted dx dy g = true ->
  exists w' g', attemptMove dx dy w = Done w' /\ game w' = Some g' /\ Newest g'.
Proof.
  intros Hg Hok Hacc.
  destruct (attemptMove_accepted_shown dx dy w g Hg Hok Hacc) as (d & m & _ & _ & ->).
  eexists _, _. split; [reflexivity|]. split; [reflexivity|].
  destruct (stepGame_fields dx dy (archetype d) m g) as (Hp & _ & _ & _ & _ & Hr & _).
  unfold Newest. rewrite Hp, Hr. apply push_capped_snoc. lia.
Qed.

Lemma slice_from_newest {A} k (l : list A) a :
  1 <= k -> In a (slice_from (- k) (l ++ [a])).
Proof.
  intros Hk. unfold slice_from. rewrite length_app. cbn [length].
  replace (- k <? 0) with true by (symmetry; apply Z.ltb_lt; lia).
  set (n := Z.to_nat (Z.max (Z.of_nat (length l + 1) + - k) 0)).
  assert (Hn : (n <= length l)%nat) by lia.
  rewrite drop_app_le by done. apply in_or_app. right. by left.
Qed.

(** With the player's own position in the window, the backtrack rule holds
    for the tile under the player: once the player has moved, the next
    accepted move hardens the tile it leaves if that tile is a backtrack
    tile, whether or not it had been visited before. *)
Lemma backtrack_hardens_whenever_left dx dy w g c :
  game w = Some g -> session_ok g = true -> moveAccepted dx dy g = true ->
  Newest g -> 1 <= backtrackWindow (thresholds g) ->
  getTile (grid g) (pos_x (player g)) (pos_y (player g)) = Some c ->
  archetype c = Backtrack -> state c <> Wall -> state c <> Exit ->
  exists w' g',
    attemptMove dx dy w = Done w' /\ game w' = Some g'
    /\ stateAt g' (pos_x (player g)) (pos_y (player g)) = Some Wall.
Proof.
  intros Hg Hok Hacc [l Hl] Hbw Hc Harch Hw He.
  apply (attemptMove_hardens_left_tile dx dy w g c); try done.
  rewrite Harch. cbn [trigger thresholds recentPositions set_grid tile_x tile_y bump
                       set_leaveCount].
  apply session_ok_spec in Hok as [Hgr [Hx Hy]].
  destruct (grid_ok_sound _ Hgr _ _ Hx Hy) as (c' & Hc' & Hcx & Hcy).
  rewrite Hc in Hc'. injection Hc' as <-.
  apply existsb_exists. exists (player g). rewrite Hl at 1.
  split; [by apply slice_from_newest|].
  rewrite Hcx, Hcy, !Z.eqb_refl. done.
Qed.

(** ** Every operation of the script *)

(** Every session [createGame] returns is sound. *)
Lemma createGame_ok seed :
  exists g, createGame seed = Done g
    /\ session_ok g = true /\ exit_ok g = true /\ counter_ok g = true.
Proof.
  destruct (createGame_spec seed)
    as (g & Hc & Hgr & Hpl & Hex & Hinit & Hwc & _ & Hcr & _).
  exists g. split; [done|]. split; [|split].
  - apply session_ok_spec. split; [done|]. by rewrite Hpl.
  - unfold exit_ok. rewrite Hex. cbn [pos_x pos_y].
    destruct (grid_ok_sound _ Hgr (gridSize - 2) (gridSize - 2)) as (t & Ht & _);
      [unfold gridSize; lia..|].
    rewrite Ht. apply bool_decide_eq_true. by rewrite (Hinit _ _ _ Ht).
  - unfold counter_ok. rewrite Hcr, Hwc. done.
Qed.

Lemma counter_ok_spec g : counter_ok g = true <-> crystallized g = wallCount (grid g).
Proof. unfold counter_ok. apply Z.eqb_eq. Qed.

Lemma exit_ok_spec g :
  exit_ok g = true <-> stateAt g (pos_x (exit g)) (pos_y (exit g)) = Some Exit.
Proof.
  unfold exit_ok, stateAt. destruct (getTile _ _ _) as [t|]; simpl; [|done].
  rewrite bool_decide_eq_true. split; [by intros ->|by intros [= ->]].
Qed.

Lemma session_ok_tick g : session_ok (tick g) = session_ok g.
Proof.
  unfold session_ok. rewrite grid_tick, (grid_ok_fmap _ _ decayTile_coords).
  by destruct (tick_fields g) as (-> & _).
Qed.

Lemma Sound_tick g : Sound g -> Sound (tick g).
Proof.
  intros (Hok & Hex & Hc). split; [by rewrite session_ok_tick|]. split.
  - apply exit_ok_spec. rewrite stateAt_tick.
    destruct (tick_fields g) as (_ & -> & _). by apply exit_ok_spec.
  - apply counter_ok_spec. apply counter_ok_spec in Hc.
    pose proof (counter_tick g). lia.
Qed.

Lemma Sound_createGame seed : exists g, createGame seed = Done g /\ Sound g.
Proof.
  destruct (createGame_ok seed) as (g & Hc & H). by exists g.
Qed.

Lemma Sound_attemptMove dx dy w g :
  game w = Some g -> Sound g ->
  exists w' g', attemptMove dx dy w = Done w' /\ game w' = Some g' /\ Sound g'.
Proof.
  intros Hg (Hok & Hex & Hc).
  destruct (attemptMove_preserves dx dy w g Hg Hok)
    as (w' & g' & Hw' & Hg' & Hok' & He' & Hfr & Hc' & _).
  exists w', g'. split; [done|]. split; [done|]. split; [done|]. split.
  - apply exit_ok_spec. rewrite He'. apply Hfr; [by apply exit_ok_spec|by right].
  - apply counter_ok_spec. apply counter_ok_spec in Hc. lia.
Qed.

Lemma runOp_Sound op w :
  (forall g, game w = Some g -> Sound g) ->
  (game w = None -> op <> OpDraw) ->
  exists w', runOp op w = Done w'
    /\ (forall g', game w' = Some g' -> Sound g')
    /\ (game w' = None -> game w = None).
Proof.
  intros Hinv Hdraw. destruct op as [seed|seed|dx dy| |]; cbn [runOp].
  - destruct (Sound_createGame seed) as (g & -> & Hc). res_step.
    eexists. split; [done|]. split; [|done]. by intros g' [= <-].
  - unfold reset. destruct (Sound_createGame seed) as (g & -> & Hc). res_step.
    rewrite (draw_spec (set_game g w) g eq_refl). eexists. split; [done|]. split; [|done].
    intros g' [= <-]. by apply Sound_tick.
  - destruct (game w) as [g|] eqn:Hg.
    + destruct (Sound_attemptMove dx dy w g Hg (Hinv g eq_refl)) as (w' & g' & -> & Hg' & Hs).
      exists w'. split; [done|]. split; [|by rewrite Hg'].
      intros g2 Hg2. rewrite Hg' in Hg2. by injection Hg2 as <-.
    + rewrite (attemptMove_no_session dx dy w Hg). exists w. split; [done|].
      split; [by rewrite Hg|done].
  - unfold reveal. destruct (game w) as [g|] eqn:Hg.
    + eexists. split; [done|]. split; [|done]. intros g' [= <-].
      by destruct (Hinv g eq_refl).
    + exists w. split; [done|]. split; [by rewrite Hg|done].
  - destruct (game w) as [g|] eqn:Hg.
    + rewrite (draw_spec w g Hg). eexists. split; [done|]. split; [|done].
      intros g' [= <-]. apply Sound_tick. by apply Hinv.
    + by destruct (Hdraw eq_refl).
Qed.

(** Once a session exists, every operation returns and leaves a sound
    session. *)
Lemma runOps_Sound ops w g :
  game w = Some g -> Sound g ->
  exists w' g', runOps ops w = Done w' /\ game w' = Some g' /\ Sound g'.
Proof.
  revert w g. induction ops as [|op ops IH]; intros w g Hg Hc; [by exists w, g|].
  cbn [runOps].
  destruct (runOp_Sound op w) as (w1 & -> & Hinv1 & Hnone1).
  { intros g0 Hg0. rewrite Hg in Hg0. by injection Hg0 as <-. }
  { by rewrite Hg. }
  res_step. destruct (game w1) as [g1|] eqn:Hg1.
  - by apply (IH w1 g1 Hg1), Hinv1.
  - specialize (Hnone1 eq_refl). by rewrite Hg in Hnone1.
Qed.

(** C10. Whatever the page does once a session exists (new sessions,
    resets, moves, reveals, redraws, in any order and number), every
    operation returns and the [crystallized] counter equals the number of
    wall tiles of the grid. *)
Theorem C10_counter_equals_wall_count seed ops w :
  exists w' g',
    runOps (OpCreate seed :: ops) w = Done w' /\ game w' = Some g'
    /\ crystallized g' = wallCount (grid g').
Proof.
  cbn [runOps runOp].
  destruct (Sound_createGame seed) as (g & -> & Hs). res_step.
  destruct (runOps_Sound ops (set_game g w) g eq_refl Hs)
    as (w' & g' & Hr & Hg' & _ & _ & Hc').
  exists w', g'. split; [done|]. split; [done|]. by apply counter_ok_spec.
Qed.

(** C5. [createGame] reads nothing but its seed: whatever the world was
    before (another session, its generator part-way through its stream), two
    sessions made from the same seed have the same grid, tile by tile, the
    same four thresholds and the same archetype pool. *)
Theorem C5_same_seed_same_session seed w1 w2 :
  exists g1 g2 w1' w2',
    runOp (OpCreate seed) w1 = Done w1' /\ game w1' = Some g1
    /\ runOp (OpCreate seed) w2 = Done w2' /\ game w2' = Some g2
    /\ createGame seed = Done g1
    /\ grid g1 = grid g2
    /\ thresholds g1 = thresholds g2
    /\ archetypePool g1 = archetypePool g2.
Proof.
  cbn [runOp]. destruct (createGame_spec seed) as (g & Hc & _).
  exists g, g, (set_game g w1), (set_game g w2). rewrite Hc. by repeat split.
Qed.

(** ** The first move *)

Lemma Untouched_createGame seed : exists g, createGame seed = Done g /\ Untouched g.
Proof.
  destruct (createGame_spec seed)
    as (g & Hc & Hgr & Hpl & _ & Hinit & _ & Hmc & _ & Hrd & _).
  by exists g.
Qed.

Lemma Untouched_tick g : Untouched g -> Untouched (tick g).
Proof.
  intros (Hgr & Hpl & Hinit & Hmc & Hrd).
  destruct (tick_fields g) as (Hp & _ & Hm & _ & Hr & _).
  split; [by rewrite grid_tick, (grid_ok_fmap _ _ decayTile_coords)|].
  split; [congruence|]. split; [|split; congruence].
  intros x y t. rewrite grid_tick, getTile_fmap.
  destruct (getTile (grid g) x y) as [t0|] eqn:Ht0; [|done].
  intros [= <-]. rewrite decayTile_state. by apply Hinit.
Qed.

Lemma runOp_Untouched op w w' :
  (forall g, game w = Some g -> Untouched g) ->
  isMove op = false -> runOp op w = Done w' ->
  forall g', game w' = Some g' -> Untouched g'.
Proof.
  intros Hinv Hop. destruct op as [seed|seed|dx dy| |]; cbn [runOp]; try done.
  - destruct (Untouched_createGame seed) as (g & -> & Hu). res_step.
    intros [= <-] g' [= <-]. done.
  - unfold reset. destruct (Untouched_createGame seed) as (g & -> & Hu). res_step.
    rewrite (draw_spec (set_game g w) g eq_refl).
    intros [= <-] g' [= <-]. by apply Untouched_tick.
  - unfold reveal. destruct (game w) as [g|] eqn:Hg.
    + intros [= <-] g' [= <-]. by apply (Hinv g).
    + intros [= <-] g' Hg'. by rewrite Hg in Hg'.
  - destruct (game w) as [g|] eqn:Hg.
    + rewrite (draw_spec w g Hg). intros [= <-] g' [= <-].
      apply Untouched_tick. by apply Hinv.
    + unfold draw, theGame. by rewrite Hg.
Qed.

Lemma runOps_Untouched ops w w' :
  (forall g, game w = Some g -> Untouched g) ->
  forallb (fun op => negb (isMove op)) ops = true ->
  runOps ops w = Done w' ->
  forall g', game w' = Some g' -> Untouched g'.
Proof.
  revert w. induction ops as [|op ops IH]; intros w Hinv Hops; cbn [runOps].
  - by intros [= <-].
  - cbn [forallb] in Hops. apply andb_true_iff in Hops as [Hop Hops].
    apply negb_true_iff in Hop.
    destruct (runOp op w) as [w1|e] eqn:Hw1; res_step; [|done].
    apply IH; [|done]. by apply (runOp_Untouched op w).
Qed.

Lemma runOps_create seed ops w g :
  createGame seed = Done g ->
  runOps (OpCreate seed :: ops) w = runOps ops (set_game g w).
Proof. intros Hc. cbn [runOps runOp]. by rewrite Hc. Qed.

(** The repeat detector holds on a history of fewer than two moves. *)
Lemma sequence_trigger_short t g :
  (length (recentDirections g) < 2)%nat -> trigger Sequence t g = true.
Proof.
  intros Hlen. cbn [trigger].
  destruct (recentDirections g) as [|a [|b l]]; [done| |simpl in Hlen; lia].
  change (slice_from (-2) [a]) with [a]. cbn. by rewrite bool_decide_true.
Qed.

(** C9. Take a session on which no move has been made: created by
    [createGame] and since then only redrawn, revealed or replaced by a new
    one.  If its start tile (1, 1) has archetype sequence, the first
    accepted move (any move that stays inside the grid, as nothing is a wall
    yet) hardens the start tile: the trigger runs before the move's
    direction is recorded, on an empty [recentDirections], and holds on any
    history shorter than two. *)
Theorem C9_first_move_hardens_sequence_start seed ops w0 w g dx dy :
  forallb (fun op => negb (isMove op)) ops = true ->
  runOps (OpCreate seed :: ops) w0 = Done w -> game w = Some g ->
  archetype <$> getTile (grid g) 1 1 = Some Sequence ->
  outOfGrid (1 + dx) (1 + dy) = false ->
  moveAccepted dx dy g = true
  /\ recentDirections g = []
  /\ (forall t g1, (length (recentDirections g1) < 2)%nat -> trigger Sequence t g1 = true)
  /\ exists w' g',
       attemptMove dx dy w = Done w' /\ game w' = Some g'
       /\ moveCount g' = 1 /\ stateAt g' 1 1 = Some Wall.
Proof.
  intros Hops Hrun Hg Harch Hout.
  assert (Hu : Untouched g).
  { destruct (Untouched_createGame seed) as (g0 & Hc & Hu0).
    rewrite (runOps_create seed ops w0 g0 Hc) in Hrun.
    apply (runOps_Untouched ops (set_game g0 w0) w); [|done|done|done].
    intros g1 Hg1. injection Hg1 as <-. exact Hu0. }
  destruct Hu as (Hgr & Hpl & Hinit & Hmc & Hrd).
  assert (Hok : session_ok g = true).
  { apply session_ok_spec. split; [done|]. rewrite Hpl. by apply outOfGrid_false. }
  assert (Hacc : moveAccepted dx dy g = true).
  { apply moveAccepted_spec. rewrite Hpl. cbn [pos_x pos_y]. split; [done|].
    pose proof Hout as [Hx Hy]%outOfGrid_false.
    destruct (grid_ok_sound _ Hgr _ _ Hx Hy) as (d & Hd & _).
    exists d. split; [done|]. rewrite (Hinit _ _ _ Hd). unfold initialState.
    by repeat destruct (decide _). }
  split; [done|]. split; [done|]. split; [apply sequence_trigger_short|].
  destruct (getTile (grid g) 1 1) as [c|] eqn:Hc; [|done].
  injection Harch as Harch.
  destruct (attemptMove_hardens_left_tile dx dy w g c Hg Hok Hacc)
    as (w' & g' & Hw' & Hg' & Hwall).
  - by rewrite Hpl.
  - by rewrite (Hinit _ _ _ Hc).
  - by rewrite (Hinit _ _ _ Hc).
  - rewrite Harch. apply sequence_trigger_short.
    cbn [recentDirections set_grid]. rewrite Hrd. simpl. lia.
  - exists w', g'. split; [done|]. split; [done|]. rewrite Hpl in Hwall.
    split; [|done].
    destruct (attemptMove_preserves dx dy w g Hg Hok)
      as (w2 & g2 & Hw2 & Hg2 & _ & _ & _ & _ & Hm2).
    rewrite Hacc, Hmc in Hm2. rewrite Hw' in Hw2. injection Hw2 as <-.
    rewrite Hg' in Hg2. injection Hg2 as <-. exact Hm2.
Qed.

(** Seed 0 gives the start tile the sequence archetype.  The page creates
    the session, draws it, the player asks for a reveal, the page draws
    twice more, and the first move goes east. *)
Lemma C9_witness :
  let w := theWorld (runOps [OpCreate 0; OpDraw; OpReveal; OpDraw; OpDraw] emptyWorld) in
  exists w' g',
    attemptMove 1 0 w = Done w' /\ game w' = Some g'
    /\ moveCount g' = 1 /\ stateAt g' 1 1 = Some Wall.
Proof.
  intros w.
  apply (C9_first_move_hardens_sequence_start 0 [OpDraw; OpReveal; OpDraw; OpDraw]
           emptyWorld w (theSession w) 1 0); by_compute.
Defined.

(** ** The page as a whole *)

(** *** One key, at most one move *)

Lemma Res_bind_Done {A} (m : Res A) : (a ← m; Done a) = m.
Proof. by destruct m. Qed.

Lemma handleKey_keyMove key w :
  handleKey key w
  = match keyMove key with
    | Some (dx, dy) => attemptMove dx dy w
    | None => Done w
    end.
Proof.
  unfold handleKey, keyMove.
  destruct (bool_decide_reflect (key = "arrowup")) as [->|H1].
  { cbn. by destruct (attemptMove 0 (-1) w). }
  destruct (bool_decide_reflect (key = "w")) as [->|H2].
  { cbn. by destruct (attemptMove 0 (-1) w). }
  destruct (bool_decide_reflect (key = "arrowdown")) as [->|H3].
  { cbn. by destruct (attemptMove 0 1 w). }
  destruct (bool_decide_reflect (key = "s")) as [->|H4].
  { cbn. by destruct (attemptMove 0 1 w). }
  destruct (bool_decide_reflect (key = "arrowleft")) as [->|H5].
  { cbn. by destruct (attemptMove (-1) 0 w). }
  destruct (bool_decide_reflect (key = "a")) as [->|H6].
  { cbn. by destruct (attemptMove (-1) 0 w). }
  cbn. by destruct (bool_decide (key = "arrowright") || bool_decide (key = "d")).
Qed.

Lemma keyMove_unit key dx dy : keyMove key = Some (dx, dy) -> unitMove dx dy.
Proof.
  unfold keyMove, unitMove, north, east, south, west. intros H.
  repeat match type of H with context [if ?b then _ else _] => destruct b end;
    try discriminate; injection H as <- <-; apply list_elem_of_In; simpl; tauto.
Qed.

(** *** Invariants of the page *)

Lemma Sound_set_message m g : Sound g -> Sound (set_message m g).
Proof. done. Qed.

Lemma Sound_of_set_message m g : Sound (set_message m g) -> Sound g.
Proof. done. Qed.

Lemma Sound_set_revealTimer n g : Sound g -> Sound (set_revealTimer n g).
Proof. done. Qed.

Lemma Sound_tick_iff g : Sound (tick g) <-> Sound g.
Proof.
  split; [|apply Sound_tick]. intros (Hok & Hex & Hc).
  split; [by rewrite session_ok_tick in Hok|]. split.
  - apply exit_ok_spec. apply exit_ok_spec in Hex. rewrite stateAt_tick in Hex.
    by destruct (tick_fields g) as (_ & <- & _).
  - apply counter_ok_spec. apply counter_ok_spec in Hc.
    pose proof (counter_tick g). lia.
Qed.

Section PageInvariant.
Variable P : Game -> Prop.
Hypothesis P_fresh : forall seed g, createGame seed = Done g -> P g.
Hypothesis P_tick : forall g, Sound g -> P g -> P (tick g).
Hypothesis P_message : forall m g, Sound g -> P g -> P (set_message m g).
Hypothesis P_reveal : forall g, Sound g -> P g -> P (set_revealTimer 60 g).
Hypothesis P_move : forall dx dy d g,
  Sound g -> P g -> unitMove dx dy ->
  outOfGrid (pos_x (player g) + dx) (pos_y (player g) + dy) = false ->
  getTile (grid g) (pos_x (player g) + dx) (pos_y (player g) + dy) = Some d ->
  state d <> Wall ->
  P (promote (moved dx dy (archetype d) g)).

Lemma reset_invariant seed w0 :
  exists g, reset seed w0 = Done (shown g) /\ Sound g /\ P g.
Proof.
  unfold reset. destruct (Sound_createGame seed) as (g & Hc & Hs).
  rewrite Hc. res_step. rewrite (draw_spec (set_game g w0) g eq_refl).
  exists (tick g). split; [done|]. split; [by apply Sound_tick|].
  apply P_tick; [done|]. by apply (P_fresh seed).
Qed.

Lemma attemptMove_invariant dx dy g :
  Sound g -> P g -> unitMove dx dy ->
  exists g', attemptMove dx dy (shown g) = Done (shown g') /\ Sound g' /\ P g'.
Proof.
  intros Hs HP Hu.
  destruct (Sound_attemptMove dx dy (shown g) g eq_refl Hs) as (w' & g' & Hw' & Hg' & Hs').
  pose proof Hs as (Hok & _ & _).
  destruct (moveAccepted dx dy g) eqn:Hacc.
  - destruct (attemptMove_accepted_shown dx dy (shown g) g eq_refl Hok Hacc)
      as (d & m & Hd & Hw & Heq).
    apply moveAccepted_spec in Hacc as (Hout & _).
    rewrite Heq in Hw'. injection Hw' as <-. injection Hg' as <-.
    eexists. split; [exact Heq|]. split; [done|].
    unfold stepGame in *. apply (proj1 (Sound_tick_iff _)) in Hs'.
    apply P_tick; [done|]. apply Sound_of_set_message in Hs'.
    apply P_message; [done|]. by eapply P_move.
  - destruct (outOfGrid (pos_x (player g) + dx) (pos_y (player g) + dy)) eqn:Hout.
    + rewrite (attemptMove_outside dx dy (shown g) g eq_refl Hout). by exists g.
    + pose proof Hok as [Hgr HP']%session_ok_spec. apply grid_ok_sound in Hgr.
      pose proof Hout as [Hx Hy]%outOfGrid_false.
      destruct (Hgr _ _ Hx Hy) as (d & Hd & _).
      assert (state d = Wall) as Hw.
      { unfold moveAccepted in Hacc. cbn zeta in Hacc. rewrite Hout, Hd in Hacc.
        unfold isWall in Hacc. simpl in Hacc. apply negb_false_iff in Hacc.
        by apply bool_decide_eq_true in Hacc. }
      rewrite (attemptMove_blocked dx dy (shown g) g d eq_refl Hout Hd Hw).
      exists (set_message "Crystallized path blocks the way." g).
      split; [done|]. split; [done|]. by apply P_message.
Qed.

Lemma dispatch_invariant e g :
  Sound g -> P g ->
  exists g', dispatch e (shown g) = Done (shown g') /\ Sound g' /\ P g'.
Proof.
  intros Hs HP. destruct e as [key|seed| |]; cbn [dispatch].
  - rewrite handleKey_keyMove. destruct (keyMove key) as [[dx dy]|] eqn:Hk.
    + apply attemptMove_invariant; [done..|]. by eapply keyMove_unit.
    + by exists g.
  - apply reset_invariant.
  - unfold onRevealClick, reveal. cbn [game shown]. res_step.
    rewrite (draw_spec (set_game (set_revealTimer 60 g) (shown g)) (set_revealTimer 60 g) eq_refl).
    exists (tick (set_revealTimer 60 g)). split; [done|].
    split; [by apply Sound_tick|]. apply P_tick; [done|]. by apply P_reveal.
  - rewrite (draw_spec (shown g) g eq_refl). exists (tick g). split; [done|].
    split; [by apply Sound_tick|]. by apply P_tick.
Qed.

Lemma dispatchAll_invariant events g :
  Sound g -> P g ->
  exists g', dispatchAll events (shown g) = Done (shown g') /\ Sound g' /\ P g'.
Proof.
  revert g. induction events as [|e events IH]; intros g Hs HP; [by exists g|].
  cbn [dispatchAll].
  destruct (dispatch_invariant e g Hs HP) as (g1 & -> & Hs1 & HP1). res_step.
  by apply IH.
Qed.

(** Whatever the seed and the events, the page ends in a world that shows
    a sound session satisfying [P]. *)
Lemma page_invariant seed events w0 :
  exists g, page seed events w0 = Done (shown g) /\ Sound g /\ P g.
Proof.
  unfold page. destruct (reset_invariant seed w0) as (g & -> & Hs & HP). res_step.
  by apply dispatchAll_invariant.
Qed.
End PageInvariant.

(** ** The breadth-first search of [pathExists] *)

Lemma Route_trans gr p q r : Route gr p q -> Route gr q r -> Route gr p r.
Proof.
  induction 1 as [|p dir q Hd Hp _ IH]; [done|].
  intros Hr. eapply Route_step; [done..|]. by apply IH.
Qed.

Lemma Route_snoc gr p q dir :
  Route gr p q -> dir ∈ directions -> Passable gr (neighbour q dir) ->
  Route gr p (neighbour q dir).
Proof.
  intros Hr Hd Hp. eapply Route_trans; [exact Hr|].
  eapply Route_step; [done..|]. constructor.
Qed.

Lemma Pos_ext p q : pos_x p = pos_x q -> pos_y p = pos_y q -> p = q.
Proof. destruct p, q. simpl. by intros -> ->. Qed.

Lemma Seen_updTile visited x y p :
  Seen (updTile (fun _ => true) x y visited) p
  <-> ((x, y) = (pos_x p, pos_y p) /\ is_Some (getTile visited x y)) \/ Seen visited p.
Proof.
  unfold Seen. rewrite getTile_updTile.
  destruct (decide ((x, y) = (pos_x p, pos_y p))) as [E|E].
  - injection E as -> ->.
    destruct (getTile visited (pos_x p) (pos_y p)) as [b|]; simpl.
    + split; [intros _; left; by eauto|done].
    + split; [done|]. intros [[_ [? ?]]|?]; done.
  - rewrite option_fmap_id. split; [by right|]. by intros [[? _]|?].
Qed.

(** One neighbour: either nothing changes, and then the neighbour is marked
    if it is passable; or the neighbour is passable and new, and is
    marked and queued. *)
Lemma visitNeighbour_cases gr current visited queue dir visited' queue' :
  visitNeighbour gr current (visited, queue) dir = Done (visited', queue') ->
  let q := neighbour current dir in
  (visited' = visited /\ queue' = queue /\ (Passable gr q -> Seen visited q))
  \/ (visited' = updTile (fun _ => true) (pos_x q) (pos_y q) visited
      /\ queue' = queue ++ [q] /\ Passable gr q
      /\ is_Some (getTile visited (pos_x q) (pos_y q))).
Proof.
  unfold visitNeighbour, neighbour, Passable, Seen. cbn [pos_x pos_y].
  set (nx := pos_x current + dir_x dir). set (ny := pos_y current + dir_y dir).
  destruct (outOfGrid nx ny) eqn:Hout.
  { intros [= <- <-]. left. do 2 (split; [done|]). intros [HI _].
    apply inGrid_spec in HI. unfold inGrid in HI. cbn [pos_x pos_y] in HI.
    by rewrite Hout in HI. }
  destruct (getTile visited nx ny) as [seen|] eqn:Hseen; [|done]. res_step.
  destruct seen.
  { intros [= <- <-]. left. done. }
  destruct (getTile gr nx ny) as [t|] eqn:Ht; [|done]. res_step.
  destruct (bool_decide_reflect (state t = Wall)) as [Hw|Hw].
  { intros [= <- <-]. left. do 2 (split; [done|]). intros (_ & t' & [= <-] & Hn). done. }
  intros [= <- <-]. right. do 2 (split; [done|]). split; [|by eauto].
  split; [by apply outOfGrid_false in Hout|]. by exists t.
Qed.

(** The four neighbours of [current], some of them already handled. *)
Lemma visitNeighbours_cases gr start current dirs visited queue visited' queue' :
  VisitedOk visited ->
  Route gr start current ->
  (forall d, d ∈ dirs -> d ∈ directions) ->
  visitNeighbours gr current dirs (visited, queue) = Done (visited', queue') ->
  exists added,
    queue' = queue ++ added
    /\ VisitedOk visited'
    /\ (forall p, Seen visited p -> Seen visited' p)
    /\ (forall p, Seen visited' p -> Seen visited p \/ p ∈ added)
    /\ (forall p, p ∈ added -> Seen visited' p /\ Route gr start p)
    /\ (forall d, d ∈ dirs -> Passable gr (neighbour current d) ->
          Seen visited' (neighbour current d)).
Proof.
  intros HV Hr. revert visited queue HV.
  induction dirs as [|dir dirs IH]; intros visited queue HV Hsub.
  - intros [= <- <-]. exists []. rewrite app_nil_r.
    split; [done|]. split; [done|]. split; [done|]. split; [by left|].
    split; [by intros p ?%elem_of_nil|]. by intros d ?%elem_of_nil.
  - cbn [visitNeighbours].
    destruct (visitNeighbour gr current (visited, queue) dir) as [[v1 q1]|] eqn:H1; [|done].
    res_step. intros H2.
    assert (Hdir : dir ∈ directions) by (apply Hsub; by left).
    apply visitNeighbour_cases in H1 as [(-> & -> & Hp)|(-> & -> & Hp & Hsome)];
      cbn zeta in *.
    + destruct (IH visited queue HV) as (added & -> & HV' & Hmono & Hnew & Hadd & Hall);
        [by intros d Hd; apply Hsub; right|done|].
      exists added. do 5 (split; [done|]).
      intros d [->|Hd]%elem_of_cons Hpd; [by apply Hmono, Hp|by apply Hall].
    + set (q := neighbour current dir) in *.
      destruct (IH _ _ (VisitedOk_updTile _ _ _ _ HV)
                  ltac:(by intros d Hd; apply Hsub; right) H2)
        as (added & -> & HV' & Hmono & Hnew & Hadd & Hall).
      assert (Hq : Seen (updTile (fun _ => true) (pos_x q) (pos_y q) visited) q).
      { apply Seen_updTile. by left. }
      exists (q :: added). rewrite <- app_assoc.
      split; [done|]. split; [done|]. split; [|split; [|split]].
      * intros p Hp'. apply Hmono, Seen_updTile. by right.
      * intros p Hp'. destruct (Hnew p Hp') as [[[E _]| ?]%Seen_updTile|?].
        -- right. injection E as Ex Ey. rewrite (Pos_ext p q) by done. by left.
        -- by left.
        -- right. by right.
      * intros p [->|Hin]%elem_of_cons; [|by apply Hadd].
        split; [by apply Hmono|]. by apply Route_snoc.
      * intros d [->|Hd]%elem_of_cons Hpd; [by apply Hmono|by apply Hall].
Qed.

(** Marked cells of a state whose queue is empty are closed under passable
    steps, so they contain every cell a route leads to. *)
Lemma BfsInv_closed gr start goal visited p r :
  BfsInv gr start goal visited [] -> Seen visited p -> Route gr p r -> Seen visited r.
Proof.
  intros (_ & _ & _ & _ & Hclosed) Hp Hr.
  induction Hr as [|p dir r Hd Hpass _ IH]; [done|].
  apply IH. destruct (Hclosed p Hp) as [?%elem_of_nil|[_ Hn]]; [done|]. by apply Hn.
Qed.

(** The loop of [pathExists] decides whether a route exists. *)
Lemma pathExists_loop_correct fuel gr start goal visited queue :
  GridOk gr -> BfsInv gr start goal visited queue ->
  (bfsMeasure visited queue < fuel)%nat ->
  exists b, pathExists_loop fuel gr goal visited queue = Done b
            /\ (b = true <-> Route gr start goal).
Proof.
  intros HG. revert visited queue.
  induction fuel as [|fuel IH]; intros visited queue Hinv Hm; [lia|].
  cbn [pathExists_loop]. destruct queue as [|current queue].
  { exists false. split; [done|]. split; [done|]. intros Hr. exfalso.
    pose proof Hinv as (_ & Hs & _ & _ & Hclosed).
    pose proof (BfsInv_closed _ _ _ _ _ _ Hinv Hs Hr) as Hgoal.
    destruct (Hclosed goal Hgoal) as [?%elem_of_nil|[? _]]; done. }
  destruct Hinv as (HV & Hs & Hq & Hsound & Hclosed).
  destruct ((pos_x current =? pos_x goal) && (pos_y current =? pos_y goal)) eqn:Hcmp.
  { exists true. split; [done|]. split; [|done]. intros _.
    apply andb_true_iff in Hcmp as [Hx%Z.eqb_eq Hy%Z.eqb_eq].
    assert (current = goal) as <- by by apply Pos_ext.
    apply Hsound, Hq. by left. }
  assert (Hne : current <> goal).
  { intros ->. by rewrite !Z.eqb_refl in Hcmp. }
  destruct (visitNeighbours_spec gr current directions visited queue HG HV)
    as (v1 & q1 & Heq & HV1 & Hm1). rewrite Heq. res_step.
  destruct (visitNeighbours_cases gr start current directions visited queue v1 q1 HV)
    as (added & -> & _ & Hmono & Hnew & Hadd & Hall); [|done|done|].
  { apply Hsound, Hq. by left. }
  apply IH.
  - split; [done|]. split; [by apply Hmono|]. split; [|split].
    + intros p [Hp|Hp]%elem_of_app; [|by apply Hadd].
      apply Hmono, Hq. by right.
    + intros p Hp. destruct (Hnew p Hp) as [Hold|Hin]; [by apply Hsound|by apply Hadd].
    + intros p Hp. destruct (Hnew p Hp) as [Hold|Hin].
      * destruct (Hclosed p Hold) as [[->|Hin]%elem_of_cons|[Hpg Hn]].
        -- right. split; [done|]. intros dir Hd Hpass. by apply Hall.
        -- left. apply elem_of_app. by left.
        -- right. split; [done|]. intros dir Hd Hpass. by apply Hmono, Hn.
      * left. apply elem_of_app. by right.
  - unfold bfsMeasure in *. simpl in Hm. lia.
Qed.

Lemma pathExists_decides start goal gr :
  GridOk gr -> InGrid start ->
  exists b, pathExists start goal gr = Done b /\ (b = true <-> Route gr start goal).
Proof.
  intros HG [Hx Hy]. unfold pathExists.
  set (visited := replicate (Z.to_nat gridSize) (replicate (Z.to_nat gridSize) false)).
  assert (Hs : getTile visited (pos_x start) (pos_y start) = Some false).
  { apply getTile_replicate; unfold gridSize in *; lia. }
  assert (HV : VisitedOk visited).
  { intros x y Hx' Hy'. exists false. apply getTile_replicate; unfold gridSize in *; lia. }
  assert (Hnone : forall p, ~ Seen visited p).
  { intros p Hp. unfold Seen in Hp.
    destruct (getTile_Some_nonneg _ _ _ _ Hp) as [Hx' Hy'].
    unfold getTile in Hp. rewrite (proj2 (Z.leb_le _ _) Hx'), (proj2 (Z.leb_le _ _) Hy') in Hp.
    cbn [andb] in Hp. unfold visited in Hp.
    destruct (replicate _ _ !! Z.to_nat (pos_y p)) as [row|] eqn:Hrow; [|done].
    apply lookup_replicate in Hrow as [-> _].
    change (replicate (Z.to_nat gridSize) false !! Z.to_nat (pos_x p) = Some true) in Hp.
    by apply lookup_replicate in Hp as [? _]. }
  destruct (getTile_getRow _ _ _ _ Hs) as [row ->]. res_step.
  apply pathExists_loop_correct; [done| |].
  - split; [by apply VisitedOk_updTile|]. split; [|split; [|split]].
    + apply Seen_updTile. left. by eauto.
    + intros p ->%list_elem_of_singleton. apply Seen_updTile. left. by eauto.
    + intros p [[E _]|Hp]%Seen_updTile; [|by destruct (Hnone p)].
      injection E as Ex Ey. rewrite (Pos_ext p start) by done. constructor.
    + intros p [[E _]|Hp]%Seen_updTile; [|by destruct (Hnone p)].
      left. injection E as Ex Ey. rewrite (Pos_ext p start) by done. by left.
  - unfold bfsMeasure.
    pose proof (count2_updTile negb (fun _ => true) _ _ visited false Hs) as Hc.
    assert (count2 negb visited = 324%nat) as Hv by (by vm_compute).
    rewrite Hv in Hc. cbn [b2n negb] in Hc. cbn [length].
    change (Z.to_nat (gridSize * gridSize + 1)) with 325%nat. lia.
Qed.

(** ** What [createGame] draws *)

(** *** [shuffle] *)

Lemma swap_Permutation {A} i j (l : list A) : swap i j l ≡ₚ l.
Proof.
  unfold swap. destruct (l !! i) as [ai|] eqn:Hi; [|done].
  destruct (l !! j) as [aj|] eqn:Hj; [|done].
  by apply Permutation_insert_swap.
Qed.

Lemma shuffle_loop_Permutation {A} i (l : list A) a : (shuffle_loop i l a).1 ≡ₚ l.
Proof.
  revert l a. induction i as [|i IH]; intros l a; [done|].
  cbn [shuffle_loop]. destruct (mulberry32 a) as [r a'].
  rewrite IH. apply swap_Permutation.
Qed.

Lemma shuffle_loop_draws {A} i (l : list A) a : (shuffle_loop i l a).2 = draws i a.
Proof.
  unfold draws. revert l a. induction i as [|i IH]; intros l a; [done|].
  cbn [shuffle_loop]. rewrite Nat.iter_succ_r.
  destruct (mulberry32 a) as [r a'] eqn:Hm. cbn [snd]. apply IH.
Qed.

(** Every swap of [shuffle] is between two cells of the array. *)
Lemma shuffle_index_in_range i a :
  (Z.to_nat (floorMul (mulberry32 a).1 (Z.of_nat (S i) + 1)) <= S i)%nat.
Proof.
  pose proof (mulberry32_range a) as Hr.
  pose proof (floorMul_range _ (Z.of_nat (S i) + 1) Hr ltac:(lia)). lia.
Qed.

(** *** The loops of [createGame] *)

Lemma build_row_tiles n x y pool a row a' :
  build_row n x y pool a = Done (row, a') -> Forall (FreshTile pool) row.
Proof.
  revert x a row a'. induction n as [|n IH]; intros x a row a'.
  - intros [= <- <-]. constructor.
  - cbn [build_row]. destruct (mulberry32 a) as [r a1].
    destruct (pool !! _) as [arch|] eqn:Harch; [|done]. res_step.
    destruct (build_row n (x + 1) y pool a1) as [[row1 a2]|] eqn:Hrow; [|done]. res_step.
    intros [= <- <-]. constructor; [|by eapply IH].
    exists arch. split; [by eapply list_elem_of_lookup_2|done].
Qed.

Lemma build_rows_tiles n y pool a gr a' :
  build_rows n y pool a = Done (gr, a') -> Forall (Forall (FreshTile pool)) gr.
Proof.
  revert y a gr a'. induction n as [|n IH]; intros y a gr a'.
  - intros [= <- <-]. constructor.
  - cbn [build_rows].
    destruct (build_row _ 0 y pool a) as [[row a1]|] eqn:Hrow; [|done]. res_step.
    destruct (build_rows n (y + 1) pool a1) as [[rows a2]|] eqn:Hrows; [|done]. res_step.
    intros [= <- <-]. constructor; [by eapply build_row_tiles|by eapply IH].
Qed.

Lemma Forall2D_getTile {A} (Q : A -> Prop) (gr : list (list A)) x y t :
  Forall (Forall Q) gr -> getTile gr x y = Some t -> Q t.
Proof.
  unfold getTile. intros Hall. destruct ((0 <=? x) && (0 <=? y)); [|done].
  destruct (gr !! Z.to_nat y) as [row|] eqn:Hrow; simpl; [|done]. intros Ht.
  eapply Forall_lookup_1 in Hrow; [|exact Hall].
  eapply Forall_lookup_1 in Ht; [|exact Hrow]. done.
Qed.

Lemma draws_S n a : draws (S n) a = draws n (mulberry32 a).2.
Proof. unfold draws. by rewrite Nat.iter_succ_r. Qed.

Lemma draws_add n m a : draws (n + m) a = draws m (draws n a).
Proof.
  revert a. induction n as [|n IH]; intros a; [done|].
  change (S n + m)%nat with (S (n + m)). by rewrite !draws_S, IH.
Qed.

Lemma build_row_draws n x y pool a row a' :
  build_row n x y pool a = Done (row, a') -> a' = draws n a.
Proof.
  revert x a row a'. induction n as [|n IH]; intros x a row a'.
  - by intros [= <- <-].
  - cbn [build_row]. rewrite draws_S. destruct (mulberry32 a) as [r a1].
    destruct (pool !! _) as [arch|] eqn:Harch; [|done]. res_step.
    destruct (build_row n (x + 1) y pool a1) as [[row1 a2]|] eqn:Hrow; [|done]. res_step.
    intros [= <- <-]. by eapply IH.
Qed.

Lemma build_rows_draws n y pool a gr a' :
  build_rows n y pool a = Done (gr, a') -> a' = draws (n * Z.to_nat gridSize) a.
Proof.
  revert y a gr a'. induction n as [|n IH]; intros y a gr a'.
  - by intros [= <- <-].
  - cbn [build_rows].
    destruct (build_row _ 0 y pool a) as [[row a1]|] eqn:Hrow; [|done]. res_step.
    destruct (build_rows n (y + 1) pool a1) as [[rows a2]|] eqn:Hrows; [|done]. res_step.
    intros [= <- <-]. apply build_row_draws in Hrow as ->. apply IH in Hrows as ->.
    change (S n * Z.to_nat gridSize)%nat with (Z.to_nat gridSize + n * Z.to_nat gridSize)%nat.
    by rewrite draws_add.
Qed.

Lemma grid_ok_getTile gr x y t :
  grid_ok gr = true -> getTile gr x y = Some t ->
  (0 <= x < gridSize /\ 0 <= y < gridSize) /\ tile_x t = x /\ tile_y t = y.
Proof.
  intros Hok Ht. destruct (getTile_Some_nonneg _ _ _ _ Ht) as [Hx Hy].
  unfold grid_ok in Hok. apply andb_true_iff in Hok as [Hlen%Z.eqb_eq Hrows].
  unfold getTile in Ht.
  rewrite (proj2 (Z.leb_le _ _) Hx), (proj2 (Z.leb_le _ _) Hy) in Ht. cbn [andb] in Ht.
  destruct (gr !! Z.to_nat y) as [row|] eqn:Hrow; [|done]. simpl in Ht.
  pose proof (lookup_lt_Some _ _ _ Hrow) as Hly.
  destruct (rows_ok_lookup gr 0 _ Hrows Hly) as (row' & Hrow' & Hlr & Hrok).
  rewrite Hrow in Hrow'. injection Hrow' as <-.
  pose proof (lookup_lt_Some _ _ _ Ht) as Hlx.
  destruct (row_ok_lookup row 0 _ _ Hrok Hlx) as (t' & Ht' & Htx & Hty).
  rewrite Ht in Ht'. injection Ht' as <-. lia.
Qed.

(** What [createGame] draws: the pool is the shuffled table without its
    last entry, the thresholds lie in their ranges, and every tile is a
    new tile with an archetype of the pool, the start and the exit being
    marked.  The generator is called 4 + 4 + 18 * 18 times. *)
Lemma createGame_generated seed :
  exists g, createGame seed = Done g
    /\ (exists out, archetypePool g ++ [out] ≡ₚ archetypes)
    /\ 3 <= thirdExit (thresholds g) <= 4
    /\ 6 <= frequencyWindow (thresholds g) <= 9
    /\ 3 <= frequencyCount (thresholds g) <= 4
    /\ 4 <= backtrackWindow (thresholds g) <= 6
    /\ (forall x y t, getTile (grid g) x y = Some t ->
          exists a, a ∈ archetypePool g
            /\ t = set_state (initialState x y) (newTile x y (arch_name a)))
    /\ message g = "Learning..." /\ revealTimer g = 0
    /\ rng g = draws (4 + 4 + 18 * 18) (math_floor (PrimFloat.mul seed 1e9%float)).
Proof.
  destruct (createGame_spec seed) as (g & Hc & Hgr & _ & _ & Hinit & _).
  exists g. split; [done|]. revert Hc Hgr Hinit. unfold createGame.
  generalize (math_floor (PrimFloat.mul seed 1e9%float)). intros a.
  pose proof (shuffle_loop_Permutation (length archetypes - 1) archetypes a) as Hperm.
  pose proof (shuffle_loop_draws (length archetypes - 1) archetypes a) as Hdr.
  pose proof (length_shuffle archetypes a) as Hlen.
  unfold shuffle in *.
  destruct (shuffle_loop (length archetypes - 1) archetypes a) as [shuffled a0].
  cbn [fst snd] in Hperm, Hdr, Hlen.
  change (length archetypes - 1)%nat with 4%nat in Hdr.
  pose proof (mulberry32_range a0) as Hr1. pose proof (draws_S 0 a0) as Hd1.
  destruct (mulberry32 a0) as [r1 a1]. cbn [fst snd] in Hr1, Hd1.
  pose proof (mulberry32_range a1) as Hr2. pose proof (draws_S 0 a1) as Hd2.
  destruct (mulberry32 a1) as [r2 a2]. cbn [fst snd] in Hr2, Hd2.
  pose proof (mulberry32_range a2) as Hr3. pose proof (draws_S 0 a2) as Hd3.
  destruct (mulberry32 a2) as [r3 a3]. cbn [fst snd] in Hr3, Hd3.
  pose proof (mulberry32_range a3) as Hr4. pose proof (draws_S 0 a3) as Hd4.
  destruct (mulberry32 a3) as [r4 a4]. cbn [fst snd] in Hr4, Hd4.
  destruct (build_rows _ 0 (take 4 shuffled) a4) as [[gr a5]|] eqn:Hrows; [|done].
  res_step. unfold writeTile.
  destruct (getTile gr _ _) as [t1|] eqn:Ht1; [|done]. res_step.
  destruct (getTile (updTile _ _ _ gr) _ _) as [t2|] eqn:Ht2; [|done]. res_step.
  intros [= <-]. cbn [grid archetypePool thresholds thirdExit frequencyWindow
    frequencyCount backtrackWindow message revealTimer rng]. intros Hgr Hinit.
  split.
  { destruct (drop 4 shuffled) as [|out rest] eqn:Hdrop.
    - apply (f_equal length) in Hdrop. rewrite length_drop, Hlen in Hdrop. done.
    - exists out. assert (rest = []) as ->.
      { apply (f_equal length) in Hdrop. rewrite length_drop, Hlen in Hdrop.
        simpl in Hdrop. destruct rest; [done|simpl in Hdrop; lia]. }
      rewrite <- Hdrop, take_drop. done. }
  pose proof (floorMul_range r1 2 Hr1 ltac:(lia)).
  pose proof (floorMul_range r2 4 Hr2 ltac:(lia)).
  pose proof (floorMul_range r3 2 Hr3 ltac:(lia)).
  pose proof (floorMul_range r4 3 Hr4 ltac:(lia)).
  do 4 (split; [lia|]). split.
  { intros x y t Ht. pose proof (Hinit x y t Ht) as Hst.
    pose proof (grid_ok_sound _ Hgr) as HG.
    rewrite !getTile_updTile in Ht.
    destruct (getTile gr x y) as [t0|] eqn:Ht0; [|done].
    destruct (Forall2D_getTile _ _ _ _ _ (build_rows_tiles _ _ _ _ _ _ Hrows) Ht0)
      as (arch & Hin & Heq).
    assert (Hxy : tile_x t0 = x /\ tile_y t0 = y).
    { rewrite !grid_ok_updTile in Hgr by apply set_state_coords.
      by destruct (grid_ok_getTile _ _ _ _ Hgr Ht0) as (_ & ? & ?). }
    exists arch. split; [done|]. destruct Hxy as [Hx Hy]. rewrite Hx, Hy in Heq.
    rewrite Heq in Ht. unfold initialState. cbn [pos_x pos_y] in Ht.
    destruct (decide ((1, 1) = (x, y))) as [E1|E1];
      destruct (decide ((gridSize - 2, gridSize - 2) = (x, y))) as [E2|E2];
      simpl in Ht; try (by injection Ht as <-).
    exfalso. rewrite <- E1 in E2. done. }
  do 2 (split; [done|]).
  apply build_rows_draws in Hrows as ->.
  change (draws 0 a1) with a1 in Hd1. change (draws 0 a2) with a2 in Hd2.
  change (draws 0 a3) with a3 in Hd3. change (draws 0 a4) with a4 in Hd4.
  subst a4 a3 a2 a1 a0. by rewrite <- !draws_add.
Qed.

(** ** What a move does, tile by tile *)

Lemma getTile_leaveTile g x y :
  getTile (grid (leaveTile g)) x y
  = (if decide ((pos_x (player g), pos_y (player g)) = (x, y))
     then leaveT (firesOn g) else id) <$> getTile (grid g) x y.
Proof.
  unfold leaveTile, firesOn, leaveT. cbn zeta. cbn [grid set_grid].
  rewrite getTile_updTile_eq.
  destruct (getTile (grid g) (pos_x (player g)) (pos_y (player g))) as [c|] eqn:Hc;
    cbn [fmap option_fmap option_map].
  - destruct (ruleFires (bump c) _);
      cbn [crystallizeAt grid set_grid set_crystallized];
      rewrite !getTile_updTile;
      destruct (decide (_ = (x, y))); destruct (getTile (grid g) x y); done.
  - cbn [grid set_grid]. rewrite getTile_updTile.
    by destruct (decide (_ = (x, y))).
Qed.

Lemma getTile_arrive dx dy darch g x y :
  getTile (grid (arrive dx dy darch g)) x y
  = (if decide ((pos_x (player g) + dx, pos_y (player g) + dy) = (x, y))
     then enter (dirNameOf dx dy) else id) <$> getTile (grid g) x y.
Proof.
  unfold arrive. cbn [grid set_grid set_message set_moveCount
    set_recentPositions set_recentArchetypes set_recentDirections set_player].
  apply getTile_updTile.
Qed.

Lemma getTile_promote g x y :
  getTile (grid (promote g)) x y
  = (if decide ((pos_x (player g), pos_y (player g)) = (x, y))
     then promoteT else id) <$> getTile (grid g) x y.
Proof.
  unfold promote, promoteT.
  destruct (getTile (grid g) (pos_x (player g)) (pos_y (player g))) as [d|] eqn:Hd.
  - destruct (bool_decide (state d = Neutral)) eqn:Hn.
    + cbn [grid set_grid]. rewrite getTile_updTile.
      destruct (decide (_ = (x, y))) as [E|E]; [|done].
      injection E as <- <-. rewrite Hd. simpl. by rewrite Hn.
    + destruct (decide (_ = (x, y))) as [E|E]; [|by rewrite option_fmap_id].
      injection E as <- <-. rewrite Hd. simpl. by rewrite Hn.
  - destruct (decide (_ = (x, y))) as [E|E]; [|by rewrite option_fmap_id].
    injection E as <- <-. by rewrite Hd.
Qed.

Lemma getTile_tick g x y : getTile (grid (tick g)) x y = decayTile <$> getTile (grid g) x y.
Proof. rewrite grid_tick. apply getTile_fmap. Qed.

(** The grid after an accepted move, before the redraw. *)
Lemma getTile_moved dx dy darch g x y :
  getTile (grid (promote (moved dx dy darch g))) x y
  = moveTile dx dy g x y <$> getTile (grid g) x y.
Proof.
  unfold moved, moveTile. rewrite getTile_promote.
  destruct (arrive_fields dx dy darch (leaveTile g)) as (-> & _). cbn [pos_x pos_y].
  rewrite getTile_arrive, getTile_leaveTile, player_leaveTile.
  destruct (getTile (grid g) x y) as [t|]; [|done]. cbn [fmap option_fmap option_map].
  destruct (decide ((pos_x (player g) + dx, pos_y (player g) + dy) = (x, y)));
    destruct (decide ((pos_x (player g), pos_y (player g)) = (x, y))); done.
Qed.

(** The other fields after an accepted move, before the redraw. *)
Lemma moved_fields dx dy darch g :
  let g' := promote (moved dx dy darch g) in
  player g' = {| pos_x := pos_x (player g) + dx; pos_y := pos_y (player g) + dy |}
  /\ exit g' = exit g
  /\ moveCount g' = moveCount g + 1
  /\ recentDirections g'
     = push_capped 12 (recentDirections g) (default "none" (dirNameOf dx dy))
  /\ recentArchetypes g' = push_capped 20 (recentArchetypes g) darch
  /\ recentPositions g'
     = push_capped 14 (recentPositions g)
         {| pos_x := pos_x (player g) + dx; pos_y := pos_y (player g) + dy |}
  /\ thresholds g' = thresholds g
  /\ message g' = "Learning...".
Proof.
  cbn zeta. unfold moved.
  pose proof (promote_fields (arrive dx dy darch (leaveTile g))) as Hp.
  pose proof (arrive_fields dx dy darch (leaveTile g)) as Ha.
  pose proof (leaveTile_fields g) as Hl.
  assert (Hm : message (arrive dx dy darch (leaveTile g)) = "Learning...") by done.
  generalize dependent (promote (arrive dx dy darch (leaveTile g))).
  generalize dependent (arrive dx dy darch (leaveTile g)).
  generalize dependent (leaveTile g).
  intros g1 Hl g2 Ha Hm g3 Hp.
  destruct Hp as (Hp1 & Hp2 & Hp3 & _ & Hp4 & Hp5 & Hp6 & Hp7 & Hp8).
  destruct Ha as (Ha1 & Ha2 & Ha3 & _ & Ha4 & Ha5 & Ha6 & Ha7).
  destruct Hl as (Hl1 & Hl2 & Hl3 & Hl4 & Hl5 & Hl6 & Hl7).
  repeat split; congruence.
Qed.

Lemma crystallized_leaveTile g :
  crystallized (leaveTile g) = crystallized g + (if firesOn g then 1 else 0).
Proof.
  unfold leaveTile, firesOn. cbn zeta. cbn [grid set_grid].
  rewrite getTile_updTile_eq.
  destruct (getTile (grid g) (pos_x (player g)) (pos_y (player g))) as [c|];
    cbn [fmap option_fmap option_map]; [|simpl; lia].
  destruct (ruleFires (bump c) _); simpl; lia.
Qed.

Lemma crystallized_moved dx dy darch g :
  crystallized (promote (moved dx dy darch g))
  = crystallized g + (if firesOn g then 1 else 0).
Proof.
  unfold moved.
  destruct (promote_fields (arrive dx dy darch (leaveTile g))) as (_ & _ & _ & -> & _).
  destruct (arrive_fields dx dy darch (leaveTile g)) as (_ & _ & _ & -> & _).
  apply crystallized_leaveTile.
Qed.

Lemma pool_moved dx dy darch g :
  archetypePool (promote (moved dx dy darch g)) = archetypePool g.
Proof.
  unfold moved, promote. destruct (getTile _ _ _) as [d|]; [destruct (bool_decide _)|];
    cbn [archetypePool set_grid]; unfold arrive;
    cbn [archetypePool set_grid set_message set_moveCount
      set_recentPositions set_recentArchetypes set_recentDirections set_player];
    unfold leaveTile; cbn zeta; destruct (getTile _ _ _); try destruct (ruleFires _ _); done.
Qed.

Lemma revealTimer_moved dx dy darch g :
  revealTimer (promote (moved dx dy darch g)) = revealTimer g.
Proof.
  unfold moved, promote. destruct (getTile _ _ _) as [d|]; [destruct (bool_decide _)|];
    cbn [revealTimer set_grid]; unfold arrive;
    cbn [revealTimer set_grid set_message set_moveCount
      set_recentPositions set_recentArchetypes set_recentDirections set_player];
    unfold leaveTile; cbn zeta; destruct (getTile _ _ _); try destruct (ruleFires _ _); done.
Qed.

(** *** Sums over the grid *)

Lemma sumZ_alter (f : Tile -> Z) h i row t :
  row !! i = Some t ->
  sumZ (f <$> alter h i row) = sumZ (f <$> row) - f t + f (h t).
Proof.
  unfold alter, fmap. revert i. induction row as [|a row IH]; intros [|i] Hi; try done.
  - injection Hi as ->. simpl. lia.
  - simpl in *. rewrite (IH i Hi). lia.
Qed.

Lemma total_updTile f h x y gr t :
  getTile gr x y = Some t ->
  total f (updTile h x y gr) = total f gr - f t + f (h t).
Proof.
  unfold getTile, updTile, total. destruct ((0 <=? x) && (0 <=? y)); [|done].
  generalize (Z.to_nat y) as j. generalize (Z.to_nat x) as i. intros i.
  unfold alter, fmap. induction gr as [|row gr IH]; intros [|j] Hj; try done.
  - simpl in *. pose proof (sumZ_alter f h i row t Hj) as Hs.
    unfold alter, fmap in Hs. rewrite Hs. lia.
  - simpl in *. rewrite (IH j Hj). lia.
Qed.

Lemma total_fmap f (h : Tile -> Tile) gr :
  (forall t, f (h t) = f t) ->
  total f (fmap (M := list) h <$> gr) = total f gr.
Proof.
  intros Hh. unfold total. rewrite <- list_fmap_compose. f_equal.
  apply list_fmap_ext. intros _ row _. simpl. rewrite <- list_fmap_compose.
  f_equal. apply list_fmap_ext. intros _ t _. apply Hh.
Qed.

Lemma sumZ_cons a l : sumZ (a :: l) = a + sumZ l.
Proof. done. Qed.

Lemma total_zero f gr :
  (forall x y t, getTile gr x y = Some t -> f t = 0) -> total f gr = 0.
Proof.
  intros Hz. unfold total.
  assert (Hrows : forall j row, gr !! j = Some row -> sumZ (f <$> row) = 0).
  { intros j row Hrow.
    assert (Ht : forall i t, row !! i = Some t -> f t = 0).
    { intros i t Hi. apply (Hz (Z.of_nat i) (Z.of_nat j)). unfold getTile.
      rewrite (proj2 (Z.leb_le _ _)), (proj2 (Z.leb_le _ _)) by lia.
      rewrite !Nat2Z.id, Hrow. done. }
    clear Hrow. induction row as [|t row IH]; [done|].
    rewrite fmap_cons, sumZ_cons, (Ht 0%nat t eq_refl), IH; [done|].
    intros i t' Hi. by apply (Ht (S i)). }
  clear Hz. induction gr as [|row gr IH]; [done|].
  rewrite fmap_cons, sumZ_cons, (Hrows 0%nat row eq_refl), IH; [done|].
  intros j row' Hj. by apply (Hrows (S j)).
Qed.

(** ** What every session of the page satisfies *)

Lemma decayTile_fields t :
  tile_x (decayTile t) = tile_x t /\ tile_y (decayTile t) = tile_y t
  /\ archetype (decayTile t) = archetype t /\ state (decayTile t) = state t
  /\ leaveCount (decayTile t) = leaveCount t /\ visits (decayTile t) = visits t
  /\ lastEntry (decayTile t) = lastEntry t.
Proof. unfold decayTile. by destruct (PrimFloat.ltb _ _). Qed.

Lemma decayTile_newTile x y n : decayTile (newTile x y n) = newTile x y n.
Proof. done. Qed.

Lemma leaveT_fields fires t :
  tile_x (leaveT fires t) = tile_x t /\ tile_y (leaveT fires t) = tile_y t
  /\ archetype (leaveT fires t) = archetype t
  /\ state (leaveT fires t) = (if fires then Wall else state t)
  /\ leaveCount (leaveT fires t) = leaveCount t + 1
  /\ visits (leaveT fires t) = visits t
  /\ lastEntry (leaveT fires t) = lastEntry t.
Proof. by destruct fires. Qed.

Lemma arriveT_fields n t :
  let t' := promoteT (enter n t) in
  tile_x t' = tile_x t /\ tile_y t' = tile_y t
  /\ archetype t' = archetype t
  /\ state t' = (if bool_decide (state t = Neutral) then Safe else state t)
  /\ leaveCount t' = leaveCount t
  /\ visits t' = visits t + 1
  /\ lastEntry t' = n.
Proof.
  cbn zeta. unfold promoteT. cbn [enter state set_visits set_lastEntry].
  by destruct (bool_decide (state t = Neutral)).
Qed.

(** *** The tile counters *)

Lemma total_leaveTile f g c :
  getTile (grid g) (pos_x (player g)) (pos_y (player g)) = Some c ->
  total f (grid (leaveTile g)) = total f (grid g) - f c + f (leaveT (firesOn g) c).
Proof.
  intros Hc. unfold leaveTile, firesOn, leaveT. cbn zeta. cbn [grid set_grid].
  rewrite getTile_updTile_eq, Hc. cbn [fmap option_fmap option_map].
  pose proof (total_updTile f bump _ _ _ _ Hc) as Hb.
  destruct (ruleFires (bump c) _); cbn [crystallizeAt grid set_grid set_crystallized];
    [|lia].
  rewrite (total_updTile f crystallize _ _ _ (bump c)); [lia|].
  by rewrite getTile_updTile_eq, Hc.
Qed.

Lemma total_arrive f dx dy darch g d :
  getTile (grid g) (pos_x (player g) + dx) (pos_y (player g) + dy) = Some d ->
  total f (grid (arrive dx dy darch g))
  = total f (grid g) - f d + f (enter (dirNameOf dx dy) d).
Proof.
  intros Hd. unfold arrive. cbn [grid set_grid set_message set_moveCount
    set_recentPositions set_recentArchetypes set_recentDirections set_player].
  by apply total_updTile.
Qed.

Lemma total_promote f g d :
  getTile (grid g) (pos_x (player g)) (pos_y (player g)) = Some d ->
  total f (grid (promote g)) = total f (grid g) - f d + f (promoteT d).
Proof.
  intros Hd. unfold promote, promoteT. rewrite Hd.
  destruct (bool_decide (state d = Neutral)); [|lia].
  cbn [grid set_grid]. by apply total_updTile.
Qed.

Lemma total_moved f dx dy darch g c d :
  (pos_x (player g), pos_y (player g)) <> (pos_x (player g) + dx, pos_y (player g) + dy) ->
  getTile (grid g) (pos_x (player g)) (pos_y (player g)) = Some c ->
  getTile (grid g) (pos_x (player g) + dx) (pos_y (player g) + dy) = Some d ->
  total f (grid (promote (moved dx dy darch g)))
  = total f (grid g) - f c + f (leaveT (firesOn g) c)
    - f d + f (promoteT (enter (dirNameOf dx dy) d)).
Proof.
  intros Hne Hc Hd. unfold moved.
  assert (Hd1 : getTile (grid (leaveTile g)) (pos_x (player (leaveTile g)) + dx)
                  (pos_y (player (leaveTile g)) + dy) = Some d).
  { rewrite player_leaveTile, getTile_leaveTile, Hd. by rewrite decide_False. }
  assert (Hd2 : getTile (grid (arrive dx dy darch (leaveTile g)))
                  (pos_x (player (arrive dx dy darch (leaveTile g))))
                  (pos_y (player (arrive dx dy darch (leaveTile g))))
                = Some (enter (dirNameOf dx dy) d)).
  { destruct (arrive_fields dx dy darch (leaveTile g)) as (-> & _). cbn [pos_x pos_y].
    rewrite getTile_arrive, Hd1. by rewrite decide_True. }
  rewrite (total_promote f _ _ Hd2), (total_arrive f _ _ _ _ _ Hd1),
    (total_leaveTile f _ _ Hc). lia.
Qed.

Lemma unitMove_moves dx dy x y : unitMove dx dy -> (x, y) <> (x + dx, y + dy).
Proof.
  unfold unitMove, north, east, south, west.
  rewrite !elem_of_cons, elem_of_nil.
  intros [E|[E|[E|[E|[]]]]]; injection E as -> ->; intros [=]; lia.
Qed.

Lemma unitMove_dirName dx dy : unitMove dx dy -> exists n, dirNameOf dx dy = Some n.
Proof.
  unfold unitMove, north, east, south, west.
  rewrite !elem_of_cons, elem_of_nil.
  intros [E|[E|[E|[E|[]]]]]; injection E as -> ->; by eexists.
Qed.

Lemma push_capped_length {A} cap (l : list A) v n :
  1 <= cap -> Z.of_nat (length l) = Z.min n cap ->
  Z.of_nat (length (push_capped cap l v)) = Z.min (n + 1) cap.
Proof.
  intros Hcap Hl. unfold push_capped. destruct l as [|a l].
  - cbn [app length] in *. rewrite (proj2 (Z.ltb_ge cap (Z.of_nat 1))) by lia.
    cbn [length]. lia.
  - cbn [app length tail] in *. rewrite length_app in *. cbn [length] in *.
    destruct (cap <? _) eqn:Hlt; [apply Z.ltb_lt in Hlt|apply Z.ltb_ge in Hlt];
      cbn [length]; rewrite ?length_app; cbn [length]; lia.
Qed.

Lemma firesOn_spec g c :
  getTile (grid g) (pos_x (player g)) (pos_y (player g)) = Some c ->
  firesOn g
  = ruleFires (bump c)
      (set_grid (updTile bump (pos_x (player g)) (pos_y (player g)) (grid g)) g).
Proof. intros Hc. unfold firesOn. by rewrite Hc. Qed.

Lemma firesOn_not_frozen g c :
  getTile (grid g) (pos_x (player g)) (pos_y (player g)) = Some c ->
  firesOn g = true -> state c <> Wall /\ state c <> Exit.
Proof.
  intros Hc. rewrite (firesOn_spec g c Hc). intros Hf%ruleFires_not_frozen.
  unfold frozen in Hf. cbn [state bump set_leaveCount] in Hf. tauto.
Qed.

(** *** Each part of [Steady], along an accepted move *)

Section Parts.
Context (dx dy : Z) (d : Tile) (g : Game).
Hypothesis Hsound : Sound g.
Hypothesis Hunit : unitMove dx dy.
Hypothesis Hd : getTile (grid g) (pos_x (player g) + dx) (pos_y (player g) + dy) = Some d.
Hypothesis Hwall : state d <> Wall.

Lemma current_tile :
  exists c, getTile (grid g) (pos_x (player g)) (pos_y (player g)) = Some c.
Proof.
  destruct Hsound as ([Hgr [Hx Hy]]%session_ok_spec & _).
  destruct (grid_ok_sound _ Hgr _ _ Hx Hy) as (c & Hc & _). by exists c.
Qed.

Lemma Accounts_move : Accounts g -> Accounts (promote (moved dx dy (archetype d) g)).
Proof.
  intros (Hv & Hl & Hc). destruct current_tile as [c Hc'].
  pose proof (unitMove_moves dx dy (pos_x (player g)) (pos_y (player g)) Hunit) as Hne.
  destruct (moved_fields dx dy (archetype d) g) as (_ & _ & Hm & _).
  destruct (leaveT_fields (firesOn g) c) as (_ & _ & _ & _ & Hlc & Hlv & _).
  destruct (arriveT_fields (dirNameOf dx dy) d) as (_ & _ & _ & _ & Hac & Hav & _).
  unfold Accounts. rewrite Hm.
  rewrite !(total_moved _ dx dy _ g c d Hne Hc' Hd), Hlc, Hlv, Hac, Hav.
  rewrite crystallized_moved. destruct (firesOn g); lia.
Qed.

Lemma Buffers_move : Buffers g -> Buffers (promote (moved dx dy (archetype d) g)).
Proof.
  intros (Hm & H1 & H2 & H3). unfold Buffers.
  destruct (moved_fields dx dy (archetype d) g) as (_ & _ & -> & -> & -> & -> & _).
  split; [lia|]. split; [|split]; by apply push_capped_length.
Qed.

Lemma TileTells_leave x y c :
  getTile (grid g) (pos_x (player g)) (pos_y (player g)) = Some c ->
  TileTells x y c -> state c = Safe \/ state c = Exit ->
  TileTells x y (leaveT (firesOn g) c).
Proof.
  intros Hc (Hl & Hv & Hn & Hw & Hs & He) Hst.
  destruct (leaveT_fields (firesOn g) c) as (_ & _ & _ & Hs' & Hl' & Hv' & _).
  unfold TileTells. rewrite Hs', Hl', Hv'.
  split; [lia|]. split; [done|].
  destruct (firesOn g) eqn:Hf.
  - destruct (firesOn_not_frozen g c Hc Hf) as [_ Hne].
    split; [done|]. split; [lia|]. split; [|done]. intros _.
    destruct Hst as [Hst|Hst]; [by apply Hs; left|done].
  - split; [intros E; rewrite E in Hst; by destruct Hst|].
    split; [intros E; rewrite E in Hst; by destruct Hst|]. done.
Qed.

Lemma TileTells_arrive x y n :
  TileTells x y d -> TileTells x y (promoteT (enter n d)).
Proof.
  intros (Hl & Hv & Hn & Hw & Hs & He).
  destruct (arriveT_fields n d) as (_ & _ & _ & Hs' & Hl' & Hv' & _).
  unfold TileTells. rewrite Hs', Hl', Hv'.
  split; [done|]. split; [lia|].
  destruct (bool_decide_reflect (state d = Neutral)) as [E|E].
  - split; [done|]. split; [done|]. split; [right; lia|done].
  - split; [done|]. split; [done|]. split; [right; lia|done].
Qed.

Lemma TilesTell_move :
  TilesTell g -> Standing g -> TilesTell (promote (moved dx dy (archetype d) g)).
Proof.
  intros Ht (c & Hc & Hst) x y t. rewrite getTile_moved.
  destruct (getTile (grid g) x y) as [t0|] eqn:Ht0; [|done].
  intros [= <-]. unfold moveTile.
  pose proof (unitMove_moves dx dy (pos_x (player g)) (pos_y (player g)) Hunit) as Hne.
  destruct (decide ((pos_x (player g), pos_y (player g)) = (x, y))) as [E1|E1];
    destruct (decide ((pos_x (player g) + dx, pos_y (player g) + dy) = (x, y))) as [E2|E2].
  - exfalso. by rewrite <- E2 in E1.
  - injection E1 as <- <-. rewrite Hc in Ht0. injection Ht0 as <-.
    apply TileTells_leave; [done| |done]. by apply Ht.
  - injection E2 as <- <-. rewrite Hd in Ht0. injection Ht0 as <-.
    apply TileTells_arrive. by apply Ht.
  - by apply Ht.
Qed.

Lemma Standing_move : Standing (promote (moved dx dy (archetype d) g)).
Proof.
  unfold Standing.
  destruct (moved_fields dx dy (archetype d) g) as (-> & _). cbn [pos_x pos_y].
  rewrite getTile_moved, Hd. cbn [fmap option_fmap option_map]. unfold moveTile.
  pose proof (unitMove_moves dx dy (pos_x (player g)) (pos_y (player g)) Hunit) as Hne.
  destruct (decide ((pos_x (player g), pos_y (player g)) = _)) as [E1|E1]; [done|].
  destruct (decide ((pos_x (player g) + dx, pos_y (player g) + dy) = _)) as [E2|E2];
    [|done].
  eexists. split; [done|].
  destruct (arriveT_fields (dirNameOf dx dy) d) as (_ & _ & _ & -> & _).
  destruct (bool_decide_reflect (state d = Neutral)) as [E|E]; [by left|].
  destruct (state d); tauto.
Qed.

Lemma Tuned_move : Tuned g -> Tuned (promote (moved dx dy (archetype d) g)).
Proof.
  intros (Hr & Ht).
  destruct (moved_fields dx dy (archetype d) g) as (_ & _ & _ & _ & _ & _ & Hth & _).
  unfold Tuned. rewrite Hth. split; [done|].
  intros x y t. rewrite getTile_moved.
  destruct (getTile (grid g) x y) as [t0|] eqn:Ht0; [|done].
  intros [= <-]. unfold moveTile.
  set (t1 := if decide ((pos_x (player g), pos_y (player g)) = (x, y))
             then leaveT (firesOn g) t0 else t0).
  assert (H1 : archetype t1 = ThirdExit -> state t1 <> Wall -> state t1 <> Exit ->
               leaveCount t1 < thirdExit (thresholds g)).
  { unfold t1. destruct (decide _) as [E|E]; [|by apply (Ht x y)].
    injection E as <- <-.
    destruct (leaveT_fields (firesOn g) t0) as (_ & _ & -> & -> & -> & _).
    intros Ha Hw He. destruct (firesOn g) eqn:Hf; [done|].
    rewrite (firesOn_spec g t0 Ht0) in Hf. unfold ruleFires in Hf.
    cbn [state bump set_leaveCount archetype] in Hf.
    rewrite (bool_decide_false _ Hw), (bool_decide_false _ He), Ha in Hf.
    cbn [negb orb andb trigger thresholds set_grid leaveCount] in Hf.
    apply Z.leb_gt in Hf. done. }
  clearbody t1.
  destruct (decide ((pos_x (player g) + dx, pos_y (player g) + dy) = (x, y))) as [E|E];
    [|exact H1].
  destruct (arriveT_fields (dirNameOf dx dy) t1) as (_ & _ & -> & -> & -> & _).
  intros Ha Hw He. apply H1; [done| |];
    destruct (bool_decide_reflect (state t1 = Neutral)) as [En|En];
    try done; by rewrite En.
Qed.

Lemma Tracked_move : Tracked (promote (moved dx dy (archetype d) g)).
Proof.
  right. unfold Newest.
  destruct (moved_fields dx dy (archetype d) g) as (-> & _ & _ & _ & _ & -> & _).
  apply push_capped_snoc. lia.
Qed.

Lemma Pooled_move : Pooled g -> Pooled (promote (moved dx dy (archetype d) g)).
Proof.
  intros (Hp & Ht). unfold Pooled. rewrite pool_moved. split; [done|].
  intros x y t. rewrite getTile_moved.
  destruct (getTile (grid g) x y) as [t0|] eqn:Ht0; [|done].
  intros [= <-]. destruct (Ht x y t0 Ht0) as (a & Ha & Heq).
  exists a. split; [done|]. rewrite <- Heq. unfold moveTile.
  destruct (decide ((pos_x (player g), pos_y (player g)) = _));
    destruct (decide ((pos_x (player g) + dx, pos_y (player g) + dy) = _));
    rewrite ?(proj1 (proj2 (proj2 (arriveT_fields _ _))));
    rewrite ?(proj1 (proj2 (proj2 (leaveT_fields _ _)))); done.
Qed.

Lemma Entered_move : Buffers g -> Entered (promote (moved dx dy (archetype d) g)).
Proof.
  intros (Hm & _). unfold Entered.
  destruct (moved_fields dx dy (archetype d) g) as (-> & _ & -> & -> & _).
  cbn [pos_x pos_y]. rewrite getTile_moved, Hd. cbn [fmap option_fmap option_map].
  unfold moveTile.
  pose proof (unitMove_moves dx dy (pos_x (player g)) (pos_y (player g)) Hunit) as Hne.
  destruct (decide ((pos_x (player g), pos_y (player g)) = _)) as [E1|E1]; [done|].
  destruct (decide ((pos_x (player g) + dx, pos_y (player g) + dy) = _)) as [E2|E2];
    [|done].
  eexists. split; [done|]. split; [|lia].
  destruct (arriveT_fields (dirNameOf dx dy) d) as (_ & _ & _ & _ & _ & _ & ->).
  destruct (unitMove_dirName dx dy Hunit) as [n ->].
  change (default "none" (Some n)) with n.
  destruct (push_capped_snoc 12 (recentDirections g) n ltac:(lia)) as [l' ->].
  by rewrite last_snoc.
Qed.

(** The whole of [Steady]. *)
Lemma Steady_move : Steady g -> Steady (promote (moved dx dy (archetype d) g)).
Proof.
  intros (HA & HB & HT & HS & HU & HK & HP & HE).
  split; [by apply Accounts_move|]. split; [by apply Buffers_move|].
  split; [by apply TilesTell_move|]. split; [by apply Standing_move|].
  split; [by apply Tuned_move|]. split; [by apply Tracked_move|].
  split; [by apply Pooled_move|]. by apply Entered_move.
Qed.
End Parts.

(** *** Along the other operations *)

Lemma TileTells_decay x y t : TileTells x y t -> TileTells x y (decayTile t).
Proof.
  intros (Hl & Hv & Hn & Hw & Hs & He).
  destruct (decayTile_fields t) as (_ & _ & Ha & Hst & Hlc & Hvs & _).
  unfold TileTells. rewrite Ha, Hst, Hlc, Hvs. do 2 (split; [done|]).
  split; [|done]. intros E. rewrite (Hn E). apply decayTile_newTile.
Qed.

Lemma Steady_tick g : Steady g -> Steady (tick g).
Proof.
  intros ((Hv & Hl & Hc) & HB & HT & (c & Hc' & Hst) & (Hr & Ht3) & HK & (Hp & Hpt)
          & (e & He & Hle & Hz)).
  destruct (tick_fields g) as (Hpl & _ & Hm & Hcr & Hrd & Hra & Hrp & Hth & _).
  split; [|split; [|split; [|split; [|split; [|split; [|split]]]]]].
  - unfold Accounts. rewrite grid_tick, Hm, Hcr.
    rewrite !total_fmap; [done|intros t; apply decayTile_fields..].
  - unfold Buffers. by rewrite Hm, Hrd, Hra, Hrp.
  - intros x y t. rewrite getTile_tick.
    destruct (getTile (grid g) x y) as [t0|] eqn:Ht0; [|done].
    intros [= <-]. by apply TileTells_decay, HT.
  - unfold Standing. rewrite Hpl, getTile_tick, Hc'. eexists. split; [done|].
    by rewrite decayTile_state.
  - unfold Tuned. rewrite Hth. split; [done|]. intros x y t. rewrite getTile_tick.
    destruct (getTile (grid g) x y) as [t0|] eqn:Ht0; [|done].
    intros [= <-]. destruct (decayTile_fields t0) as (_ & _ & -> & -> & -> & _).
    by apply (Ht3 x y).
  - unfold Tracked, Newest. rewrite Hm, Hrp, Hpl. done.
  - unfold Pooled.
    assert (archetypePool (tick g) = archetypePool g) as ->.
    { unfold tick. by destruct (0 <? revealTimer g). }
    split; [done|]. intros x y t. rewrite getTile_tick.
    destruct (getTile (grid g) x y) as [t0|] eqn:Ht0; [|done].
    intros [= <-]. rewrite decayTile_archetype. by apply (Hpt x y).
  - unfold Entered. rewrite Hpl, getTile_tick, He, Hrd, Hm. eexists. split; [done|].
    split; [|done]. by destruct (decayTile_fields e) as (_ & _ & _ & _ & _ & _ & ->).
Qed.

Lemma Steady_set_message m g : Steady g -> Steady (set_message m g).
Proof. done. Qed.

Lemma Steady_set_revealTimer n g : Steady g -> Steady (set_revealTimer n g).
Proof. done. Qed.

Lemma Steady_createGame seed g : createGame seed = Done g -> Steady g.
Proof.
  intros Hg.
  destruct (createGame_spec seed)
    as (g1 & Hg1 & Hgr & Hpl & Hex & Hinit & _ & Hm & Hcr & Hrd & Hra & Hrp & _).
  destruct (createGame_generated seed) as (g2 & Hg2 & Hpool & H3 & H6 & H3' & H4 & Htiles & _).
  rewrite Hg in Hg1, Hg2. injection Hg1 as <-. injection Hg2 as <-.
  assert (Hf : forall f : Tile -> Z,
             (forall s x y n, f (set_state s (newTile x y n)) = 0) -> total f (grid g) = 0).
  { intros f Hf. apply total_zero. intros x y t Ht.
    destruct (Htiles x y t Ht) as (a & _ & ->). apply Hf. }
  split; [|split; [|split; [|split; [|split; [|split; [|split]]]]]].
  - unfold Accounts. rewrite !Hf, Hm, Hcr by done. done.
  - unfold Buffers. by rewrite Hm, Hrd, Hra, Hrp.
  - intros x y t Ht. destruct (Htiles x y t Ht) as (a & _ & ->).
    unfold TileTells, initialState. cbn [leaveCount visits state set_state newTile archetype].
    do 2 (split; [done|]).
    destruct (decide ((1, 1) = (x, y))) as [E1|E1]; [|destruct (decide _) as [E2|E2]].
    + do 2 (split; [done|]). split; [by left|done].
    + do 2 (split; [done|]). split; [by intros [|]|done].
    + split; [done|]. split; [done|]. split; [by intros [|]|done].
  - unfold Standing. rewrite Hpl. cbn [pos_x pos_y].
    destruct (grid_ok_sound _ Hgr 1 1) as (t & Ht & _); [unfold gridSize; lia..|].
    exists t. split; [done|]. left. by rewrite (Hinit 1 1 t Ht).
  - split; [done|]. intros x y t Ht. destruct (Htiles x y t Ht) as (a & _ & ->).
    cbn [leaveCount set_state newTile]. lia.
  - by left.
  - split; [done|]. intros x y t Ht. destruct (Htiles x y t Ht) as (a & Ha & ->).
    by exists a.
  - unfold Entered. rewrite Hpl, Hrd. cbn [pos_x pos_y].
    destruct (grid_ok_sound _ Hgr 1 1) as (t & Ht & _); [unfold gridSize; lia..|].
    exists t. split; [done|]. split; [|done].
    by destruct (Htiles 1 1 t Ht) as (a & _ & ->).
Qed.

(** After every event, the page shows a sound and steady session. *)
Lemma page_Steady seed events w0 :
  exists g, page seed events w0 = Done (shown g) /\ Sound g /\ Steady g.
Proof.
  apply page_invariant.
  - apply Steady_createGame.
  - intros g _. apply Steady_tick.
  - intros m g _. apply Steady_set_message.
  - intros g _. apply Steady_set_revealTimer.
  - intros dx dy d g Hs HP Hu _ Hd Hw. by apply Steady_move.
Qed.

(** ** Properties of the page *)

(** X1. Whatever the seed of the first session and whatever events follow
    (key presses, clicks on either button, timer ticks, in any order), no
    listener throws, and afterwards the three text nodes show exactly the
    move counter, the crystallized counter and the message of the session,
    whose grid is well formed and whose player is inside the grid. *)
Theorem page_never_throws_and_shows_the_session seed events w0 :
  exists w g,
    page seed events w0 = Done w /\ game w = Some g
    /\ movesEl w = moveCount g /\ crystallizedEl w = crystallized g
    /\ statusEl w = message g
    /\ grid_ok (grid g) = true /\ inGrid (player g) = true.
Proof.
  destruct (page_Steady seed events w0) as (g & Hp & (Hok & _) & _).
  exists (shown g), g. split; [done|]. do 4 (split; [done|]).
  unfold session_ok in Hok. by apply andb_true_iff in Hok.
Qed.

(** X2. After every run of the page, the [visits] of all tiles add up to
    [moveCount], and so do their [leaveCount]s; no more tiles have
    crystallized than moves were made. *)
Theorem tile_counters_add_up_to_moveCount seed events w0 :
  exists g,
    page seed events w0 = Done (shown g)
    /\ total visits (grid g) = moveCount g
    /\ total leaveCount (grid g) = moveCount g
    /\ 0 <= crystallized g <= moveCount g.
Proof.
  destruct (page_Steady seed events w0)
    as (g & Hp & (_ & _ & Hc%counter_ok_spec) & (Hv & Hl & Hcm) & _).
  exists g. do 3 (split; [done|]). split; [|done]. rewrite Hc. unfold wallCount. lia.
Qed.

(** X3. After every run of the page, each history buffer holds one entry
    per accepted move of the session, up to its cap: 12 directions, 20
    archetypes, 14 positions. *)
Theorem history_buffers_fill_up_to_their_caps seed events w0 :
  exists g,
    page seed events w0 = Done (shown g)
    /\ 0 <= moveCount g
    /\ Z.of_nat (length (recentDirections g)) = Z.min (moveCount g) 12
    /\ Z.of_nat (length (recentArchetypes g)) = Z.min (moveCount g) 20
    /\ Z.of_nat (length (recentPositions g)) = Z.min (moveCount g) 14.
Proof.
  destruct (page_Steady seed events w0) as (g & Hp & _ & _ & HB & _).
  by exists g.
Qed.

(** X4. After every run of the page, the state of a tile tells its past:
    a neutral tile is exactly as [createGame] made it (never entered, never
    left, no reveal); a wall has been left at least once; a tile that is
    safe or a wall has been entered, unless it is the start tile; and the
    only tile in state exit is the one at (16, 16). *)
Theorem tile_state_tells_its_past seed events w0 :
  exists g,
    page seed events w0 = Done (shown g)
    /\ forall x y t, getTile (grid g) x y = Some t ->
         (state t = Neutral -> t = newTile x y (archetype t))
         /\ (state t = Wall -> 1 <= leaveCount t)
         /\ (state t = Safe \/ state t = Wall -> (x, y) = (1, 1) \/ 1 <= visits t)
         /\ (state t = Exit -> (x, y) = (gridSize - 2, gridSize - 2)).
Proof.
  destruct (page_Steady seed events w0) as (g & Hp & _ & _ & _ & HT & _).
  exists g. split; [done|]. intros x y t Ht.
  by destruct (HT x y t Ht) as (_ & _ & ? & ? & ? & ?).
Qed.

(** X5. After every run of the page, the player stands on a tile that is
    safe or the exit: never on a wall, never on a neutral tile. *)
Theorem player_stands_on_safe_or_exit seed events w0 :
  exists g t,
    page seed events w0 = Done (shown g)
    /\ getTile (grid g) (pos_x (player g)) (pos_y (player g)) = Some t
    /\ (state t = Safe \/ state t = Exit).
Proof.
  destruct (page_Steady seed events w0) as (g & Hp & _ & _ & _ & _ & (t & Ht & Hs) & _).
  by exists g, t.
Qed.

(** X6. After every run of the page, the thresholds are within the ranges
    [createGame] draws them from, and every third-exit tile that is not a
    wall (and not the exit) has been left fewer than [thirdExit] times:
    such a tile is a wall after its third or fourth leave at the latest. *)
Theorem third_exit_tile_is_left_at_most_thirdExit_times seed events w0 :
  exists g,
    page seed events w0 = Done (shown g)
    /\ 3 <= thirdExit (thresholds g) <= 4
    /\ 6 <= frequencyWindow (thresholds g) <= 9
    /\ 3 <= frequencyCount (thresholds g) <= 4
    /\ 4 <= backtrackWindow (thresholds g) <= 6
    /\ forall x y t, getTile (grid g) x y = Some t ->
         archetype t = ThirdExit -> state t <> Wall -> state t <> Exit ->
         0 <= leaveCount t < thirdExit (thresholds g).
Proof.
  destruct (page_Steady seed events w0)
    as (g & Hp & _ & _ & _ & HT & _ & ((H1 & H2 & H3 & H4) & Ht) & _).
  exists g. do 5 (split; [done|]). intros x y t Hg Ha Hw He.
  split; [by destruct (HT x y t Hg)|by apply (Ht x y)].
Qed.

(** X7. After every run of the page, the pool is the archetype table
    without one of its five entries, and every tile of the grid has an
    archetype of the pool: one archetype never occurs in a session. *)
Theorem tiles_keep_archetypes_of_the_pool seed events w0 :
  exists g out,
    page seed events w0 = Done (shown g)
    /\ archetypePool g ++ [out] ≡ₚ archetypes
    /\ forall x y t, getTile (grid g) x y = Some t ->
         archetype t <> arch_name out
         /\ exists a, a ∈ archetypePool g /\ archetype t = arch_name a.
Proof.
  destruct (page_Steady seed events w0)
    as (g & Hp & _ & _ & _ & _ & _ & _ & _ & ((out & Hperm) & Ht) & _).
  exists g, out. do 2 (split; [done|]). intros x y t Hg.
  destruct (Ht x y t Hg) as (a & Ha & Heq). split; [|by exists a].
  assert (Hnd : NoDup (arch_name <$> (archetypePool g ++ [out]))).
  { rewrite Hperm. apply (bool_decide_unpack _). by vm_compute. }
  rewrite fmap_app in Hnd. apply NoDup_app in Hnd as (_ & Hdis & _).
  intros E. apply (Hdis (archetype t)).
  - rewrite Heq. by apply list_elem_of_fmap_2.
  - rewrite E. by left.
Qed.

(** ** What the liveness checker decides *)

(** X8. On a well-formed grid and from a start cell inside it,
    [pathExists] returns, never running out of its bound, and it returns
    [true] exactly when there is a route from [start] to [goal]: a walk
    through neighbouring cells of the grid none of which, the start apart,
    is a wall. *)
Theorem pathExists_returns_true_iff_there_is_a_route start goal gr :
  grid_ok gr = true -> inGrid start = true ->
  exists b, pathExists start goal gr = Done b /\ (b = true <-> Route gr start goal).
Proof.
  intros Hgr Hin. apply pathExists_decides; [by apply grid_ok_sound|by apply inGrid_spec].
Qed.

(** Seed 0.875, after north, west, south, north: the player stands in the
    corner (0, 0) between two walls, and no route leads to the exit. *)
Lemma pathExists_returns_true_iff_there_is_a_route_witness :
  let g := theSession (theWorld (play 0.875 [north; west; south; north])) in
  player g = {| pos_x := 0; pos_y := 0 |}
  /\ pathExists (player g) (exit g) (grid g) = Done false
  /\ ~ Route (grid g) (player g) (exit g).
Proof.
  intros g. split; [by_compute|].
  destruct (pathExists_returns_true_iff_there_is_a_route (player g) (exit g) (grid g))
    as (b & Hb & Hiff); [by_compute|by_compute|].
  assert (Hf : pathExists (player g) (exit g) (grid g) = Done false) by by_compute.
  split; [exact Hf|]. rewrite Hf in Hb. injection Hb as <-.
  intros Hr. apply Hiff in Hr. discriminate Hr.
Defined.

Lemma isTrapped_every_decides dirs p gr :
  GridOk gr ->
  exists b, isTrapped_every dirs p gr = Done b
            /\ (b = true <-> forall dir, dir ∈ dirs -> ~ Passable gr (neighbour p dir)).
Proof.
  intros HG. induction dirs as [|dir dirs (b & IH & Hiff)].
  { exists true. split; [done|]. split; [|done]. by intros _ dir ?%elem_of_nil. }
  cbn [isTrapped_every].
  destruct (outOfGrid (pos_x p + dir_x dir) (pos_y p + dir_y dir)) eqn:Hout.
  - res_step. exists b. split; [done|]. rewrite Hiff. split.
    + intros H d [->|Hd]%elem_of_cons; [|by apply H].
      intros [HI%inGrid_spec _]. unfold inGrid, neighbour in HI. cbn [pos_x pos_y] in HI.
      by rewrite Hout in HI.
    + intros H d Hd. apply H. by right.
  - pose proof Hout as [Hx Hy]%outOfGrid_false.
    destruct (HG _ _ Hx Hy) as (t & Ht & _). rewrite Ht. res_step.
    destruct (bool_decide_reflect (state t = Wall)) as [Hw|Hw].
    + exists b. split; [done|]. rewrite Hiff. split.
      * intros H d [->|Hd]%elem_of_cons; [|by apply H].
        intros (_ & t' & Ht' & Hn). unfold neighbour in Ht'. cbn [pos_x pos_y] in Ht'.
        rewrite Ht in Ht'. by injection Ht' as <-.
      * intros H d Hd. apply H. by right.
    + exists false. split; [done|]. split; [done|]. intros H. exfalso.
      apply (H dir); [by left|]. split; [done|]. by exists t.
Qed.

(** X9. On a well-formed grid, [isTrapped] returns, and it returns [true]
    exactly when none of the four neighbouring cells is passable: each is
    outside the grid or a wall. *)
Theorem isTrapped_returns_true_iff_no_neighbour_is_passable p gr :
  grid_ok gr = true ->
  exists b, isTrapped p gr = Done b
            /\ (b = true <-> forall dir, dir ∈ directions -> ~ Passable gr (neighbour p dir)).
Proof. intros Hgr. by apply isTrapped_every_decides, grid_ok_sound. Qed.

(** The same corner: both neighbours inside the grid are walls. *)
Lemma isTrapped_returns_true_iff_no_neighbour_is_passable_witness :
  let g := theSession (theWorld (play 0.875 [north; west; south; north])) in
  isTrapped (player g) (grid g) = Done true
  /\ forall dir, dir ∈ directions -> ~ Passable (grid g) (neighbour (player g) dir).
Proof.
  intros g.
  destruct (isTrapped_returns_true_iff_no_neighbour_is_passable (player g) (grid g))
    as (b & Hb & Hiff); [by_compute|].
  assert (Ht : isTrapped (player g) (grid g) = Done true) by by_compute.
  split; [exact Ht|]. rewrite Ht in Hb. injection Hb as <-. by apply Hiff.
Defined.

(** *** A grid without walls *)

Lemma countRow_zero {A} (p : A -> bool) row i a :
  countRow p row = 0%nat -> row !! i = Some a -> p a = false.
Proof.
  revert i. induction row as [|b row IH]; intros i; [done|].
  rewrite countRow_cons. intros Hc. destruct i as [|i]; simpl.
  - intros [= ->]. destruct (p a); [simpl in Hc; lia|done].
  - apply IH. lia.
Qed.

Lemma count2_zero {A} (p : A -> bool) gr x y a :
  count2 p gr = 0%nat -> getTile gr x y = Some a -> p a = false.
Proof.
  unfold getTile, count2. destruct ((0 <=? x) && (0 <=? y)); [|done].
  generalize (Z.to_nat y) as j. generalize (Z.to_nat x) as i. intros i.
  unfold fmap. induction gr as [|row gr IH]; intros [|j]; simpl; try done.
  - intros Hc. apply countRow_zero. lia.
  - intros Hc. apply IH. lia.
Qed.

Lemma Route_open gr p q :
  (forall r, InGrid r -> Passable gr r) -> InGrid p -> InGrid q -> Route gr p q.
Proof.
  intros Hopen Hp Hq.
  remember (Z.to_nat (Z.abs (pos_x q - pos_x p) + Z.abs (pos_y q - pos_y p))) as n eqn:Hn.
  revert p Hp Hn. induction n as [|n IH]; intros p Hp Hn.
  { assert (p = q) as -> by (apply Pos_ext; lia). constructor. }
  assert (Hstep : forall dir, dir ∈ directions -> InGrid (neighbour p dir) ->
            n = Z.to_nat (Z.abs (pos_x q - pos_x (neighbour p dir))
                          + Z.abs (pos_y q - pos_y (neighbour p dir))) ->
            Route gr p q).
  { intros dir Hd HI Hm. eapply Route_step; [done|by apply Hopen|by apply IH]. }
  destruct Hp as [Hpx Hpy]. destruct Hq as [Hqx Hqy]. unfold InGrid in Hstep.
  destruct (Z.lt_trichotomy (pos_x p) (pos_x q)) as [Hlt|[Heq|Hgt]].
  - apply (Hstep {| dir_x := 1; dir_y := 0; dir_name := "east" |});
      [apply list_elem_of_In; simpl; tauto|cbn [neighbour pos_x pos_y dir_x dir_y]; lia..].
  - destruct (Z.lt_trichotomy (pos_y p) (pos_y q)) as [Hlt|[Heq'|Hgt]]; [|lia|].
    + apply (Hstep {| dir_x := 0; dir_y := 1; dir_name := "south" |});
        [apply list_elem_of_In; simpl; tauto|cbn [neighbour pos_x pos_y dir_x dir_y]; lia..].
    + apply (Hstep {| dir_x := 0; dir_y := -1; dir_name := "north" |});
        [apply list_elem_of_In; simpl; tauto|cbn [neighbour pos_x pos_y dir_x dir_y]; lia..].
  - apply (Hstep {| dir_x := -1; dir_y := 0; dir_name := "west" |});
      [apply list_elem_of_In; simpl; tauto|cbn [neighbour pos_x pos_y dir_x dir_y]; lia..].
Qed.

(** X10. After every run of the page, as long as the crystallized counter
    is at zero there is a route from the player to the exit, and
    [pathExists] finds it. *)
Theorem exit_is_reachable_while_nothing_has_crystallized seed events w0 :
  exists g,
    page seed events w0 = Done (shown g)
    /\ (crystallized g = 0 ->
        Route (grid g) (player g) (exit g)
        /\ pathExists (player g) (exit g) (grid g) = Done true).
Proof.
  destruct (page_Steady seed events w0)
    as (g & Hp & (Hok & Hex & Hc) & _ & _ & HT & _).
  exists g. split; [done|]. intros Hz.
  pose proof Hok as [Hgr HP]%session_ok_spec. pose proof (grid_ok_sound _ Hgr) as HG.
  assert (HE : InGrid (exit g)).
  { apply exit_ok_spec in Hex. unfold stateAt in Hex.
    destruct (getTile (grid g) (pos_x (exit g)) (pos_y (exit g))) as [t|] eqn:Ht; [|done].
    injection Hex as Hex. destruct (HT _ _ _ Ht) as (_ & _ & _ & _ & _ & He).
    specialize (He Hex). injection He as Hx Hy. unfold InGrid, gridSize in *. lia. }
  assert (Hr : Route (grid g) (player g) (exit g)).
  { apply Route_open; [|done..]. intros r [Hx Hy]. split; [done|].
    destruct (HG _ _ Hx Hy) as (t & Ht & _). exists t. split; [done|].
    apply counter_ok_spec in Hc. rewrite Hz in Hc. unfold wallCount in Hc.
    assert (Hw : isWall t = false) by (eapply count2_zero; [|exact Ht]; lia).
    unfold isWall in Hw. by apply bool_decide_eq_false in Hw. }
  split; [done|].
  destruct (pathExists_decides (player g) (exit g) (grid g) HG HP) as (b & -> & Hiff).
  by rewrite (proj2 Hiff Hr).
Qed.

(** ** What the generator returns *)

(** X11. For a list of at most [2^21] elements, where the index
    [Math.floor(rng() * (i + 1))] is computed without rounding, [shuffle]
    returns a permutation of the list, whatever the state of the
    generator, and calls the generator once for every element but one;
    the index drawn for the cell [i] is one of [0..i], so that every swap
    is between two cells of the array. *)
Theorem shuffle_permutes_and_draws_length_minus_one {A} (l : list A) a :
  Z.of_nat (length l) <= 2 ^ 21 ->
  (shuffle l a).1 ≡ₚ l
  /\ (shuffle l a).2 = draws (length l - 1) a
  /\ forall i a', (0 < i < length l)%nat ->
       let j := floorMul (mulberry32 a').1 (Z.of_nat i + 1) in
       0 <= j <= Z.of_nat i
       /\ is_Some (l !! i) /\ is_Some (l !! Z.to_nat j).
Proof.
  intros _. unfold shuffle.
  refine (conj (shuffle_loop_Permutation _ _ _) (conj (shuffle_loop_draws _ _ _) _)).
  intros i a' Hi. cbv zeta.
  pose proof (mulberry32_range a') as Hr.
  pose proof (floorMul_range _ (Z.of_nat i + 1) Hr ltac:(lia)) as Hj.
  split; [lia|]. split; apply lookup_lt_is_Some; lia.
Qed.

(** The five archetypes of the table, shuffled from the generator state 0
    as [createGame] does for the seed 0. *)
Lemma shuffle_permutes_and_draws_length_minus_one_witness :
  (shuffle archetypes 0).1 ≡ₚ archetypes
  /\ (shuffle archetypes 0).2 = draws 4 0
  /\ arch_name <$> (shuffle archetypes 0).1
     = [Backtrack; Sequence; Frequency; ThirdExit; NorthEntry].
Proof.
  destruct (shuffle_permutes_and_draws_length_minus_one archetypes 0%float)
    as (Hp & Hd & _); [by_compute|].
  split; [exact Hp|]. split; [exact Hd|]. by_compute.
Defined.

(** X12. For every seed, [createGame] returns a session whose pool consists
    of four of the five archetypes of the table, each once (the table is
    the pool plus one archetype, up to order), whose thresholds lie in
    3..4, 6..9, 3..4 and 4..6, and whose generator has been called
    4 + 4 + 18 * 18 times from the state [Math.floor(seed * 1e9)]. *)
Theorem createGame_draws_pool_and_thresholds seed :
  exists g out,
    createGame seed = Done g
    /\ archetypePool g ++ [out] ≡ₚ archetypes
    /\ length (archetypePool g) = 4%nat
    /\ 3 <= thirdExit (thresholds g) <= 4
    /\ 6 <= frequencyWindow (thresholds g) <= 9
    /\ 3 <= frequencyCount (thresholds g) <= 4
    /\ 4 <= backtrackWindow (thresholds g) <= 6
    /\ rng g = draws (4 + 4 + 18 * 18) (math_floor (PrimFloat.mul seed 1e9%float)).
Proof.
  destruct (createGame_generated seed)
    as (g & Hg & (out & Hperm) & H1 & H2 & H3 & H4 & _ & _ & _ & Hr).
  exists g, out. do 2 (split; [done|]). split; [|done].
  apply Permutation_length in Hperm. rewrite length_app in Hperm.
  cbn [length archetypes] in Hperm. lia.
Qed.

(** X13. For every seed, [createGame] returns a session with a grid of 18
    rows of 18 tiles; the tile at [(x, y)] is a new tile with these
    coordinates and an archetype of the pool, neutral but for the start
    (1, 1), which is safe, and the exit (16, 16); the player is on the
    start; counters are zero, histories empty, the message is the learning
    message and no reveal is running. *)
Theorem createGame_lays_out_the_board seed :
  exists g,
    createGame seed = Done g
    /\ length (grid g) = 18%nat
    /\ (forall row, row ∈ grid g -> length row = 18%nat)
    /\ (forall x y, 0 <= x < 18 -> 0 <= y < 18 ->
          exists a, a ∈ archetypePool g
            /\ getTile (grid g) x y
               = Some (set_state (initialState x y) (newTile x y (arch_name a))))
    /\ player g = {| pos_x := 1; pos_y := 1 |}
    /\ exit g = {| pos_x := 16; pos_y := 16 |}
    /\ moveCount g = 0 /\ crystallized g = 0
    /\ recentDirections g = [] /\ recentArchetypes g = [] /\ recentPositions g = []
    /\ message g = "Learning..." /\ revealTimer g = 0.
Proof.
  destruct (createGame_spec seed)
    as (g & Hg & Hgr & Hpl & Hex & _ & _ & Hm & Hc & Hrd & Hra & Hrp & _).
  destruct (createGame_generated seed)
    as (g' & Hg' & _ & _ & _ & _ & _ & Htiles & Hmsg & Hrt & _).
  rewrite Hg in Hg'. injection Hg' as <-.
  exists g. split; [done|].
  pose proof Hgr as Hgr'. unfold grid_ok in Hgr'.
  apply andb_true_iff in Hgr' as [Hlen%Z.eqb_eq Hrows].
  split; [unfold gridSize in Hlen; lia|]. split.
  { intros row [j Hj]%list_elem_of_lookup_1.
    destruct (rows_ok_lookup _ 0 j Hrows (lookup_lt_Some _ _ _ Hj)) as (row' & Hj' & Hl & _).
    rewrite Hj in Hj'. injection Hj' as <-. unfold gridSize in Hl. lia. }
  split.
  { intros x y Hx Hy. destruct (grid_ok_sound _ Hgr x y Hx Hy) as (t & Ht & _).
    destruct (Htiles x y t Ht) as (a & Ha & Heq). exists a. by rewrite Ht, <- Heq. }
  by repeat split.
Qed.

(** ** Keys, the reveal button and the timer *)

(** X14. [handleKey] makes the move of the key, and only that one: up for
    [arrowup] and [w], down for [arrowdown] and [s], left for [arrowleft]
    and [a], right for [arrowright] and [d]; any other key leaves the world
    as it is. *)
Theorem handleKey_makes_the_one_move_of_its_key key w :
  handleKey key w
  = if bool_decide (key ∈ ["arrowup"; "w"]) then attemptMove 0 (-1) w
    else if bool_decide (key ∈ ["arrowdown"; "s"]) then attemptMove 0 1 w
    else if bool_decide (key ∈ ["arrowleft"; "a"]) then attemptMove (-1) 0 w
    else if bool_decide (key ∈ ["arrowright"; "d"]) then attemptMove 1 0 w
    else Done w.
Proof.
  rewrite handleKey_keyMove. unfold keyMove.
  assert (Hin : forall a b : string,
            bool_decide (key ∈ [a; b]) = bool_decide (key = a) || bool_decide (key = b)).
  { intros a b. destruct (bool_decide_reflect (key = a)) as [->|Ha].
    - apply bool_decide_eq_true. by left.
    - destruct (bool_decide_reflect (key = b)) as [->|Hb].
      + apply bool_decide_eq_true. right. by left.
      + apply bool_decide_eq_false.
        intros [?|[?|?%elem_of_nil]%elem_of_cons]%elem_of_cons; done. }
  rewrite !Hin. by repeat destruct (_ || _).
Qed.

Lemma dispatchAll_ticks n g :
  dispatchAll (replicate n TimerTick) (shown g) = Done (shown (ticks n g)).
Proof.
  revert g. induction n as [|n IH]; intros g; [done|].
  cbn [replicate dispatchAll dispatch]. rewrite (draw_spec (shown g) g eq_refl). res_step.
  change (drawn g) with (shown (tick g)). rewrite IH. unfold ticks.
  by rewrite Nat.iter_succ_r.
Qed.

Lemma ticks_fields n g :
  player (ticks n g) = player g /\ exit (ticks n g) = exit g
  /\ moveCount (ticks n g) = moveCount g /\ crystallized (ticks n g) = crystallized g
  /\ recentDirections (ticks n g) = recentDirections g
  /\ recentArchetypes (ticks n g) = recentArchetypes g
  /\ recentPositions (ticks n g) = recentPositions g
  /\ thresholds (ticks n g) = thresholds g /\ message (ticks n g) = message g
  /\ (forall x y, stateAt (ticks n g) x y = stateAt g x y)
  /\ (0 <= revealTimer g -> revealTimer (ticks n g) = Z.max 0 (revealTimer g - Z.of_nat n)).
Proof.
  unfold ticks. induction n as [|n IH]; rewrite ?Nat.iter_succ.
  { do 10 (split; [done|]). intros H0. change (Nat.iter 0 tick g) with g. lia. }
  destruct (tick_fields (Nat.iter n tick g)) as (-> & -> & -> & -> & -> & -> & -> & -> & ->).
  destruct IH as (? & ? & ? & ? & ? & ? & ? & ? & ? & Hs & Hr).
  do 9 (split; [done|]). split.
  - intros x y. by rewrite stateAt_tick.
  - intros Hge. specialize (Hr Hge). revert Hr. generalize (Nat.iter n tick g).
    intros g1 Hr. unfold tick. cbn [revealTimer set_grid].
    destruct (0 <? revealTimer g1) eqn:Hlt;
      [apply Z.ltb_lt in Hlt|apply Z.ltb_ge in Hlt]; cbn [revealTimer set_revealTimer]; lia.
Qed.

(** X15. A click on the reveal button followed by [n] timer ticks leaves
    the reveal countdown at [max 0 (59 - n)] (the click itself redraws
    once), and changes nothing of the game: player, exit, counters,
    histories, thresholds, message and the state of every tile are as
    before. *)
Theorem reveal_counts_down_and_leaves_the_game_alone n g w :
  exists g',
    dispatchAll (RevealClick :: replicate n TimerTick) (set_game g w) = Done (shown g')
    /\ revealTimer g' = Z.max 0 (59 - Z.of_nat n)
    /\ player g' = player g /\ exit g' = exit g
    /\ moveCount g' = moveCount g /\ crystallized g' = crystallized g
    /\ recentDirections g' = recentDirections g
    /\ recentArchetypes g' = recentArchetypes g
    /\ recentPositions g' = recentPositions g
    /\ thresholds g' = thresholds g /\ message g' = message g
    /\ forall x y, stateAt g' x y = stateAt g x y.
Proof.
  cbn [dispatchAll dispatch]. unfold onRevealClick, reveal. cbn [game set_game]. res_step.
  rewrite (draw_spec (set_game (set_revealTimer 60 g) (set_game g w))
             (set_revealTimer 60 g) eq_refl). res_step.
  change (drawn (set_revealTimer 60 g)) with (shown (tick (set_revealTimer 60 g))).
  rewrite dispatchAll_ticks. eexists. split; [done|].
  destruct (ticks_fields n (tick (set_revealTimer 60 g)))
    as (-> & -> & -> & -> & -> & -> & -> & -> & -> & Hs & Hr).
  split; [rewrite Hr; cbn; lia|].
  destruct (tick_fields (set_revealTimer 60 g)) as (-> & -> & -> & -> & -> & -> & -> & -> & ->).
  do 9 (split; [done|]). intros x y. by rewrite Hs, stateAt_tick.
Qed.

(** ** Moves on the page *)

(** A route only depends on which tiles are walls. *)
Lemma Route_states gr gr' p q :
  (forall x y, state <$> getTile gr x y = state <$> getTile gr' x y) ->
  Route gr p q -> Route gr' p q.
Proof.
  intros Hst. induction 1 as [|p dir r Hd (HI & t & Ht & Hw) _ IH]; [constructor|].
  eapply Route_step; [done| |done]. split; [done|].
  specialize (Hst (pos_x (neighbour p dir)) (pos_y (neighbour p dir))).
  rewrite Ht in Hst. destruct (getTile gr' _ _) as [t'|]; [|done].
  exists t'. split; [done|]. injection Hst as Hst. by rewrite <- Hst.
Qed.

(** The session an accepted move ends in, tile by tile and field by
    field. *)
Lemma attemptMove_tiles dx dy w g :
  game w = Some g -> session_ok g = true -> moveAccepted dx dy g = true ->
  exists g',
    attemptMove dx dy w = Done (shown g')
    /\ (forall x y, getTile (grid g') x y
                    = decayTile <$> (moveTile dx dy g x y <$> getTile (grid g) x y))
    /\ player g' = {| pos_x := pos_x (player g) + dx; pos_y := pos_y (player g) + dy |}
    /\ crystallized g' = crystallized g + (if firesOn g then 1 else 0)
    /\ moveCount g' = moveCount g + 1
    /\ exit g' = exit g /\ thresholds g' = thresholds g
    /\ archetypePool g' = archetypePool g.
Proof.
  intros Hg Hok Hacc.
  destruct (attemptMove_accepted_shown dx dy w g Hg Hok Hacc) as (d & m & Hd & Hw & ->).
  eexists. split; [done|]. unfold stepGame.
  set (g1 := promote (moved dx dy (archetype d) g)).
  destruct (tick_fields (set_message m g1)) as (-> & -> & -> & -> & _ & _ & _ & -> & _).
  destruct (set_message_fields m g1) as (-> & -> & -> & -> & _ & _ & _ & -> & _).
  destruct (moved_fields dx dy (archetype d) g) as (Hp & He & Hm & _ & _ & _ & Ht & _).
  fold g1 in Hp, He, Hm, Ht. rewrite Hp, He, Hm, Ht.
  split.
  { intros x y. rewrite getTile_tick, grid_set_message. unfold g1.
    by rewrite getTile_moved. }
  split; [done|]. split; [apply crystallized_moved|]. do 3 (split; [done|]).
  assert (archetypePool (tick (set_message m g1)) = archetypePool g1) as ->.
  { unfold tick. by destruct (0 <? revealTimer _). }
  apply pool_moved.
Qed.

(** X16. An accepted move touches two tiles and no other.  The tile that is
    left gets its [leaveCount] raised and is hardened if its rule fires;
    the tile that is entered gets its entry direction recorded and its
    [visits] raised, and becomes safe if it was neutral; every tile then
    has its reveal value decayed by the redraw.  The crystallized counter
    goes up by one exactly if the left tile hardens; the exit, the
    thresholds and the pool stay as they are. *)
Theorem accepted_move_touches_the_left_and_the_entered_tile dx dy w g :
  game w = Some g -> session_ok g = true -> moveAccepted dx dy g = true ->
  exists w' g',
    attemptMove dx dy w = Done w' /\ game w' = Some g'
    /\ (forall x y,
          getTile (grid g') x y
          = decayTile <$> (moveTile dx dy g x y <$> getTile (grid g) x y))
    /\ (forall x y,
          (pos_x (player g), pos_y (player g)) <> (x, y) ->
          (pos_x (player g) + dx, pos_y (player g) + dy) <> (x, y) ->
          getTile (grid g') x y = decayTile <$> getTile (grid g) x y)
    /\ player g' = {| pos_x := pos_x (player g) + dx; pos_y := pos_y (player g) + dy |}
    /\ crystallized g' = crystallized g + (if firesOn g then 1 else 0)
    /\ moveCount g' = moveCount g + 1
    /\ exit g' = exit g /\ thresholds g' = thresholds g
    /\ archetypePool g' = archetypePool g.
Proof.
  intros Hg Hok Hacc.
  destruct (attemptMove_tiles dx dy w g Hg Hok Hacc) as (g' & -> & Ht & Hrest).
  exists (shown g'), g'. do 3 (split; [done|]). split; [|done].
  intros x y H1 H2. rewrite Ht.
  destruct (getTile (grid g) x y) as [t|]; [|done].
  cbn [fmap option_fmap option_map]. unfold moveTile.
  by rewrite !decide_False by done.
Qed.

(** Seed 0, first move east: the start tile (1, 1), a sequence tile,
    hardens, (2, 1) becomes safe, and (3, 1) is as it was. *)
Lemma accepted_move_touches_the_left_and_the_entered_tile_witness :
  let w := theWorld (play 0 []) in
  let g := theSession w in
  exists w' g',
    attemptMove 1 0 w = Done w' /\ game w' = Some g'
    /\ stateAt g' 1 1 = Some Wall /\ stateAt g' 2 1 = Some Safe
    /\ getTile (grid g') 3 1 = getTile (grid g) 3 1
    /\ crystallized g' = 1.
Proof.
  intros w g.
  destruct (accepted_move_touches_the_left_and_the_entered_tile 1 0 w g)
    as (w' & g' & Hw' & Hg' & _); [by_compute..|].
  assert (Hrun : attemptMove 1 0 w = Done (theWorld (attemptMove 1 0 w))) by by_compute.
  assert (Ew : w' = theWorld (attemptMove 1 0 w)) by congruence.
  assert (Eg : g' = theSession (theWorld (attemptMove 1 0 w))).
  { rewrite <- Ew. unfold theSession. by rewrite Hg'. }
  exists w', g'. split; [exact Hw'|]. split; [exact Hg'|]. rewrite Eg.
  split; [by_compute|]. split; [by_compute|]. split; by_compute.
Defined.

(** What the page has reached, as a session shown by the world. *)
Lemma page_reaches seed events w0 w g :
  page seed events w0 = Done w -> game w = Some g ->
  w = shown g /\ Sound g /\ Steady g.
Proof.
  intros Hp Hg. destruct (page_Steady seed events w0) as (g0 & Hp0 & Hs & Hst).
  rewrite Hp in Hp0. injection Hp0 as ->. by injection Hg as <-.
Qed.

(** What leaving does to the tile under the player, on the page. *)
Lemma key_move_leaves seed events w0 w g key dx dy c :
  page seed events w0 = Done w -> game w = Some g ->
  keyMove key = Some (dx, dy) -> moveAccepted dx dy g = true ->
  getTile (grid g) (pos_x (player g)) (pos_y (player g)) = Some c ->
  exists w' g',
    handleKey key w = Done w' /\ game w' = Some g'
    /\ getTile (grid g') (pos_x (player g)) (pos_y (player g))
       = Some (decayTile (leaveT (firesOn g) c)).
Proof.
  intros Hp Hg Hk Hacc Hc.
  destruct (page_reaches _ _ _ _ _ Hp Hg) as (-> & (Hok & _) & _).
  rewrite handleKey_keyMove, Hk.
  destruct (attemptMove_tiles dx dy (shown g) g eq_refl Hok Hacc) as (g' & -> & Ht & _).
  exists (shown g'), g'. do 2 (split; [done|]).
  rewrite Ht, Hc. cbn [fmap option_fmap option_map]. unfold moveTile.
  pose proof (unitMove_moves dx dy (pos_x (player g)) (pos_y (player g))
                (keyMove_unit _ _ _ Hk)) as Hne.
  destruct (decide ((pos_x (player g), pos_y (player g)) = _)) as [E1|E1]; [|done].
  destruct (decide ((pos_x (player g) + dx, pos_y (player g) + dy) = _)) as [E2|E2];
    [|done].
  by destruct Hne.
Qed.

(** The state of the tile the player has left by an accepted key move. *)
Lemma key_move_left_state seed events w0 w g key dx dy c :
  page seed events w0 = Done w -> game w = Some g ->
  keyMove key = Some (dx, dy) -> moveAccepted dx dy g = true ->
  getTile (grid g) (pos_x (player g)) (pos_y (player g)) = Some c ->
  state c <> Exit ->
  state c = Safe
  /\ exists w' g',
       handleKey key w = Done w' /\ game w' = Some g'
       /\ stateAt g' (pos_x (player g)) (pos_y (player g))
          = Some (if trigger (archetype c) (bump c)
                       (set_grid (updTile bump (pos_x (player g)) (pos_y (player g))
                                    (grid g)) g)
                  then Wall else Safe).
Proof.
  intros Hp Hg Hk Hacc Hc He.
  destruct (key_move_leaves _ _ _ _ _ _ _ _ _ Hp Hg Hk Hacc Hc) as (w' & g' & Hw' & Hg' & Ht).
  destruct (page_reaches _ _ _ _ _ Hp Hg) as (_ & _ & _ & _ & _ & (c' & Hc' & Hst) & _).
  rewrite Hc in Hc'. injection Hc' as <-.
  assert (Hsafe : state c = Safe) by (by destruct Hst).
  split; [done|]. exists w', g'. do 2 (split; [done|]).
  unfold stateAt. rewrite Ht. cbn [fmap option_fmap option_map].
  rewrite decayTile_state.
  destruct (leaveT_fields (firesOn g) c) as (_ & _ & _ & -> & _).
  rewrite (firesOn_spec g c Hc). unfold ruleFires.
  cbn [state bump set_leaveCount archetype]. rewrite Hsafe.
  rewrite !bool_decide_false by done. cbn [orb negb andb].
  by destruct (trigger _ _ _).
Qed.

(** X17. On the page, a backtrack tile under the player (other than the
    exit) hardens on the next accepted move exactly if a move has been
    made in the session before: whatever the direction, and whether or not
    the tile had been visited before, since the window of recent
    positions always contains the player's own position. *)
Theorem backtrack_tile_hardens_whenever_it_is_left seed events w0 w g key dx dy c :
  page seed events w0 = Done w -> game w = Some g ->
  keyMove key = Some (dx, dy) -> moveAccepted dx dy g = true ->
  getTile (grid g) (pos_x (player g)) (pos_y (player g)) = Some c ->
  archetype c = Backtrack -> state c <> Exit ->
  exists w' g',
    handleKey key w = Done w' /\ game w' = Some g'
    /\ (stateAt g' (pos_x (player g)) (pos_y (player g)) = Some Wall
        <-> 1 <= moveCount g).
Proof.
  intros Hp Hg Hk Hacc Hc Ha He.
  destruct (key_move_left_state _ _ _ _ _ _ _ _ _ Hp Hg Hk Hacc Hc He)
    as (Hsafe & w' & g' & Hw' & Hg' & Hs).
  exists w', g'. do 2 (split; [done|]). rewrite Hs, Ha.
  destruct (page_reaches _ _ _ _ _ Hp Hg)
    as (_ & (Hok & _) & _ & (Hm & _ & _ & Hlen) & _ & _ & ((_ & _ & _ & Hbw) & _) & Htr & _).
  cbn [trigger thresholds recentPositions set_grid tile_x tile_y bump set_leaveCount].
  destruct (decide (moveCount g = 0)) as [Hz|Hz].
  - rewrite Hz in Hlen. destruct (recentPositions g) as [|p l]; [|simpl in Hlen; lia].
    rewrite slice_from_nil. cbn [existsb]. split; [done|lia].
  - destruct Htr as [?|[l Hl]]; [done|].
    assert (existsb (fun pos => (pos_x pos =? tile_x c) && (pos_y pos =? tile_y c))
              (slice_from (- backtrackWindow (thresholds g)) (recentPositions g)) = true)
      as ->; [|split; [lia|done]].
    apply session_ok_spec in Hok as [Hgr [Hx Hy]].
    destruct (grid_ok_sound _ Hgr _ _ Hx Hy) as (c' & Hc' & Hcx & Hcy).
    rewrite Hc in Hc'. injection Hc' as <-.
    apply existsb_exists. exists (player g). rewrite Hl at 1.
    split; [apply slice_from_newest; lia|].
    rewrite Hcx, Hcy, !Z.eqb_refl. done.
Qed.

(** Seed 0, after two moves east the player stands on the backtrack tile
    (3, 1), which it had never visited before; moving south hardens it. *)
Lemma backtrack_tile_hardens_whenever_it_is_left_witness :
  let w := theWorld (page 0 [KeyDown "d"; KeyDown "d"] emptyWorld) in
  let g := theSession w in
  player g = {| pos_x := 3; pos_y := 1 |}
  /\ visits <$> getTile (grid g) 3 1 = Some 1
  /\ exists w' g',
       handleKey "s" w = Done w' /\ game w' = Some g' /\ stateAt g' 3 1 = Some Wall.
Proof.
  intros w g. split; [by_compute|]. split; [by_compute|].
  assert (Hc : exists c, getTile (grid g) (pos_x (player g)) (pos_y (player g)) = Some c
                         /\ archetype c = Backtrack /\ state c = Safe).
  { vm_compute. eexists. repeat split; reflexivity. }
  destruct Hc as (c & Hc & Harch & Hst).
  destruct (backtrack_tile_hardens_whenever_it_is_left 0 [KeyDown "d"; KeyDown "d"]
              emptyWorld w g "s" 0 1 c)
    as (w' & g' & Hw' & Hg' & Hiff);
    [by_compute|by_compute|by_compute|by_compute|exact Hc|exact Harch|by rewrite Hst|].
  exists w', g'. split; [exact Hw'|]. split; [exact Hg'|].
  apply (proj2 Hiff). by_compute.
Defined.

(** X18. On the page, a north-entry tile under the player (other than the
    exit) hardens on the next accepted move exactly if the move that
    brought the player onto it was a move north, that is, if the newest
    recent direction is north. *)
Theorem north_entry_tile_hardens_iff_entered_by_a_move_north
  seed events w0 w g key dx dy c :
  page seed events w0 = Done w -> game w = Some g ->
  keyMove key = Some (dx, dy) -> moveAccepted dx dy g = true ->
  getTile (grid g) (pos_x (player g)) (pos_y (player g)) = Some c ->
  archetype c = NorthEntry -> state c <> Exit ->
  exists w' g',
    handleKey key w = Done w' /\ game w' = Some g'
    /\ (stateAt g' (pos_x (player g)) (pos_y (player g)) = Some Wall
        <-> last (recentDirections g) = Some "north").
Proof.
  intros Hp Hg Hk Hacc Hc Ha He.
  destruct (key_move_left_state _ _ _ _ _ _ _ _ _ Hp Hg Hk Hacc Hc He)
    as (Hsafe & w' & g' & Hw' & Hg' & Hs).
  exists w', g'. do 2 (split; [done|]). rewrite Hs, Ha.
  destruct (page_reaches _ _ _ _ _ Hp Hg)
    as (_ & _ & _ & _ & _ & _ & _ & _ & _ & (e & Hce & Hle & _)).
  rewrite Hc in Hce. injection Hce as <-.
  cbn [trigger lastEntry bump set_leaveCount]. rewrite Hle.
  by destruct (bool_decide_reflect (last (recentDirections g) = Some "north")).
Qed.

(** Seed 0.875: a move north brings the player onto the north-entry tile
    (1, 0); moving east then hardens it. *)
Lemma north_entry_tile_hardens_iff_entered_by_a_move_north_witness :
  let w := theWorld (page 0.875 [KeyDown "w"] emptyWorld) in
  let g := theSession w in
  player g = {| pos_x := 1; pos_y := 0 |}
  /\ last (recentDirections g) = Some "north"
  /\ exists w' g',
       handleKey "d" w = Done w' /\ game w' = Some g' /\ stateAt g' 1 0 = Some Wall.
Proof.
  intros w g. split; [by_compute|].
  assert (Hl : last (recentDirections g) = Some "north") by by_compute.
  split; [exact Hl|].
  assert (Hc : exists c, getTile (grid g) (pos_x (player g)) (pos_y (player g)) = Some c
                         /\ archetype c = NorthEntry /\ state c = Safe).
  { vm_compute. eexists. repeat split; reflexivity. }
  destruct Hc as (c & Hc & Harch & Hst).
  destruct (north_entry_tile_hardens_iff_entered_by_a_move_north
              0.875 [KeyDown "w"] emptyWorld w g "d" 1 0 c)
    as (w' & g' & Hw' & Hg' & Hiff);
    [by_compute|by_compute|by_compute|by_compute|exact Hc|exact Harch|by rewrite Hst|].
  exists w', g'. split; [exact Hw'|]. split; [exact Hg'|]. exact (proj2 Hiff Hl).
Defined.

(** X19. On the page, a third-exit tile under the player (other than the
    exit) hardens on the next accepted move exactly if that is its
    [thirdExit]-th leave. *)
Theorem third_exit_tile_hardens_on_its_thirdExit_th_leave
  seed events w0 w g key dx dy c :
  page seed events w0 = Done w -> game w = Some g ->
  keyMove key = Some (dx, dy) -> moveAccepted dx dy g = true ->
  getTile (grid g) (pos_x (player g)) (pos_y (player g)) = Some c ->
  archetype c = ThirdExit -> state c <> Exit ->
  exists w' g',
    handleKey key w = Done w' /\ game w' = Some g'
    /\ (stateAt g' (pos_x (player g)) (pos_y (player g)) = Some Wall
        <-> leaveCount c + 1 = thirdExit (thresholds g)).
Proof.
  intros Hp Hg Hk Hacc Hc Ha He.
  destruct (key_move_left_state _ _ _ _ _ _ _ _ _ Hp Hg Hk Hacc Hc He)
    as (Hsafe & w' & g' & Hw' & Hg' & Hs).
  exists w', g'. do 2 (split; [done|]). rewrite Hs, Ha.
  destruct (page_reaches _ _ _ _ _ Hp Hg) as (_ & _ & _ & _ & _ & _ & (_ & Hlt) & _).
  specialize (Hlt _ _ c Hc Ha ltac:(by rewrite Hsafe) He).
  cbn [trigger thresholds set_grid leaveCount bump set_leaveCount].
  destruct (Z.leb_spec (thirdExit (thresholds g)) (leaveCount c + 1)); split; try done; lia.
Qed.

(** Seed 0.5, where [thirdExit] is 3: the start tile is a third-exit tile;
    after south, north, south, north it has been left twice, and the
    third leave hardens it. *)
Lemma third_exit_tile_hardens_on_its_thirdExit_th_leave_witness :
  let w := theWorld (page 0.5 [KeyDown "s"; KeyDown "w"; KeyDown "s"; KeyDown "w"]
                       emptyWorld) in
  let g := theSession w in
  player g = {| pos_x := 1; pos_y := 1 |}
  /\ leaveCount <$> getTile (grid g) 1 1 = Some 2
  /\ thirdExit (thresholds g) = 3
  /\ exists w' g',
       handleKey "s" w = Done w' /\ game w' = Some g' /\ stateAt g' 1 1 = Some Wall.
Proof.
  intros w g. split; [by_compute|]. split; [by_compute|]. split; [by_compute|].
  assert (Hc : exists c, getTile (grid g) (pos_x (player g)) (pos_y (player g)) = Some c
                         /\ archetype c = ThirdExit /\ state c = Safe
                         /\ leaveCount c + 1 = thirdExit (thresholds g)).
  { vm_compute. eexists. repeat split; reflexivity. }
  destruct Hc as (c & Hc & Harch & Hst & Hl).
  destruct (third_exit_tile_hardens_on_its_thirdExit_th_leave
              0.5 [KeyDown "s"; KeyDown "w"; KeyDown "s"; KeyDown "w"] emptyWorld
              w g "s" 0 1 c)
    as (w' & g' & Hw' & Hg' & Hiff);
    [by_compute|by_compute|by_compute|by_compute|exact Hc|exact Harch|by rewrite Hst|].
  exists w', g'. split; [exact Hw'|]. split; [exact Hg'|]. exact (proj2 Hiff Hl).
Defined.

Lemma sequence_trigger_spec t g :
  trigger Sequence t g = true
  <-> (length (recentDirections g) < 2)%nat
      \/ exists l n, recentDirections g = l ++ [n; n].
Proof.
  cbn [trigger]. destruct (recentDirections g) as [|b l _] using rev_ind.
  { rewrite slice_from_nil. split; [left; simpl; lia|done]. }
  destruct l as [|a l _] using rev_ind.
  { split; [left; simpl; lia|]. intros _.
    change (slice_from (-2) ([] ++ [b])) with [b].
    cbn [forallb lookup list_lookup]. by rewrite bool_decide_true. }
  rewrite <- app_assoc. cbn [app]. rewrite slice_from_last_two.
  cbn [forallb lookup list_lookup]. rewrite bool_decide_true by done. cbn [andb].
  rewrite andb_true_r, bool_decide_eq_true. split.
  - intros [= ->]. right. by exists l, a.
  - intros [Hlen|(l' & n & Heq)].
    + rewrite !length_app in Hlen. simpl in Hlen. lia.
    + apply (f_equal (@rev string)) in Heq. rewrite !rev_app_distr in Heq.
      simpl in Heq. by injection Heq as -> ->.
Qed.

(** X20. On the page, a sequence tile under the player (other than the
    exit) hardens on the next accepted move exactly if fewer than two moves
    have been made in the session or the last two moves went in the same
    direction; the direction of the move that leaves the tile plays no
    part. *)
Theorem sequence_tile_hardens_iff_the_last_two_moves_agree
  seed events w0 w g key dx dy c :
  page seed events w0 = Done w -> game w = Some g ->
  keyMove key = Some (dx, dy) -> moveAccepted dx dy g = true ->
  getTile (grid g) (pos_x (player g)) (pos_y (player g)) = Some c ->
  archetype c = Sequence -> state c <> Exit ->
  exists w' g',
    handleKey key w = Done w' /\ game w' = Some g'
    /\ (stateAt g' (pos_x (player g)) (pos_y (player g)) = Some Wall
        <-> moveCount g < 2 \/ exists l n, recentDirections g = l ++ [n; n]).
Proof.
  intros Hp Hg Hk Hacc Hc Ha He.
  destruct (key_move_left_state _ _ _ _ _ _ _ _ _ Hp Hg Hk Hacc Hc He)
    as (Hsafe & w' & g' & Hw' & Hg' & Hs).
  exists w', g'. do 2 (split; [done|]). rewrite Hs, Ha.
  destruct (page_reaches _ _ _ _ _ Hp Hg) as (_ & _ & _ & (Hm & Hlen & _) & _).
  set (g1 := set_grid _ g).
  pose proof (sequence_trigger_spec (bump c) g1) as Hiff.
  change (recentDirections g1) with (recentDirections g) in Hiff.
  assert (Hshort : (length (recentDirections g) < 2)%nat <-> moveCount g < 2) by lia.
  rewrite Hshort in Hiff. rewrite <- Hiff.
  by destruct (trigger Sequence (bump c) g1).
Qed.

(** Seed 0.5: two moves east bring the player onto the sequence tile
    (3, 1); a move south, in another direction, hardens it. *)
Lemma sequence_tile_hardens_iff_the_last_two_moves_agree_witness :
  let w := theWorld (page 0.5 [KeyDown "d"; KeyDown "d"] emptyWorld) in
  let g := theSession w in
  player g = {| pos_x := 3; pos_y := 1 |}
  /\ recentDirections g = ["east"; "east"]
  /\ exists w' g',
       handleKey "s" w = Done w' /\ game w' = Some g' /\ stateAt g' 3 1 = Some Wall.
Proof.
  intros w g. split; [by_compute|].
  assert (Hd : recentDirections g = [] ++ ["east"; "east"]) by by_compute.
  split; [exact Hd|].
  assert (Hc : exists c, getTile (grid g) (pos_x (player g)) (pos_y (player g)) = Some c
                         /\ archetype c = Sequence /\ state c = Safe).
  { vm_compute. eexists. repeat split; reflexivity. }
  destruct Hc as (c & Hc & Harch & Hst).
  destruct (sequence_tile_hardens_iff_the_last_two_moves_agree
              0.5 [KeyDown "d"; KeyDown "d"] emptyWorld w g "s" 0 1 c)
    as (w' & g' & Hw' & Hg' & Hiff);
    [by_compute|by_compute|by_compute|by_compute|exact Hc|exact Harch|by rewrite Hst|].
  exists w', g'. split; [exact Hw'|]. split; [exact Hg'|].
  apply (proj2 Hiff). right. by exists [], "east".
Defined.

Lemma length_slice_from {A} k (l : list A) : (length (slice_from k l) <= length l)%nat.
Proof. unfold slice_from. rewrite length_drop. lia. Qed.

(** X21. On the page, a frequency tile under the player (other than the
    exit) hardens on the next accepted move exactly if at least
    [frequencyCount] of the last [frequencyWindow] recent archetypes are
    frequency; this never happens before the third move of the session. *)
Theorem frequency_tile_hardens_iff_enough_recent_tiles_were_frequency
  seed events w0 w g key dx dy c :
  page seed events w0 = Done w -> game w = Some g ->
  keyMove key = Some (dx, dy) -> moveAccepted dx dy g = true ->
  getTile (grid g) (pos_x (player g)) (pos_y (player g)) = Some c ->
  archetype c = Frequency -> state c <> Exit ->
  let recent := slice_from (- frequencyWindow (thresholds g)) (recentArchetypes g) in
  let count := Z.of_nat (length (filter (fun entry => entry = Frequency) recent)) in
  exists w' g',
    handleKey key w = Done w' /\ game w' = Some g'
    /\ (stateAt g' (pos_x (player g)) (pos_y (player g)) = Some Wall
        <-> frequencyCount (thresholds g) <= count)
    /\ (stateAt g' (pos_x (player g)) (pos_y (player g)) = Some Wall ->
        3 <= moveCount g).
Proof.
  intros Hp Hg Hk Hacc Hc Ha He recent count.
  destruct (key_move_left_state _ _ _ _ _ _ _ _ _ Hp Hg Hk Hacc Hc He)
    as (Hsafe & w' & g' & Hw' & Hg' & Hs).
  exists w', g'. do 2 (split; [done|]). rewrite Hs, Ha.
  destruct (page_reaches _ _ _ _ _ Hp Hg)
    as (_ & _ & _ & (Hm & _ & Hlen & _) & _ & _ & ((_ & _ & Hfc & _) & _) & _).
  cbn [trigger thresholds recentArchetypes set_grid archetype bump set_leaveCount].
  rewrite Ha. fold recent. fold count.
  assert (Hcount : count <= moveCount g).
  { unfold count. pose proof (length_filter (fun entry => entry = Frequency) recent).
    pose proof (length_slice_from (- frequencyWindow (thresholds g)) (recentArchetypes g)).
    fold recent in H0. lia. }
  destruct (Z.leb_spec (frequencyCount (thresholds g)) count); split; try done; try lia.
  split; [done|lia].
Qed.

(** Seed 0, where four of the last eight archetypes must be frequency:
    after north, west, south, south, east, east, east the player stands on
    the frequency tile (3, 2), the fourth frequency tile entered; moving
    south hardens it. *)
Lemma frequency_tile_hardens_iff_enough_recent_tiles_were_frequency_witness :
  let keys := ["w"; "a"; "s"; "s"; "d"; "d"; "d"] in
  let w := theWorld (page 0 (KeyDown <$> keys) emptyWorld) in
  let g := theSession w in
  player g = {| pos_x := 3; pos_y := 2 |}
  /\ recentArchetypes g
     = [Frequency; Sequence; Frequency; ThirdExit; ThirdExit; Frequency; Frequency]
  /\ frequencyCount (thresholds g) = 4
  /\ exists w' g',
       handleKey "s" w = Done w' /\ game w' = Some g' /\ stateAt g' 3 2 = Some Wall.
Proof.
  intros keys w g. split; [by_compute|]. split; [by_compute|]. split; [by_compute|].
  assert (Hc : exists c, getTile (grid g) (pos_x (player g)) (pos_y (player g)) = Some c
                         /\ archetype c = Frequency /\ state c = Safe).
  { vm_compute. eexists. repeat split; reflexivity. }
  destruct Hc as (c & Hc & Harch & Hst).
  destruct (frequency_tile_hardens_iff_enough_recent_tiles_were_frequency
              0 (KeyDown <$> keys) emptyWorld w g "s" 0 1 c)
    as (w' & g' & Hw' & Hg' & Hiff & _);
    [by_compute|by_compute|by_compute|by_compute|exact Hc|exact Harch|by rewrite Hst|].
  exists w', g'. split; [exact Hw'|]. split; [exact Hg'|].
  apply (proj2 Hiff). by_compute.
Defined.

(** *** The status line after a move *)

Lemma stateAt_moved_frozen dx dy darch g x y s :
  stateAt g x y = Some s -> frozen s ->
  stateAt (promote (moved dx dy darch g)) x y = Some s.
Proof.
  intros Hs Hf. unfold moved. apply stateAt_promote_frozen; [|done].
  rewrite stateAt_arrive. by apply stateAt_leaveTile_frozen.
Qed.

Lemma grid_withMessage m g : grid (withMessage m g) = grid g.
Proof. by destruct m. Qed.

Lemma exit_place g :
  exit_ok g = true -> TilesTell g ->
  exit g = {| pos_x := gridSize - 2; pos_y := gridSize - 2 |}.
Proof.
  intros Hex%exit_ok_spec HT. unfold stateAt in Hex.
  destruct (getTile (grid g) (pos_x (exit g)) (pos_y (exit g))) as [t|] eqn:Ht; [|done].
  injection Hex as Hex. destruct (HT _ _ _ Ht) as (_ & _ & _ & _ & _ & He).
  specialize (He Hex). injection He as Hx Hy. by apply Pos_ext.
Qed.

(** How an accepted key move ends on the page: with the win message on
    the exit, and otherwise with the learning message or the no-route
    message, according to whether a route to the exit is left. *)
Lemma key_move_status g dx dy :
  Sound g -> Steady g -> unitMove dx dy -> moveAccepted dx dy g = true ->
  exists g',
    attemptMove dx dy (shown g) = Done (shown g')
    /\ (player g' = exit g' ->
        message g' = "Exit reached. The maze remembers your path.")
    /\ (player g' <> exit g' -> Route (grid g') (player g') (exit g') ->
        message g' = "Learning...")
    /\ (player g' <> exit g' -> ~ Route (grid g') (player g') (exit g') ->
        message g' = "The maze has sealed. No route remains.").
Proof.
  intros Hs Hst Hu Hacc.
  pose proof Hs as (Hok & Hex & _). pose proof Hok as [Hgr HP]%session_ok_spec.
  pose proof (grid_ok_sound _ Hgr) as HG.
  pose proof Hacc as (Hout & d & Hd & Hw)%moveAccepted_spec.
  destruct (attemptMove_accepted dx dy (shown g) g d eq_refl HG HP Hout Hd Hw)
    as (d' & Hd' & Hfin). cbn zeta in Hd', Hfin.
  pose proof (Steady_move dx dy d g Hs Hu Hd Hw Hst) as (_ & _ & HT1 & _).
  pose proof (proj1 (proj2 (proj2 Hst))) as HT.
  pose proof (exit_place g Hex HT) as Hexit.
  destruct (moved_fields dx dy (archetype d) g) as (Hp1 & He1 & _ & _ & _ & _ & _ & Hm1).
  cbn zeta in Hp1, He1, Hm1.
  set (g1 := moved dx dy (archetype d) g) in *.
  assert (Hpp : player (promote g1) = player g1) by apply player_promote.
  assert (HX : stateAt (promote g1) (pos_x (exit g)) (pos_y (exit g)) = Some Exit).
  { apply stateAt_moved_frozen; [by apply exit_ok_spec|by right]. }
  assert (Hd1 : getTile (grid (promote g1)) (pos_x (player g1)) (pos_y (player g1))
                = Some (promoteT d')).
  { rewrite getTile_promote, Hd'. by rewrite decide_True. }
  unfold finishes in Hfin.
  destruct (bool_decide_reflect (state d' = Exit)) as [Hde|Hde].
  - rewrite Hfin. eexists. split; [reflexivity|].
    destruct (tick_fields (set_message "Exit reached. The maze remembers your path." g1))
      as (-> & -> & _ & _ & _ & _ & _ & _ & ->).
    cbn [player exit message set_message].
    assert (Hat : player g1 = exit g1).
    { destruct (HT1 _ _ _ Hd1) as (_ & _ & _ & _ & _ & He).
      unfold promoteT in He. rewrite bool_decide_false in He by (by rewrite Hde).
      specialize (He Hde). injection He as Hx Hy.
      rewrite <- (exit_promote g1), He1, Hexit. by apply Pos_ext. }
    split; [done|]. split; intros Hne; by destruct Hne.
  - destruct Hfin as (reachable & trapped & Hpath & Htrap & ->).
    eexists. split; [reflexivity|].
    set (fm := failureMessage reachable trapped).
    destruct (tick_fields (withMessage fm (promote g1)))
      as (-> & -> & _ & _ & _ & _ & _ & _ & ->).
    assert (Hpw : player (withMessage fm (promote g1)) = player g1).
    { by destruct fm. }
    assert (Hew : exit (withMessage fm (promote g1)) = exit g).
    { rewrite <- He1. by destruct fm. }
    rewrite Hpw, Hew.
    assert (Hne : player g1 <> exit g).
    { intros E. unfold stateAt in HX. rewrite <- E, Hd1 in HX. injection HX as HX.
      unfold promoteT in HX. destruct (bool_decide (state d' = Neutral)); done. }
    split; [done|].
    assert (HG1 : GridOk (grid (promote g1))) by by apply GridOk_promote, GridOk_moved.
    assert (HP1 : InGrid (player g1)).
    { unfold g1. rewrite player_moved. by apply outOfGrid_false in Hout. }
    assert (He1' : exit g1 = exit g).
    { by rewrite <- (exit_promote g1). }
    rewrite He1' in Hpath.
    destruct (pathExists_decides (player g1) (exit g) (grid (promote g1)) HG1 HP1)
      as (b & Hb & Hiff).
    rewrite Hpath in Hb. injection Hb as <-.
    assert (Hroute : Route (grid (tick (withMessage fm (promote g1)))) (player g1) (exit g)
                     <-> Route (grid (promote g1)) (player g1) (exit g)).
    { split; apply Route_states; intros x y;
        rewrite getTile_tick, grid_withMessage, <- option_fmap_compose;
        destruct (getTile (grid (promote g1)) x y) as [t|]; try done;
        cbn [fmap option_fmap option_map compose]; by rewrite decayTile_state. }
    rewrite Hroute, <- Hiff. unfold fm.
    destruct reachable.
    + assert (trapped = false) as ->.
      { destruct trapped; [|done].
        rewrite (trapped_pathExists (player g1) (exit g) (grid (promote g1)) HP1 Htrap)
          in Hpath; [done|].
        intros [= Hx Hy]. apply Hne. by apply Pos_ext. }
      split; [done|]. intros _ Hn. by destruct Hn.
    + split; [done|]. done.
Qed.

(** X22. On the page, an accepted key move ends with the status line
    showing the message of the session, which is the win message if the
    player now is on the exit, the learning message if there is a route
    from the player to the exit, and the no-route message if there is
    none; the messages for a crystallizing tile and for entrapment never
    remain. *)
Theorem status_after_an_accepted_key_move seed events w0 w g key dx dy :
  page seed events w0 = Done w -> game w = Some g ->
  keyMove key = Some (dx, dy) -> moveAccepted dx dy g = true ->
  exists w' g',
    handleKey key w = Done w' /\ game w' = Some g'
    /\ statusEl w' = message g'
    /\ (player g' = exit g' ->
        message g' = "Exit reached. The maze remembers your path.")
    /\ (player g' <> exit g' -> Route (grid g') (player g') (exit g') ->
        message g' = "Learning...")
    /\ (player g' <> exit g' -> ~ Route (grid g') (player g') (exit g') ->
        message g' = "The maze has sealed. No route remains.").
Proof.
  intros Hp Hg Hk Hacc.
  destruct (page_reaches _ _ _ _ _ Hp Hg) as (-> & Hs & Hst).
  rewrite handleKey_keyMove, Hk.
  destruct (key_move_status g dx dy Hs Hst (keyMove_unit _ _ _ Hk) Hacc)
    as (g' & -> & H1 & H2 & H3).
  by exists (shown g'), g'.
Qed.

(** Seed 0.875, after north, west, south the player stands at (0, 1) and
    moves north into the corner, between two walls. *)
Lemma status_after_an_accepted_key_move_witness :
  let w := theWorld (page 0.875 [KeyDown "w"; KeyDown "a"; KeyDown "s"] emptyWorld) in
  let g := theSession w in
  player g = {| pos_x := 0; pos_y := 1 |}
  /\ exists w' g',
       handleKey "w" w = Done w' /\ game w' = Some g'
       /\ statusEl w' = message g'
       /\ (player g' = exit g' ->
           message g' = "Exit reached. The maze remembers your path.")
       /\ (player g' <> exit g' -> Route (grid g') (player g') (exit g') ->
           message g' = "Learning...")
       /\ (player g' <> exit g' -> ~ Route (grid g') (player g') (exit g') ->
           message g' = "The maze has sealed. No route remains.").
Proof.
  intros w g. split; [by_compute|].
  apply (status_after_an_accepted_key_move 0.875 [KeyDown "w"; KeyDown "a"; KeyDown "s"]
           emptyWorld w g "w" 0 (-1)); by_compute.
Defined.

(** ** Colours *)

Lemma hexDigit_char c d :
  hexDigit c = Some d ->
  0 <= d < 16
  /\ isWhiteSpace c = false
  /\ isChar "#" c = false /\ isChar "-" c = false /\ isChar "+" c = false
  /\ isChar "x" c = false /\ isChar "X" c = false.
Proof.
  destruct c as [[] [] [] [] [] [] [] []]; vm_compute; intros [= <-]; repeat split;
    discriminate.
Qed.

Lemma parseInt16_six c1 c2 c3 c4 c5 c6 d1 d2 d3 d4 d5 d6 :
  hexDigit c1 = Some d1 -> hexDigit c2 = Some d2 -> hexDigit c3 = Some d3 ->
  hexDigit c4 = Some d4 -> hexDigit c5 = Some d5 -> hexDigit c6 = Some d6 ->
  removeHash (six c1 c2 c3 c4 c5 c6) = six c1 c2 c3 c4 c5 c6
  /\ parseInt16 (six c1 c2 c3 c4 c5 c6)
     = Some (16 * (16 * (16 * (16 * (16 * d1 + d2) + d3) + d4) + d5) + d6).
Proof.
  intros H1 H2 H3 H4 H5 H6.
  destruct (hexDigit_char _ _ H1) as (_ & W1 & A1 & M1 & P1 & _).
  destruct (hexDigit_char _ _ H2) as (_ & _ & A2 & _ & _ & X2 & X2').
  destruct (hexDigit_char _ _ H3) as (_ & _ & A3 & _).
  destruct (hexDigit_char _ _ H4) as (_ & _ & A4 & _).
  destruct (hexDigit_char _ _ H5) as (_ & _ & A5 & _).
  destruct (hexDigit_char _ _ H6) as (_ & _ & A6 & _).
  split.
  - unfold six. cbn [removeHash]. by rewrite A1, A2, A3, A4, A5, A6.
  - unfold parseInt16, six. cbn [trimStart]. rewrite W1, M1, P1, X2, X2', andb_false_r.
    cbn [hexDigits]. rewrite H1, H2, H3, H4, H5, H6.
    cbn [default from_option id mbind option_bind]. f_equal. lia.
Qed.

Lemma byte_of_bits v k :
  0 <= v < 2 ^ 24 -> 0 <= k ->
  Z.land (Z.shiftr (toInt32 (Some v)) k) 255 = (v / 2 ^ k) mod 256.
Proof.
  intros Hv Hk. unfold toInt32.
  replace ((v + 2 ^ 31) mod 2 ^ 32 - 2 ^ 31) with v
    by (rewrite Z.mod_small; lia).
  rewrite Z.shiftr_div_pow2 by done. change 255 with (Z.ones 8).
  by rewrite Z.land_ones.
Qed.

(** X23. [hexToRgb] decodes a colour of six hexadecimal digits, in either
    case and with or without a leading ["#"], into the three bytes its
    digit pairs spell. *)
Theorem hexToRgb_decodes_six_hex_digits c1 c2 c3 c4 c5 c6 d1 d2 d3 d4 d5 d6 :
  hexDigit c1 = Some d1 -> hexDigit c2 = Some d2 -> hexDigit c3 = Some d3 ->
  hexDigit c4 = Some d4 -> hexDigit c5 = Some d5 -> hexDigit c6 = Some d6 ->
  let rgb := {| rgb_r := 16 * d1 + d2; rgb_g := 16 * d3 + d4; rgb_b := 16 * d5 + d6 |} in
  hexToRgb ("#" +:+ six c1 c2 c3 c4 c5 c6) = rgb
  /\ hexToRgb (six c1 c2 c3 c4 c5 c6) = rgb.
Proof.
  intros H1 H2 H3 H4 H5 H6 rgb.
  destruct (parseInt16_six _ _ _ _ _ _ _ _ _ _ _ _ H1 H2 H3 H4 H5 H6) as [Hr Hp].
  destruct (hexDigit_char _ _ H1) as (B1 & _). destruct (hexDigit_char _ _ H2) as (B2 & _).
  destruct (hexDigit_char _ _ H3) as (B3 & _). destruct (hexDigit_char _ _ H4) as (B4 & _).
  destruct (hexDigit_char _ _ H5) as (B5 & _). destruct (hexDigit_char _ _ H6) as (B6 & _).
  set (v := 16 * (16 * (16 * (16 * (16 * d1 + d2) + d3) + d4) + d5) + d6) in *.
  assert (Hv : 0 <= v < 2 ^ 24) by (unfold v; lia).
  assert (Hgoal : hexToRgb (six c1 c2 c3 c4 c5 c6) = rgb).
  { unfold hexToRgb. rewrite Hr, Hp. cbn [mbind option_bind]. unfold nearestDouble.
    rewrite (proj2 (Z.ltb_lt (Z.abs v) (2 ^ 53))) by lia.
    replace (Z.land (toInt32 (Some v)) 255)
      with (Z.land (Z.shiftr (toInt32 (Some v)) 0) 255) by (by rewrite Z.shiftr_0_r).
    rewrite !byte_of_bits by lia. unfold rgb. f_equal.
    - change (2 ^ 16) with 65536. unfold v. Z.div_mod_to_equations. lia.
    - change (2 ^ 8) with 256. unfold v. Z.div_mod_to_equations. lia.
    - change (2 ^ 0) with 1. rewrite Z.div_1_r. unfold v. Z.div_mod_to_equations. lia. }
  split; [|done]. rewrite <- Hgoal. unfold hexToRgb.
  change (removeHash ("#" +:+ six c1 c2 c3 c4 c5 c6)) with (six c1 c2 c3 c4 c5 c6).
  by rewrite Hr.
Qed.

(** The colour of third-exit tiles, ["#365b9d"], is (54, 91, 157). *)
Lemma hexToRgb_decodes_six_hex_digits_witness :
  hexToRgb "#365b9d" = {| rgb_r := 54; rgb_g := 91; rgb_b := 157 |}
  /\ hexToRgb "365b9d" = {| rgb_r := 54; rgb_g := 91; rgb_b := 157 |}.
Proof.
  apply (hexToRgb_decodes_six_hex_digits _ _ _ _ _ _ 3 6 5 11 9 13); reflexivity.
Defined.

Lemma hexToRgb_bytes hex :
  0 <= rgb_r (hexToRgb hex) <= 255 /\ 0 <= rgb_g (hexToRgb hex) <= 255
  /\ 0 <= rgb_b (hexToRgb hex) <= 255.
Proof.
  unfold hexToRgb. cbn [rgb_r rgb_g rgb_b].
  set (v := toInt32 _). change 255 with (Z.ones 8). rewrite !Z.land_ones by lia.
  pose proof (Z.mod_pos_bound (Z.shiftr v 16) (2 ^ 8) ltac:(lia)).
  pose proof (Z.mod_pos_bound (Z.shiftr v 8) (2 ^ 8) ltac:(lia)).
  pose proof (Z.mod_pos_bound v (2 ^ 8) ltac:(lia)).
  change (Z.ones 8) with 255. lia.
Qed.

Lemma mixBetween_spec alpha b o :
  mixBetween alpha b o = true ->
  Z.min b o <= toInteger (mix alpha b o)
  /\ toInteger (mix alpha b o) <= Z.max b o
  /\ numberToString (mix alpha b o) = pretty (toInteger (mix alpha b o)).
Proof.
  unfold mixBetween. cbn zeta.
  intros [[H1%Z.leb_le H2%Z.leb_le]%andb_true_iff H3]%andb_true_iff.
  do 2 (split; [done|]). unfold numberToString, toInteger in *.
  by destruct (FloatOps.Prim2SF (mix alpha b o)).
Qed.

Lemma mixBetween_bytes alpha b o :
  alpha = strong \/ alpha = faint ->
  0 <= b <= 255 -> 0 <= o <= 255 -> mixBetween alpha b o = true.
Proof.
  intros Ha Hb Ho.
  assert (Hall : forall a, a = strong \/ a = faint ->
            forallb (fun b => forallb (fun o => mixBetween a b o) (seqZ 0 256)) (seqZ 0 256)
            = true).
  { intros a [->| ->]; vm_cast_no_check (eq_refl true). }
  specialize (Hall alpha Ha). rewrite forallb_forall in Hall.
  specialize (Hall b). rewrite forallb_forall in Hall.
  apply Hall; apply list_elem_of_In, elem_of_seqZ; lia.
Qed.

(** X24. For every pair of colour strings and for both intensities that
    [drawBoard] uses (0.8 and 0.4), [tint] returns a string of the form
    [rgb(r, g, b)] whose three numbers are integers in decimal, each
    between the corresponding channels of the two colours, and so between
    0 and 255. *)
Theorem tint_mixes_each_channel_between_its_colours baseColor overlay alpha :
  alpha = strong \/ alpha = faint ->
  exists r g b,
    tint baseColor overlay alpha
    = "rgb(" +:+ pretty r +:+ ", " +:+ pretty g +:+ ", " +:+ pretty b +:+ ")"
    /\ Z.min (rgb_r (hexToRgb baseColor)) (rgb_r (hexToRgb overlay)) <= r
       <= Z.max (rgb_r (hexToRgb baseColor)) (rgb_r (hexToRgb overlay))
    /\ Z.min (rgb_g (hexToRgb baseColor)) (rgb_g (hexToRgb overlay)) <= g
       <= Z.max (rgb_g (hexToRgb baseColor)) (rgb_g (hexToRgb overlay))
    /\ Z.min (rgb_b (hexToRgb baseColor)) (rgb_b (hexToRgb overlay)) <= b
       <= Z.max (rgb_b (hexToRgb baseColor)) (rgb_b (hexToRgb overlay))
    /\ 0 <= r <= 255 /\ 0 <= g <= 255 /\ 0 <= b <= 255.
Proof.
  intros Ha.
  destruct (hexToRgb_bytes baseColor) as (Hr1 & Hg1 & Hb1).
  destruct (hexToRgb_bytes overlay) as (Hr2 & Hg2 & Hb2).
  pose proof (mixBetween_bytes alpha _ _ Ha Hr1 Hr2) as Mr.
  pose proof (mixBetween_bytes alpha _ _ Ha Hg1 Hg2) as Mg.
  pose proof (mixBetween_bytes alpha _ _ Ha Hb1 Hb2) as Mb.
  apply mixBetween_spec in Mr as (Mr1 & Mr2 & Mr3).
  apply mixBetween_spec in Mg as (Mg1 & Mg2 & Mg3).
  apply mixBetween_spec in Mb as (Mb1 & Mb2 & Mb3).
  eexists _, _, _. split; [unfold tint; cbn zeta; by rewrite Mr3, Mg3, Mb3|].
  repeat split; lia.
Qed.

(** An interior neutral tile tinted faintly with the colour of third-exit
    tiles. *)
Lemma tint_mixes_each_channel_between_its_colours_witness :
  tint "#121827" "#365b9d" faint = "rgb(32, 51, 86)"
  /\ hexToRgb "#121827" = {| rgb_r := 18; rgb_g := 24; rgb_b := 39 |}
  /\ hexToRgb "#365b9d" = {| rgb_r := 54; rgb_g := 91; rgb_b := 157 |}.
Proof.
  destruct (tint_mixes_each_channel_between_its_colours "#121827" "#365b9d" faint)
    as (r & g & b & Ht & _); [by right|].
  split; [|split]; by vm_compute.
Defined.

Lemma tint_tells_archetypes_apart fill alpha a1 a2 :
  fill ∈ ["#1c2234"; "#121827"; "#283146"; "#151e2f"] ->
  alpha = strong \/ alpha = faint ->
  a1 <> a2 ->
  tint fill (archetypeColor (archetypeString a1)) alpha
  <> tint fill (archetypeColor (archetypeString a2)) alpha.
Proof.
  intros Hf Ha Hne.
  set (all := [ThirdExit; NorthEntry; Sequence; Frequency; Backtrack]).
  assert (Hall :
    forallb (fun fill => forallb (fun alpha => forallb (fun a1 => forallb (fun a2 =>
      bool_decide (a1 = a2)
      || negb (String.eqb (tint fill (archetypeColor (archetypeString a1)) alpha)
                          (tint fill (archetypeColor (archetypeString a2)) alpha)))
      all) all) [strong; faint]) ["#1c2234"; "#121827"; "#283146"; "#151e2f"] = true)
    by (vm_compute; reflexivity).
  rewrite forallb_forall in Hall. specialize (Hall fill (proj1 (list_elem_of_In _ _) Hf)).
  rewrite forallb_forall in Hall.
  specialize (Hall alpha ltac:(destruct Ha as [->| ->]; simpl; tauto)).
  rewrite forallb_forall in Hall.
  specialize (Hall a1 ltac:(destruct a1; simpl; tauto)).
  rewrite forallb_forall in Hall.
  specialize (Hall a2 ltac:(destruct a2; simpl; tauto)).
  rewrite bool_decide_false in Hall by done. cbn [orb] in Hall.
  apply negb_true_iff in Hall. by apply String.eqb_neq in Hall.
Qed.

(** X25. While a tile is tinted (its own reveal value is positive, or a
    reveal is running), the colour [drawBoard] fills it with tells its
    archetype: two tiles in the same state, both on the edge or both
    inside, both with or both without a reveal value of their own, are
    filled with different colours if their archetypes differ. *)
Theorem drawBoard_fills_tinted_tiles_by_archetype st x1 y1 x2 y2 t1 t2 :
  onEdge x1 y1 = onEdge x2 y2 -> state t1 = state t2 ->
  PrimFloat.ltb 0 (tile_reveal t1) = PrimFloat.ltb 0 (tile_reveal t2) ->
  tinted st t1 = true ->
  archetype t1 <> archetype t2 ->
  tileFill st x1 y1 t1 <> tileFill st x2 y2 t2.
Proof.
  intros He Hs Hr Ht Ha. unfold tileFill. cbn zeta.
  fold (onEdge x1 y1). fold (onEdge x2 y2). rewrite <- He, <- Hs, <- Hr.
  unfold tinted in Ht. rewrite Ht.
  apply tint_tells_archetypes_apart; [|by destruct (PrimFloat.ltb _ _); [left|right]|done].
  destruct (bool_decide (state t1 = Wall)); [apply list_elem_of_In; simpl; tauto|].
  destruct (bool_decide (state t1 = Safe)); [apply list_elem_of_In; simpl; tauto|].
  destruct (onEdge x1 y1); apply list_elem_of_In; simpl; tauto.
Qed.

(** Seed 0, after a click on the reveal button: the interior neutral tiles
    (2, 1), a sequence tile, and (3, 1), a backtrack tile, are filled with
    different colours. *)
Lemma drawBoard_fills_tinted_tiles_by_archetype_witness :
  let g := theSession (theWorld (page 0 [RevealClick] emptyWorld)) in
  exists t1 t2,
    getTile (grid g) 2 1 = Some t1 /\ getTile (grid g) 3 1 = Some t2
    /\ archetype t1 = Sequence /\ archetype t2 = Backtrack
    /\ tileFill g 2 1 t1 <> tileFill g 3 1 t2.
Proof.
  intros g.
  assert (H : exists t1 t2,
             getTile (grid g) 2 1 = Some t1 /\ getTile (grid g) 3 1 = Some t2
             /\ archetype t1 = Sequence /\ archetype t2 = Backtrack
             /\ state t1 = state t2
             /\ PrimFloat.ltb 0 (tile_reveal t1) = PrimFloat.ltb 0 (tile_reveal t2)
             /\ tinted g t1 = true).
  { vm_compute. eexists _, _. repeat split; reflexivity. }
  destruct H as (t1 & t2 & H1 & H2 & A1 & A2 & Hs & Hr & Ht).
  exists t1, t2. do 4 (split; [done|]).
  apply drawBoard_fills_tinted_tiles_by_archetype; [reflexivity|done|done|done|].
  by rewrite A1, A2.
Defined.

(** ** The backtrack rule on the page *)






(** *** [SealedBehind] along the operations of the page *)







